(** * Mapping extension: encryption engine, secret store, session store
      and capture orchestrator

    A shallow embedding of [src/utils/crypto.js], [src/utils/storage.js]
    and the capture flow of [src/background.js], with the properties the
    specification states about them, followed by further properties of
    the code, of helpers of [src/services] and of the lock of
    [src/popup/popup.js].

    Conventions.
    - A [Uint8Array] / [ArrayBuffer] is a [list byte].
    - A "binary string" (code units below 256, as built by
      [String.fromCharCode(bytes[i])] and consumed by [btoa]) is a Rocq
      [string]; so are the base64 strings and the storage key names.
    - Any other JavaScript string is a [jsstring]: the list of its UTF-16
      code units.
    - The browser primitives that are not part of the repository (AES-GCM,
      PBKDF2, [JSON], the URL parser) are the fields of a [Platform]
      record; what the proofs need from them is the record [PlatformLaws].
      [btoa], [atob], [TextEncoder] and [TextDecoder] are written out.
    - Effects are explicit: every asynchronous function is a state
      transformer over a [World] that returns either a value or the
      exception it throws. *)

From Stdlib Require Import ZArith NArith List String Ascii Lia Bool.
From Stdlib.Strings Require Import Byte.
From Stdlib Require Import Floats DecimalString.
From stdpp Require Import gmap strings.
Import ListNotations.

Local Open Scope N_scope.

Ltac Zify.zify_post_hook ::= Z.to_euclidean_division_equations.

(** ** Base64: [btoa] and [atob] *)

Module Base64.

Definition alphabet : string :=
  "ABCDEFGHIJKLMNOPQRSTUVWXYZabcdefghijklmnopqrstuvwxyz0123456789+/".

Definition pad : ascii := "="%char.

Definition char_of_sextet (n : N) : ascii :=
  match String.get (N.to_nat n) alphabet with
  | Some c => c
  | None => pad
  end.

Fixpoint index_from (i : N) (c : ascii) (s : string) : option N :=
  match s with
  | EmptyString => None
  | String d s' => if Ascii.eqb c d then Some i else index_from (N.succ i) c s'
  end.

Definition sextet_of_char (c : ascii) : option N := index_from 0 c alphabet.

Definition codes (s : string) : list N := map N_of_ascii (list_ascii_of_string s).
Definition of_codes (l : list N) : string := string_of_list_ascii (map ascii_of_N l).

(** Three bytes give four sextets; one or two trailing bytes are
    completed with zero bits and the group is padded with [=]. *)
Fixpoint encode (l : list N) : list ascii :=
  match l with
  | [] => []
  | [a] =>
      [char_of_sextet (a / 4); char_of_sextet ((a mod 4) * 16); pad; pad]
  | [a; b] =>
      [char_of_sextet (a / 4); char_of_sextet ((a mod 4) * 16 + b / 16);
       char_of_sextet ((b mod 16) * 4); pad]
  | a :: b :: c :: rest =>
      char_of_sextet (a / 4) :: char_of_sextet ((a mod 4) * 16 + b / 16)
      :: char_of_sextet ((b mod 16) * 4 + c / 64) :: char_of_sextet (c mod 64)
      :: encode rest
  end.

(** [btoa(binary)] *)
Definition btoa (binary : string) : string :=
  string_of_list_ascii (encode (codes binary)).

(** [atob] is the forgiving-base64 decoder: ASCII whitespace is dropped,
    one or two [=] are removed from the end when the length is a
    multiple of four, a length of 1 modulo 4 or a character outside the
    alphabet is an [InvalidCharacterError], and the bits left over in
    the last group are discarded. *)
Definition is_ascii_whitespace (c : ascii) : bool :=
  let n := N_of_ascii c in
  (n =? 9) || (n =? 10) || (n =? 12) || (n =? 13) || (n =? 32).

Definition strip_padding (l : list ascii) : list ascii :=
  if N.of_nat (length l) mod 4 =? 0 then
    if Ascii.eqb (List.last l " "%char) pad then
      let l1 := removelast l in
      if Ascii.eqb (List.last l1 " "%char) pad then removelast l1 else l1
    else l
  else l.

Fixpoint sextets (l : list ascii) : option (list N) :=
  match l with
  | [] => Some []
  | c :: l' =>
      match sextet_of_char c, sextets l' with
      | Some n, Some q => Some (n :: q)
      | _, _ => None
      end
  end.

Fixpoint decode (q : list N) : list N :=
  match q with
  | s0 :: s1 :: s2 :: s3 :: rest =>
      (s0 * 4 + s1 / 16) :: ((s1 mod 16) * 16 + s2 / 4)
      :: ((s2 mod 4) * 64 + s3) :: decode rest
  | [s0; s1; s2] => [s0 * 4 + s1 / 16; (s1 mod 16) * 16 + s2 / 4]
  | [s0; s1] => [s0 * 4 + s1 / 16]
  | _ => []
  end.

Definition atob (s : string) : option string :=
  let l := strip_padding
             (List.filter (fun c => negb (is_ascii_whitespace c))
                          (list_ascii_of_string s)) in
  if N.of_nat (length l) mod 4 =? 1 then None
  else match sextets l with
       | Some q => Some (of_codes (decode q))
       | None => None
       end.

(** The encoding without its padding, used to state what [atob] sees
    after [strip_padding]. *)
Fixpoint encode_nopad (l : list N) : list ascii :=
  match l with
  | [] => []
  | [a] => [char_of_sextet (a / 4); char_of_sextet ((a mod 4) * 16)]
  | [a; b] =>
      [char_of_sextet (a / 4); char_of_sextet ((a mod 4) * 16 + b / 16);
       char_of_sextet ((b mod 16) * 4)]
  | a :: b :: c :: rest =>
      char_of_sextet (a / 4) :: char_of_sextet ((a mod 4) * 16 + b / 16)
      :: char_of_sextet ((b mod 16) * 4 + c / 64) :: char_of_sextet (c mod 64)
      :: encode_nopad rest
  end.

Fixpoint sextets_of (l : list N) : list N :=
  match l with
  | [] => []
  | [a] => [a / 4; (a mod 4) * 16]
  | [a; b] => [a / 4; (a mod 4) * 16 + b / 16; (b mod 16) * 4]
  | a :: b :: c :: rest =>
      a / 4 :: ((a mod 4) * 16 + b / 16) :: ((b mod 16) * 4 + c / 64)
      :: c mod 64 :: sextets_of rest
  end.

(** Lists of character codes of a binary string. *)
Definition small (l : list N) : Prop := Forall (fun a => a < 256) l.

End Base64.

(** [arrayBufferToBase64(buffer)]: the loop appends
    [String.fromCharCode(bytes[i])] for every byte, then [btoa]. *)
Definition arrayBufferToBase64 (buffer : list byte) : string :=
  Base64.btoa (string_of_list_byte buffer).

(** [base64ToArrayBuffer(base64)]: [atob], then the loop stores
    [binary.charCodeAt(i)] into a fresh [Uint8Array]. [None] is the
    exception [atob] throws. *)
Definition base64ToArrayBuffer (base64 : string) : option (list byte) :=
  match Base64.atob base64 with
  | Some binary => Some (list_byte_of_string binary)
  | None => None
  end.

(** ** JavaScript strings, [TextEncoder] and [TextDecoder] *)

(** A JavaScript string is the sequence of its UTF-16 code units. *)
Definition jsstring := list N.

(** A string literal of the source, as a [jsstring]. *)
Definition js (s : string) : jsstring := Base64.codes s.

(** [a === b] on strings *)
Fixpoint jseqb (a b : jsstring) : bool :=
  match a, b with
  | [], [] => true
  | x :: a', y :: b' => (x =? y) && jseqb a' b'
  | _, _ => false
  end.

(** A string is falsy when it is empty. *)
Definition nonempty (s : jsstring) : bool :=
  match s with [] => false | _ :: _ => true end.

(** [s.substring(0, n)] *)
Definition substring0 (n : nat) (s : jsstring) : jsstring := firstn n s.

Module UTF8.

Definition is_high_surrogate (u : N) : bool := (0xD800 <=? u) && (u <=? 0xDBFF).
Definition is_low_surrogate (u : N) : bool := (0xDC00 <=? u) && (u <=? 0xDFFF).

Definition replacement : N := 0xFFFD.

(** The code points of a string. A surrogate that is not half of a pair
    is read as U+FFFD: [TextEncoder.encode] takes a [USVString]. *)
Fixpoint code_points (s : jsstring) : list N :=
  match s with
  | [] => []
  | u :: rest =>
      if is_high_surrogate u then
        match rest with
        | v :: rest' =>
            if is_low_surrogate v
            then (0x10000 + (u - 0xD800) * 0x400 + (v - 0xDC00)) :: code_points rest'
            else replacement :: code_points rest
        | [] => [replacement]
        end
      else if is_low_surrogate u then replacement :: code_points rest
      else u :: code_points rest
  end.

Definition utf8_bytes (c : N) : list N :=
  if c <? 0x80 then [c]
  else if c <? 0x800 then [0xC0 + c / 64; 0x80 + c mod 64]
  else if c <? 0x10000 then
    [0xE0 + c / 4096; 0x80 + (c / 64) mod 64; 0x80 + c mod 64]
  else
    [0xF0 + c / 262144; 0x80 + (c / 4096) mod 64; 0x80 + (c / 64) mod 64;
     0x80 + c mod 64].

Definition byte_of_N (n : N) : byte :=
  match Byte.of_N n with
  | Some b => b
  | None => x00
  end.

(** [new TextEncoder().encode(s)] *)
Definition encode (s : jsstring) : list byte :=
  map byte_of_N (flat_map utf8_bytes (code_points s)).

(** The decoder of [new TextDecoder()]: UTF-8, not fatal, a leading byte
    order mark is dropped. The masks [b & 0x1F], [b & 0xF], [b & 7] and
    [b & 0x3F] are written as remainders. *)
Record DecoderState := {
  code_point : N;
  bytes_seen : N;
  bytes_needed : N;
  lower_boundary : N;
  upper_boundary : N
}.

Definition fresh : DecoderState :=
  {| code_point := 0; bytes_seen := 0; bytes_needed := 0;
     lower_boundary := 0x80; upper_boundary := 0xBF |}.

Definition lead (b : N) : list N * DecoderState :=
  if b <=? 0x7F then ([b], fresh)
  else if (0xC2 <=? b) && (b <=? 0xDF) then
    ([], {| code_point := b mod 32; bytes_seen := 0; bytes_needed := 1;
            lower_boundary := 0x80; upper_boundary := 0xBF |})
  else if (0xE0 <=? b) && (b <=? 0xEF) then
    ([], {| code_point := b mod 16; bytes_seen := 0; bytes_needed := 2;
            lower_boundary := if b =? 0xE0 then 0xA0 else 0x80;
            upper_boundary := if b =? 0xED then 0x9F else 0xBF |})
  else if (0xF0 <=? b) && (b <=? 0xF4) then
    ([], {| code_point := b mod 8; bytes_seen := 0; bytes_needed := 3;
            lower_boundary := if b =? 0xF0 then 0x90 else 0x80;
            upper_boundary := if b =? 0xF4 then 0x8F else 0xBF |})
  else ([replacement], fresh).

Definition step (st : DecoderState) (b : N) : list N * DecoderState :=
  if bytes_needed st =? 0 then lead b
  else if (b <? lower_boundary st) || (upper_boundary st <? b) then
    let (out, st') := lead b in (replacement :: out, st')
  else
    let c := code_point st * 64 + b mod 64 in
    if bytes_seen st + 1 =? bytes_needed st then ([c], fresh)
    else ([], {| code_point := c; bytes_seen := bytes_seen st + 1;
                 bytes_needed := bytes_needed st;
                 lower_boundary := 0x80; upper_boundary := 0xBF |}).

Fixpoint run (st : DecoderState) (bytes : list N) : list N :=
  match bytes with
  | [] => if bytes_needed st =? 0 then [] else [replacement]
  | b :: rest => let (out, st') := step st b in out ++ run st' rest
  end.

Definition strip_bom (bytes : list N) : list N :=
  match bytes with
  | b0 :: b1 :: b2 :: rest =>
      if (b0 =? 0xEF) && (b1 =? 0xBB) && (b2 =? 0xBF) then rest else bytes
  | _ => bytes
  end.

Definition utf16_units (c : N) : list N :=
  if c <? 0x10000 then [c]
  else [0xD800 + (c - 0x10000) / 0x400; 0xDC00 + (c - 0x10000) mod 0x400].

(** [new TextDecoder().decode(buffer)] *)
Definition decode (buffer : list byte) : jsstring :=
  flat_map utf16_units (run fresh (strip_bom (map Byte.to_N buffer))).

(** Strings that survive: every code unit is a code unit, surrogates come
    in pairs, and the first one is not the byte order mark. *)
Fixpoint well_formed (s : jsstring) : bool :=
  match s with
  | [] => true
  | u :: rest =>
      if is_high_surrogate u then
        match rest with
        | v :: rest' => is_low_surrogate v && well_formed rest'
        | [] => false
        end
      else negb (is_low_surrogate u) && (u <? 0x10000) && well_formed rest
  end.

Definition no_bom (s : jsstring) : bool :=
  match s with
  | u :: _ => negb (u =? 0xFEFF)
  | [] => true
  end.

(** The code points [TextEncoder] encodes: all but the surrogates. *)
Definition scalar (c : N) : Prop := c < 0xD800 \/ (0xE000 <= c /\ c < 0x110000).

End UTF8.

(** ** Values, errors and the platform *)

#[local] Set Warnings "-register-all".

(** The values [JSON.parse] produces and [JSON.stringify] consumes. A
    number is a binary64 float; the members of an object are in
    enumeration order. *)
Inductive JSON : Type :=
| JNull
| JBool (b : bool)
| JNumber (x : float)
| JString (s : jsstring)
| JArray (items : list JSON)
| JObject (members : list (jsstring * JSON)).

(** An exception: its [name] and its [message]. *)
Inductive JSError : Type :=
| Exception (name : string) (message : jsstring).

Definition error_message (e : JSError) : jsstring :=
  match e with Exception _ m => m end.

Inductive Result (A : Type) : Type :=
| Ok (a : A)
| Throw (e : JSError).
Arguments Ok {A} a.
Arguments Throw {A} e.

(** The browser primitives the repository calls but does not define. *)
Record Platform := {
  (** [crypto.subtle.encrypt({name: 'AES-GCM', iv}, key, data)] *)
  aes_gcm_encrypt : list byte -> list byte -> list byte -> list byte;
  (** [crypto.subtle.decrypt]; [None] is its [OperationError] *)
  aes_gcm_decrypt : list byte -> list byte -> list byte -> option (list byte);
  (** [crypto.subtle.deriveBits({name: 'PBKDF2', salt, iterations, hash:
      'SHA-256'}, keyMaterial, bits)], by password bytes, salt,
      iterations and length *)
  pbkdf2_sha256 : list byte -> list byte -> N -> N -> list byte;
  JSON_stringify : JSON -> jsstring;
  (** [None] is the [SyntaxError] *)
  JSON_parse : jsstring -> option JSON;
  (** [new URL(u).hostname]; [None] is the [TypeError] of an invalid URL *)
  url_hostname : jsstring -> option jsstring;
  (** [new Date(ms).toISOString()] *)
  toISOString : N -> jsstring;
  (** the message text the browser puts in a built-in exception *)
  builtin_message : string -> jsstring
}.

(** An AES key is 128, 192 or 256 bits of raw material. *)
Definition aes_key_length (raw : list byte) : bool :=
  let n := length raw in
  (Nat.eqb n 16 || Nat.eqb n 24 || Nat.eqb n 32)%bool.

(** What the proofs use of the platform. *)
Record PlatformLaws (P : Platform) : Prop := {
  (** decryption under the key and IV of the encryption gives the
      plaintext back *)
  aes_gcm_correct : forall key iv data,
    aes_key_length key = true ->
    aes_gcm_decrypt P key iv (aes_gcm_encrypt P key iv data) = Some data;
  (** with 96-bit IVs the counter blocks of two different IVs differ, and
      so does the output: the tag when the ciphertext bodies agree *)
  aes_gcm_iv_injective : forall key iv1 iv2 data,
    length iv1 = 12%nat -> length iv2 = 12%nat ->
    aes_gcm_encrypt P key iv1 data = aes_gcm_encrypt P key iv2 data ->
    iv1 = iv2;
  (** [JSON.stringify] is well formed: it escapes lone surrogates, and a
      JSON text does not begin with U+FEFF *)
  stringify_well_formed : forall v,
    UTF8.well_formed (JSON_stringify P v) = true /\
    UTF8.no_bom (JSON_stringify P v) = true
}.

(** A value is JSON-serializable when its JSON text denotes it. *)
Definition JSON_serializable (P : Platform) (v : JSON) : Prop :=
  JSON_parse P (JSON_stringify P v) = Some v.

(** ** Persistent storage and the world *)

(** [{ iv, data }], both base64 *)
Record EncryptedData := { iv : string; data : string }.

(** [{ salt, hash }], both base64 *)
Record PasswordRecord := { salt : string; hash : string }.

Record Content := {
  title : jsstring;
  summary : jsstring;
  timestamp : jsstring
}.

(** A session object. [contents] and [contentCount] may be missing
    ([undefined]) on an object the current code did not create;
    [notionPageId] is [None] for [null]. *)
Record Session := {
  id : jsstring;
  name : jsstring;
  createdAt : jsstring;
  notionPageId : option jsstring;
  contents : option (list Content);
  contentCount : option Z
}.

(** [chrome.storage.local]. Every key the code uses holds values of one
    type; [None] is a key that was never written (or holds [null]). The
    names [encrypted_...] are the keys of [encrypted]. *)
Record Storage := {
  setupComplete : option bool;
  isLocked : option bool;
  activeSessionId : option jsstring;
  sessions : option (list Session);
  totalNotes : option Z;
  _masterKey : option string;
  encrypted : gmap string EncryptedData
}.

(** The names of the storage keys, indexed by the type of their values. *)
Inductive Key : Type -> Type :=
| K_setupComplete : Key bool
| K_isLocked : Key bool
| K_activeSessionId : Key jsstring
| K_sessions : Key (list Session)
| K_totalNotes : Key Z
| K_masterKey : Key string
| K_named (name : string) : Key EncryptedData.

Definition lookup_key {T} (k : Key T) (st : Storage) : option T :=
  match k in Key T return option T with
  | K_setupComplete => setupComplete st
  | K_isLocked => isLocked st
  | K_activeSessionId => activeSessionId st
  | K_sessions => sessions st
  | K_totalNotes => totalNotes st
  | K_masterKey => _masterKey st
  | K_named n => encrypted st !! n
  end.

Definition write_key {T} (k : Key T) : T -> Storage -> Storage :=
  match k in Key T return T -> Storage -> Storage with
  | K_setupComplete => fun v st =>
      {| setupComplete := Some v; isLocked := isLocked st;
         activeSessionId := activeSessionId st; sessions := sessions st;
         totalNotes := totalNotes st; _masterKey := _masterKey st;
         encrypted := encrypted st |}
  | K_isLocked => fun v st =>
      {| setupComplete := setupComplete st; isLocked := Some v;
         activeSessionId := activeSessionId st; sessions := sessions st;
         totalNotes := totalNotes st; _masterKey := _masterKey st;
         encrypted := encrypted st |}
  | K_activeSessionId => fun v st =>
      {| setupComplete := setupComplete st; isLocked := isLocked st;
         activeSessionId := Some v; sessions := sessions st;
         totalNotes := totalNotes st; _masterKey := _masterKey st;
         encrypted := encrypted st |}
  | K_sessions => fun v st =>
      {| setupComplete := setupComplete st; isLocked := isLocked st;
         activeSessionId := activeSessionId st; sessions := Some v;
         totalNotes := totalNotes st; _masterKey := _masterKey st;
         encrypted := encrypted st |}
  | K_totalNotes => fun v st =>
      {| setupComplete := setupComplete st; isLocked := isLocked st;
         activeSessionId := activeSessionId st; sessions := sessions st;
         totalNotes := Some v; _masterKey := _masterKey st;
         encrypted := encrypted st |}
  | K_masterKey => fun v st =>
      {| setupComplete := setupComplete st; isLocked := isLocked st;
         activeSessionId := activeSessionId st; sessions := sessions st;
         totalNotes := totalNotes st; _masterKey := Some v;
         encrypted := encrypted st |}
  | K_named n => fun v st =>
      {| setupComplete := setupComplete st; isLocked := isLocked st;
         activeSessionId := activeSessionId st; sessions := sessions st;
         totalNotes := totalNotes st; _masterKey := _masterKey st;
         encrypted := <[n := v]> (encrypted st) |}
  end.

Definition empty_storage : Storage :=
  {| setupComplete := None; isLocked := None; activeSessionId := None;
     sessions := None; totalNotes := None; _masterKey := None;
     encrypted := ∅ |}.

(** The two fields of the [CryptoUtils] object. A promise left in
    [_keyPromise] between two calls has settled: it holds its result. *)
Record CryptoState := {
  _encryptionKey : option (list byte);
  _keyPromise : option (Result (list byte))
}.

(** ** Remote services *)

(** [{ toSection, relationship }] *)
Record Connection := { toSection : jsstring; relationship : jsstring }.

(** The Notion blocks the capture flow builds. *)
Inductive Block : Type :=
| TableOfContents
| Divider
| Heading2 (text : jsstring)
| Paragraph (text : jsstring)
| Toggle (summary : jsstring) (items : list jsstring)
| SourceLink (hostname url : jsstring).

Inductive Request : Type :=
| GroqChat (apiKey : JSON) (systemPrompt userPrompt : jsstring)
| NotionGetDatabase (credentials : JSON)
| NotionCreatePage (credentials : JSON) (titleProperty title : jsstring)
                   (children : list Block)
| NotionAppendChildren (credentials : JSON) (pageId : jsstring)
                       (children : list Block).

(** What a [fetch] and the reading of its body come to: the request is
    rejected, the status is not 2xx (with the message of the error body,
    when it has one, and the status text), the body cannot be used (not
    JSON, or not of the shape the code reads), or it yields the fields
    the code reads. *)
Inductive Reply (A : Type) : Type :=
| Unreachable (e : JSError)
| Status (message : option jsstring) (statusText : jsstring)
| Unusable (e : JSError)
| Body (a : A).
Arguments Unreachable {A} e.
Arguments Status {A} message statusText.
Arguments Unusable {A} e.
Arguments Body {A} a.

(** The fields read from the parsed content of a chat completion. *)
Record Structured := {
  sectionTitle : option jsstring;
  connections : option (list Connection)
}.

(** The services, as functions of the requests made so far (the last one
    is the request being answered). *)
Record Remote := {
  groq_reply : list Request -> Reply Structured;
  notion_schema_reply : list Request -> Reply (list (jsstring * jsstring));
  notion_create_reply : list Request -> Reply jsstring;
  notion_append_reply : list Request -> Reply unit
}.

(** [{ type: 'SHOW_NOTIFICATION', message, notificationType }] *)
Record Notification := { message : jsstring; notificationType : string }.

(** Messages to the popup. *)
Inductive RuntimeMessage : Type :=
| MAPPING_COMPLETE
| MAPPING_ERROR (error : jsstring).

(** ** The world *)

Record World := {
  storage : Storage;
  crypto : CryptoState;
  (** the bytes the random source will deliver, and how many were taken *)
  entropy : nat -> byte;
  drawn : nat;
  (** the successive readings of the clock, in milliseconds *)
  clock : nat -> N;
  ticks : nat;
  remote : Remote;
  (** the requests sent, oldest first *)
  netlog : list Request;
  (** what was sent to the tab and to the popup, oldest first *)
  notifications : list Notification;
  runtime_messages : list RuntimeMessage
}.

Definition with_storage (f : Storage -> Storage) (w : World) : World :=
  {| storage := f (storage w); crypto := crypto w; entropy := entropy w;
     drawn := drawn w; clock := clock w; ticks := ticks w; remote := remote w;
     netlog := netlog w; notifications := notifications w;
     runtime_messages := runtime_messages w |}.

Definition with_crypto (f : CryptoState -> CryptoState) (w : World) : World :=
  {| storage := storage w; crypto := f (crypto w); entropy := entropy w;
     drawn := drawn w; clock := clock w; ticks := ticks w; remote := remote w;
     netlog := netlog w; notifications := notifications w;
     runtime_messages := runtime_messages w |}.

Definition with_drawn (n : nat) (w : World) : World :=
  {| storage := storage w; crypto := crypto w; entropy := entropy w;
     drawn := n; clock := clock w; ticks := ticks w; remote := remote w;
     netlog := netlog w; notifications := notifications w;
     runtime_messages := runtime_messages w |}.

Definition with_ticks (n : nat) (w : World) : World :=
  {| storage := storage w; crypto := crypto w; entropy := entropy w;
     drawn := drawn w; clock := clock w; ticks := n; remote := remote w;
     netlog := netlog w; notifications := notifications w;
     runtime_messages := runtime_messages w |}.

Definition with_netlog (l : list Request) (w : World) : World :=
  {| storage := storage w; crypto := crypto w; entropy := entropy w;
     drawn := drawn w; clock := clock w; ticks := ticks w; remote := remote w;
     netlog := l; notifications := notifications w;
     runtime_messages := runtime_messages w |}.

Definition with_notifications (l : list Notification) (w : World) : World :=
  {| storage := storage w; crypto := crypto w; entropy := entropy w;
     drawn := drawn w; clock := clock w; ticks := ticks w; remote := remote w;
     netlog := netlog w; notifications := l;
     runtime_messages := runtime_messages w |}.

Definition with_runtime_messages (l : list RuntimeMessage) (w : World) : World :=
  {| storage := storage w; crypto := crypto w; entropy := entropy w;
     drawn := drawn w; clock := clock w; ticks := ticks w; remote := remote w;
     netlog := netlog w; notifications := notifications w;
     runtime_messages := l |}.

(** ** Asynchronous functions, run to completion *)

Definition M (A : Type) : Type := World -> Result A * World.

Definition ret {A} (a : A) : M A := fun w => (Ok a, w).

Definition throw {A} (e : JSError) : M A := fun w => (Throw e, w).

Definition bind {A B} (m : M A) (k : A -> M B) : M B :=
  fun w => match m w with
           | (Ok a, w') => k a w'
           | (Throw e, w') => (Throw e, w')
           end.

(** [try { m } catch (error) { h error }] *)
Definition try_catch {A} (m : M A) (h : JSError -> M A) : M A :=
  fun w => match m w with
           | (Ok a, w') => (Ok a, w')
           | (Throw e, w') => h e w'
           end.

Notation "'let*' x ':=' m 'in' k" := (bind m (fun x => k))
  (at level 10, x name, m at level 100, k at level 200).
Notation "m ';;' k" := (bind m (fun _ => k))
  (at level 100, k at level 200, right associativity).

Definition modify (f : World -> World) : M unit := fun w => (Ok tt, f w).

(** [crypto.getRandomValues(new Uint8Array(n))] *)
Definition getRandomValues (n : nat) : M (list byte) :=
  fun w => (Ok (map (entropy w) (seq (drawn w) n)), with_drawn (drawn w + n) w).

(** [Date.now()] *)
Definition Date_now : M N :=
  fun w => (Ok (clock w (ticks w)), with_ticks (S (ticks w)) w).

(** ** [CryptoUtils] ([src/utils/crypto.js]) *)

Section CryptoUtils.
Context (P : Platform).

Definition builtin (name : string) : JSError :=
  Exception name (builtin_message P name).

(** [base64ToArrayBuffer] where its exception propagates. *)
Definition base64ToArrayBuffer_or_throw (base64 : string) : M (list byte) :=
  match base64ToArrayBuffer base64 with
  | Some buffer => ret buffer
  | None => throw (builtin "InvalidCharacterError")
  end.

(** [generateSalt()] *)
Definition generateSalt : M (list byte) := getRandomValues 16.

(** [hashPassword(password)]. The key material [importKey] returns for
    ['PBKDF2'] is the raw bytes it was given. *)
Definition hashPassword (password : jsstring) : M PasswordRecord :=
  let data := UTF8.encode password in
  let* salt := generateSalt in
  let keyMaterial := data in
  let derivedBits := pbkdf2_sha256 P keyMaterial salt 100000 256 in
  ret {| salt := arrayBufferToBase64 salt;
         hash := arrayBufferToBase64 derivedBits |}.

(** [verifyPassword(password, storedHash)] *)
Definition verifyPassword (password : jsstring) (storedHash : PasswordRecord)
  : M bool :=
  let data := UTF8.encode password in
  let* salt := base64ToArrayBuffer_or_throw (salt storedHash) in
  let keyMaterial := data in
  let derivedBits := pbkdf2_sha256 P keyMaterial salt 100000 256 in
  let computedHash := arrayBufferToBase64 derivedBits in
  ret (String.eqb computedHash (hash storedHash)).

Definition set_encryptionKey (k : option (list byte)) : M unit :=
  modify (with_crypto (fun c =>
    {| _encryptionKey := k; _keyPromise := _keyPromise c |})).

Definition set_keyPromise (p : option (Result (list byte))) : M unit :=
  modify (with_crypto (fun c =>
    {| _encryptionKey := _encryptionKey c; _keyPromise := p |})).

(** [crypto.subtle.importKey('raw', keyData, { name: 'AES-GCM', length:
    256 }, true, ['encrypt', 'decrypt'])]: a key is its raw material;
    material of another length is a [DataError]. *)
Definition importKey_AES_GCM (keyData : list byte) : M (list byte) :=
  if aes_key_length keyData then ret keyData else throw (builtin "DataError").

(** [crypto.subtle.generateKey({ name: 'AES-GCM', length: 256 }, true,
    ['encrypt', 'decrypt'])]: 256 fresh bits. *)
Definition generateKey_AES_GCM : M (list byte) := getRandomValues 32.

(** The body of the [async () => { ... }] that [getOrCreateMasterKey]
    starts: load the stored key or generate, export and store one. An
    empty string in storage is falsy. *)
Definition loadOrGenerateKey : M (list byte) :=
  let* stored := (fun w => (Ok (lookup_key K_masterKey (storage w)), w)) in
  match stored with
  | Some ((String c rest) as stored) =>
      let* keyData := base64ToArrayBuffer_or_throw stored in
      let* key := importKey_AES_GCM keyData in
      set_encryptionKey (Some key);;
      ret key
  | _ =>
      let* key := generateKey_AES_GCM in
      set_encryptionKey (Some key);;
      let exported := key in
      let keyBase64 := arrayBufferToBase64 exported in
      modify (with_storage (write_key K_masterKey keyBase64));;
      ret key
  end.

(** [getOrCreateMasterKey()], when no other call is in flight. A promise
    found in [_keyPromise] has settled; the only way one is left there is
    a rejection, after which [this._keyPromise = null] was not reached. *)
Definition getOrCreateMasterKey : M (list byte) :=
  fun w =>
    match _encryptionKey (crypto w) with
    | Some key => (Ok key, w)
    | None =>
        match _keyPromise (crypto w) with
        | Some settled => (settled, w)
        | None =>
            match loadOrGenerateKey w with
            | (Ok key, w') => (Ok key, snd (set_keyPromise None w'))
            | (Throw e, w') =>
                (Throw e, snd (set_keyPromise (Some (Throw e)) w'))
            end
        end
    end.

(** [deriveKey(password)] *)
Definition deriveKey (password : jsstring) : M (option (list byte)) :=
  getOrCreateMasterKey;;
  fun w => (Ok (_encryptionKey (crypto w)), w).

(** [encrypt(data)] *)
Definition encrypt (value : JSON) : M EncryptedData :=
  let* key := getOrCreateMasterKey in
  let dataString := JSON_stringify P value in
  let dataBuffer := UTF8.encode dataString in
  let* iv := getRandomValues 12 in
  let encryptedBuffer := aes_gcm_encrypt P key iv dataBuffer in
  ret {| iv := arrayBufferToBase64 iv;
         data := arrayBufferToBase64 encryptedBuffer |}.

(** [decrypt(encryptedData)] *)
Definition decrypt (encryptedData : EncryptedData) : M JSON :=
  let* key := getOrCreateMasterKey in
  let* iv := base64ToArrayBuffer_or_throw (iv encryptedData) in
  let* data := base64ToArrayBuffer_or_throw (data encryptedData) in
  match aes_gcm_decrypt P key iv data with
  | None => throw (builtin "OperationError")
  | Some decryptedBuffer =>
      let decryptedString := UTF8.decode decryptedBuffer in
      match JSON_parse P decryptedString with
      | Some value => ret value
      | None => throw (builtin "SyntaxError")
      end
  end.

(** [clearKey()] *)
Definition clearKey : M unit := set_encryptionKey None.

(** [hasKey()] *)
Definition hasKey : M bool :=
  fun w => (Ok (match _encryptionKey (crypto w) with Some _ => true | None => false end), w).

End CryptoUtils.

(** ** A small platform and a fresh installation

    A platform simple enough to compute with, used to run the definitions
    on concrete inputs: the cipher appends the IV and the key to the
    plaintext, the key derivation concatenates password and salt, and
    [JSON] knows [null], [true] and [false]. *)

Module Toy.

Fixpoint bytes_eqb (a b : list byte) : bool :=
  match a, b with
  | [], [] => true
  | x :: a', y :: b' => Byte.eqb x y && bytes_eqb a' b'
  | _, _ => false
  end.

Definition seal (key iv data : list byte) : list byte := data ++ iv ++ key.

Definition open (key iv sealed : list byte) : option (list byte) :=
  let n := (length sealed - (length iv + length key))%nat in
  if bytes_eqb (skipn n sealed) (iv ++ key) then Some (firstn n sealed) else None.

Definition stringify (v : JSON) : jsstring :=
  match v with
  | JBool true => js "true"
  | JBool false => js "false"
  | _ => js "null"
  end.

Definition parse (s : jsstring) : option JSON :=
  if jseqb s (js "null") then Some JNull
  else if jseqb s (js "true") then Some (JBool true)
  else if jseqb s (js "false") then Some (JBool false)
  else None.

Definition platform : Platform :=
  {| aes_gcm_encrypt := seal;
     aes_gcm_decrypt := open;
     pbkdf2_sha256 := fun password salt _ _ => password ++ salt;
     JSON_stringify := stringify;
     JSON_parse := parse;
     url_hostname := fun u => Some u;
     toISOString := fun ms => js (NilZero.string_of_uint (N.to_uint ms));
     builtin_message := js |}.

Definition silent : Remote :=
  {| groq_reply := fun _ => Unreachable (Exception "TypeError" (js "Failed to fetch"));
     notion_schema_reply := fun _ => Unreachable (Exception "TypeError" (js "Failed to fetch"));
     notion_create_reply := fun _ => Unreachable (Exception "TypeError" (js "Failed to fetch"));
     notion_append_reply := fun _ => Unreachable (Exception "TypeError" (js "Failed to fetch")) |}.

(** The world right after installation: nothing stored, no key, a random
    source that counts and a clock that ticks. *)
Definition installed (r : Remote) : World :=
  {| storage := empty_storage;
     crypto := {| _encryptionKey := None; _keyPromise := None |};
     entropy := fun n => UTF8.byte_of_N (N.of_nat n mod 256);
     drawn := 0;
     clock := fun n => N.of_nat n + 1700000000000;
     ticks := 0;
     remote := r;
     netlog := [];
     notifications := [];
     runtime_messages := [] |}.

End Toy.

(** ** [StorageManager] and [SessionManager] ([src/utils/storage.js]) *)

Section Storage.
Context (P : Platform).

(** [StorageManager.get(key)] *)
Definition StorageManager_get {T} (key : Key T) : M (option T) :=
  fun w => (Ok (lookup_key key (storage w)), w).

(** [StorageManager.set(key, value)] *)
Definition StorageManager_set {T} (key : Key T) (value : T) : M unit :=
  modify (with_storage (write_key key value)).

(** [`encrypted_${key}`] *)
Definition encrypted_name (key : string) : string :=
  ("encrypted_" ++ key)%string.

(** [StorageManager.getEncrypted(key)]. The value returned is the
    decrypted one, or [null]: when nothing is stored, and from the
    [catch] when [decrypt] throws. *)
Definition getEncrypted (key : string) : M JSON :=
  let* encryptedData := StorageManager_get (K_named (encrypted_name key)) in
  match encryptedData with
  | None => ret JNull
  | Some encryptedData =>
      try_catch (decrypt P encryptedData) (fun error => ret JNull)
  end.

(** [StorageManager.setEncrypted(key, value)] *)
Definition setEncrypted (key : string) (value : JSON) : M unit :=
  try_catch
    (let* encryptedData := encrypt P value in
     StorageManager_set (K_named (encrypted_name key)) encryptedData)
    (fun error => throw error).

(** [StorageManager.clearAll()] *)
Definition clearAll : M unit := modify (with_storage (fun _ => empty_storage)).

(** [n.toString(36)] *)
Definition digit36 (d : N) : N :=
  if d <? 10 then 48 + d else 87 + d.

Fixpoint toString36_from (fuel : nat) (n : N) (acc : jsstring) : jsstring :=
  match fuel with
  | O => acc
  | S fuel' =>
      let acc' := digit36 (n mod 36) :: acc in
      if n / 36 =? 0 then acc' else toString36_from fuel' (n / 36) acc'
  end.

Definition toString36 (n : N) : jsstring :=
  toString36_from (S (N.size_nat n)) n [].

(** [CryptoUtils.generateId()] *)
Definition generateId : M jsstring :=
  let* now := Date_now in
  let timestamp := toString36 now in
  let* randomPart := getRandomValues 8 in
  let randomStr :=
    firstn 8 (flat_map (fun b => toString36 (Byte.to_N b)) randomPart) in
  ret (timestamp ++ js "-" ++ randomStr).

(** [new Date().toISOString()] *)
Definition Date_toISOString : M jsstring :=
  let* now := Date_now in ret (toISOString P now).

(** [SessionManager.getSessions()] *)
Definition getSessions : M (list Session) :=
  let* stored := StorageManager_get K_sessions in
  ret (match stored with Some l => l | None => [] end).

(** [s => s.id === sessionId], for a [sessionId] that may be missing *)
Definition has_id (sessionId : option jsstring) (s : Session) : bool :=
  match sessionId with
  | Some i => jseqb (id s) i
  | None => false
  end.

(** [SessionManager.getActiveSession()] *)
Definition getActiveSession : M (option Session) :=
  let* sessions := getSessions in
  let* activeId := StorageManager_get K_activeSessionId in
  ret (List.find (has_id activeId) sessions).

(** [SessionManager.setActiveSession(sessionId)] *)
Definition setActiveSession (sessionId : jsstring) : M unit :=
  StorageManager_set K_activeSessionId sessionId.

(** [SessionManager.createSession(name)] *)
Definition createSession (name : jsstring) : M Session :=
  let* sessions := getSessions in
  let* newId := generateId in
  let* created := Date_toISOString in
  let newSession :=
    {| id := newId; name := name; createdAt := created;
       notionPageId := None; contents := Some []; contentCount := Some 0%Z |} in
  StorageManager_set K_sessions (newSession :: sessions);;
  setActiveSession (id newSession);;
  ret newSession.

(** The array after the object [find] returned was changed in place: the
    first element with the id is the changed one. *)
Fixpoint replace_first (p : Session -> bool) (s' : Session) (l : list Session)
  : list Session :=
  match l with
  | [] => []
  | s :: rest => if p s then s' :: rest else s :: replace_first p s' rest
  end.

(** [a.slice(-n)] *)
Definition slice_last {A} (n : nat) (a : list A) : list A :=
  skipn (length a - n) a.

(** [SessionManager.addContentToSession(sessionId, title, summary)] *)
Definition addContentToSession (sessionId title summary : jsstring)
  : M (option Session) :=
  let* sessions := getSessions in
  match List.find (has_id (Some sessionId)) sessions with
  | Some session =>
      let contents0 :=
        match contents session with Some c => c | None => [] end in
      let* stamp := Date_toISOString in
      let pushed :=
        contents0 ++ [{| title := title;
                         summary := substring0 300 summary;
                         timestamp := stamp |}] in
      let count :=
        (match contentCount session with Some n => n | None => 0 end + 1)%Z in
      let kept :=
        if (30 <? length pushed)%nat then slice_last 30 pushed else pushed in
      let session' :=
        {| id := id session; name := name session;
           createdAt := createdAt session;
           notionPageId := notionPageId session;
           contents := Some kept; contentCount := Some count |} in
      StorageManager_set K_sessions
        (replace_first (has_id (Some sessionId)) session' sessions);;
      let* totalNotes := StorageManager_get K_totalNotes in
      StorageManager_set K_totalNotes
        (match totalNotes with Some n => n | None => 0 end + 1)%Z;;
      ret (Some session')
  | None => ret None
  end.

(** The [updates] object of [updateSession]: the fields it carries. *)
Record SessionUpdates := {
  set_name : option jsstring;
  set_notionPageId : option (option jsstring)
}.

(** [{ ...session, ...updates }] *)
Definition merge (session : Session) (updates : SessionUpdates) : Session :=
  {| id := id session;
     name := match set_name updates with Some n => n | None => name session end;
     createdAt := createdAt session;
     notionPageId := match set_notionPageId updates with
                     | Some p => p
                     | None => notionPageId session
                     end;
     contents := contents session;
     contentCount := contentCount session |}.

(** [SessionManager.updateSession(sessionId, updates)] *)
Definition updateSession (sessionId : jsstring) (updates : SessionUpdates)
  : M (option Session) :=
  let* sessions := getSessions in
  match List.find (has_id (Some sessionId)) sessions with
  | Some session =>
      let merged := merge session updates in
      StorageManager_set K_sessions
        (replace_first (has_id (Some sessionId)) merged sessions);;
      ret (Some merged)
  | None => ret None
  end.

(** What [getSessionContext] returns. *)
Record SessionContext := {
  sessionName : jsstring;
  context_notionPageId : option jsstring;
  context_contents : list Content;
  context_contentCount : Z
}.

(** [SessionManager.getSessionContext(sessionId)] *)
Definition getSessionContext (sessionId : jsstring) : M SessionContext :=
  let* sessions := getSessions in
  match List.find (has_id (Some sessionId)) sessions with
  | Some session =>
      ret {| sessionName := name session;
             context_notionPageId :=
               match notionPageId session with
               | Some p => if nonempty p then Some p else None
               | None => None
               end;
             context_contents :=
               match contents session with Some c => c | None => [] end;
             context_contentCount :=
               match contentCount session with Some n => n | None => 0%Z end |}
  | None =>
      ret {| sessionName := js "Default"; context_notionPageId := None;
             context_contents := []; context_contentCount := 0%Z |}
  end.

End Storage.

(** ** The capture flow ([src/background.js]) *)

(** Truthiness of a value. *)
Definition truthy (v : JSON) : bool :=
  match v with
  | JNull => false
  | JBool b => b
  | JNumber x => negb (PrimFloat.eqb x 0%float) && PrimFloat.eqb x x
  | JString s => nonempty s
  | JArray _ => true
  | JObject _ => true
  end.

(** The characters [\s] matches and [trim] removes. *)
Definition is_js_whitespace (c : N) : bool :=
  ((9 <=? c) && (c <=? 13)) || (c =? 0x20) || (c =? 0xA0) || (c =? 0x1680)
  || ((0x2000 <=? c) && (c <=? 0x200A)) || (c =? 0x2028) || (c =? 0x2029)
  || (c =? 0x202F) || (c =? 0x205F) || (c =? 0x3000) || (c =? 0xFEFF).

(** [s.split(/\s+/)]: the pieces between the runs of whitespace; a run
    at either end leaves an empty piece there. [in_run] says that the
    character before was whitespace, [piece] is the piece being read. *)
Fixpoint split_whitespace_from (in_run : bool) (piece s : jsstring)
  : list jsstring :=
  match s with
  | [] => [piece]
  | c :: rest =>
      if is_js_whitespace c then
        if in_run then split_whitespace_from true [] rest
        else piece :: split_whitespace_from true [] rest
      else split_whitespace_from false (piece ++ [c]) rest
  end.

Definition split_whitespace (s : jsstring) : list jsstring :=
  split_whitespace_from false [] s.

(** [pieces.join(sep)] *)
Fixpoint join (sep : jsstring) (pieces : list jsstring) : jsstring :=
  match pieces with
  | [] => []
  | [p] => p
  | p :: rest => p ++ sep ++ join sep rest
  end.

(** [s.split(/\n\n+/)]: the pieces between the runs of two or more line
    feeds. [in_run] says that a run is being skipped. *)
Fixpoint split_blank_lines_from (in_run : bool) (piece s : jsstring)
  : list jsstring :=
  match s with
  | [] => [piece]
  | c :: rest =>
      if c =? 10 then
        if in_run then split_blank_lines_from true piece rest
        else
          match rest with
          | d :: _ =>
              if d =? 10 then piece :: split_blank_lines_from true [] rest
              else split_blank_lines_from false (piece ++ [c]) rest
          | [] => [piece ++ [c]]
          end
      else split_blank_lines_from false (piece ++ [c]) rest
  end.

Definition split_blank_lines (s : jsstring) : list jsstring :=
  split_blank_lines_from false [] s.

Fixpoint trimStart (s : jsstring) : jsstring :=
  match s with
  | c :: rest => if is_js_whitespace c then trimStart rest else s
  | [] => []
  end.

(** [s.trim()] *)
Definition trim (s : jsstring) : jsstring :=
  rev (trimStart (rev (trimStart s))).

(** A number in decimal, as a template literal prints it. *)
Definition decimal (n : nat) : jsstring :=
  js (NilZero.string_of_uint (Nat.to_uint n)).

Definition dq : jsstring := [34].
Definition nl : jsstring := [10].

(** The heading and paragraph blocks both page builders start from:
    [content.split(/\n\n+/).filter(p => p.trim())], each paragraph
    trimmed and cut at 2000. *)
Definition paragraph_blocks (content : jsstring) : list Block :=
  map (fun para => Paragraph (substring0 2000 (trim para)))
      (List.filter (fun p => nonempty (trim p)) (split_blank_lines content)).

(** The fallback title of [processWithGroq]:
    [selectedText.split(/\s+/).slice(0, 5).join(' ') + '...'] *)
Definition fallbackTitle (selectedText : jsstring) : jsstring :=
  join (js " ") (firstn 5 (split_whitespace selectedText)) ++ js "...".

(** What [processWithGroq] returns. *)
Record StructuredData := {
  data_sectionTitle : jsstring;
  data_connections : list Connection
}.

Definition systemPrompt : jsstring :=
  js "You are a knowledge organizing assistant. Your job is to:" ++ nl ++
  js "1. Create a clear, concise section title (3-6 words) for the new content" ++ nl ++
  js "2. Find meaningful CONNECTIONS between this new content and existing content" ++ nl ++
  nl ++
  js "STRICT RULES:" ++ nl ++
  js "- DO NOT use emojis in titles" ++ nl ++
  js "- DO NOT rewrite or modify the original text" ++ nl ++
  js "- Keep titles professional and descriptive" ++ nl ++
  js "- Only identify genuine connections, not forced ones" ++ nl ++
  nl ++
  js "OUTPUT FORMAT (JSON only):" ++ nl ++
  js "{" ++ nl ++
  js "  " ++ dq ++ js "sectionTitle" ++ dq ++ js ": " ++ dq ++
    js "Clear descriptive title" ++ dq ++ js "," ++ nl ++
  js "  " ++ dq ++ js "connections" ++ dq ++ js ": [" ++ nl ++
  js "    {" ++ nl ++
  js "      " ++ dq ++ js "toSection" ++ dq ++ js ": " ++ dq ++
    js "Title of connected section" ++ dq ++ js "," ++ nl ++
  js "      " ++ dq ++ js "relationship" ++ dq ++ js ": " ++ dq ++
    js "Brief explanation (10 words max)" ++ dq ++ nl ++
  js "    }" ++ nl ++
  js "  ]" ++ nl ++
  js "}" ++ nl ++
  nl ++
  js "If no meaningful connections exist, return empty connections array.".

(** The toggle block listing the connections. *)
Definition connections_blocks (connections : list Connection) : list Block :=
  match connections with
  | [] => []
  | _ =>
      let connectionItems :=
        map (fun c => toSection c ++ js " " ++ [0x2014] ++ js " " ++ relationship c)
            connections in
      [Toggle (js "Related: " ++ decimal (length connectionItems)
               ++ js " connection"
               ++ (if (1 <? length connectionItems)%nat then js "s" else []))
              connectionItems]
  end.

(** The [children] of [createNotionPage]. *)
Definition page_children (sectionTitle content : jsstring) (source : list Block)
  : list Block :=
  [TableOfContents; Divider; Heading2 sectionTitle]
  ++ paragraph_blocks content ++ source ++ [Divider].

(** The [children] of [appendToNotionPage]. *)
Definition section_children (sectionTitle content : jsstring)
    (connections : list Connection) (source : list Block) : list Block :=
  [Heading2 sectionTitle] ++ paragraph_blocks content
  ++ connections_blocks connections ++ source ++ [Divider].

Section Background.
Context (P : Platform).

(** [sendNotification(tabId, message, type)] *)
Definition sendNotification (tabId : N) (message : jsstring) (type : string)
  : M unit :=
  modify (fun w =>
    with_notifications
      (notifications w ++ [{| message := message; notificationType := type |}]) w).

(** [chrome.runtime.sendMessage(m).catch(() => {})] *)
Definition sendMessage (m : RuntimeMessage) : M unit :=
  modify (fun w => with_runtime_messages (runtime_messages w ++ [m]) w).

(** A [fetch]: the request goes on the wire and the service answers. *)
Definition fetch {A} (request : Request)
    (service : Remote -> list Request -> Reply A) : M (Reply A) :=
  fun w =>
    let log := netlog w ++ [request] in
    (Ok (service (remote w) log), with_netlog log w).

(** [message || statusText] *)
Definition message_or (message : option jsstring) (statusText : jsstring)
  : jsstring :=
  match message with
  | Some ((_ :: _) as m) => m
  | _ => statusText
  end.

(** [previousContentContext] *)
Definition previousContentContext (contents : list Content) : jsstring :=
  match contents with
  | [] => js "This is the first content in this session."
  | _ =>
      join (nl ++ nl)
        (map (fun ic =>
                js "[" ++ decimal (fst ic + 1) ++ js "] " ++ dq ++
                title (snd ic) ++ dq ++ js ": " ++ summary (snd ic))
             (combine (seq 0 (length contents)) contents))
  end.

Definition userPrompt (selectedText : jsstring) (sessionContext : SessionContext)
  : jsstring :=
  js "SESSION: " ++ dq ++ sessionName sessionContext ++ dq ++ nl ++
  nl ++
  js "=== EXISTING CONTENT IN THIS SESSION ===" ++ nl ++
  previousContentContext (context_contents sessionContext) ++ nl ++
  nl ++
  js "=== NEW CONTENT TO MAP ===" ++ nl ++
  dq ++ dq ++ dq ++ nl ++
  substring0 1500 selectedText ++ nl ++
  dq ++ dq ++ dq ++ nl ++
  nl ++
  js "Create a section title and find connections to existing content.".

(** [processWithGroq(apiKey, selectedText, sessionContext)]. Whatever is
    thrown inside the [try] (a rejected [fetch], the [Error] made for a
    status that is not ok, a body or a content that cannot be read) ends
    in the [catch], which returns the fallback. *)
Definition processWithGroq (apiKey : JSON) (selectedText : jsstring)
    (sessionContext : SessionContext) : M StructuredData :=
  try_catch
    (let* response :=
       fetch (GroqChat apiKey systemPrompt (userPrompt selectedText sessionContext))
             groq_reply in
     match response with
     | Unreachable e => throw e
     | Status message statusText =>
         throw (Exception "Error"
                  (js "Groq API error: " ++ message_or message statusText))
     | Unusable e => throw e
     | Body parsed =>
         ret {| data_sectionTitle :=
                  match sectionTitle parsed with
                  | Some ((_ :: _) as t) => t
                  | _ => js "New Section"
                  end;
                data_connections :=
                  match connections parsed with
                  | Some c => c
                  | None => []
                  end |}
     end)
    (fun e =>
       ret {| data_sectionTitle := fallbackTitle selectedText;
              data_connections := [] |}).

(** The source line both page builders add when [data.sourceUrl] is
    truthy; [None] when [new URL] throws, on a string that is not a URL. *)
Definition source_line (sourceUrl : option jsstring) : option (list Block) :=
  match sourceUrl with
  | Some ((_ :: _) as url) =>
      match url_hostname P url with
      | Some host => Some [SourceLink host url]
      | None => None
      end
  | _ => Some []
  end.

Definition source_blocks (sourceUrl : option jsstring) : M (list Block) :=
  match source_line sourceUrl with
  | Some blocks => ret blocks
  | None => throw (builtin P "TypeError")
  end.

(** The name of the first property of type ['title'], or ['Name']. *)
Definition titlePropertyName (properties : list (jsstring * jsstring)) : jsstring :=
  match List.find (fun p => jseqb (snd p) (js "title")) properties with
  | Some p => fst p
  | None => js "Name"
  end.

(** [createNotionPage(credentials, data)]; returns [response.id]. *)
Definition createNotionPage (credentials : JSON)
    (sessionName content : jsstring) (sourceUrl : option jsstring)
    (sectionTitle : jsstring) : M jsstring :=
  let* schemaResponse := fetch (NotionGetDatabase credentials) notion_schema_reply in
  match schemaResponse with
  | Unreachable e => throw e
  | Status message statusText =>
      throw (Exception "Error"
               (js "Notion API error: " ++ message_or message statusText))
  | Unusable e => throw e
  | Body properties =>
      let titleProperty := titlePropertyName properties in
      let* source := source_blocks sourceUrl in
      let children := page_children sectionTitle content source in
      let* response :=
        fetch (NotionCreatePage credentials titleProperty sessionName children)
              notion_create_reply in
      match response with
      | Unreachable e => throw e
      | Status message statusText =>
          throw (Exception "Error"
                   (js "Notion API error: " ++ message_or message statusText))
      | Unusable e => throw e
      | Body pageId => ret pageId
      end
  end.

(** [appendToNotionPage(credentials, pageId, data)] *)
Definition appendToNotionPage (credentials : JSON) (pageId content : jsstring)
    (sourceUrl : option jsstring) (connections : list Connection)
    (sectionTitle : jsstring) : M unit :=
  let* source := source_blocks sourceUrl in
  let children := section_children sectionTitle content connections source in
  let* response :=
    fetch (NotionAppendChildren credentials pageId children) notion_append_reply in
  match response with
  | Unreachable e => throw e
  | Status message statusText =>
      throw (Exception "Error"
               (js "Notion API error: " ++ message_or message statusText))
  | Unusable e => throw e
  | Body _ => ret tt
  end.

(** The part of [handleMapping] after the five checks. *)
Definition structure_and_store (selectedText : jsstring)
    (sourceUrl : option jsstring) (tabId : N) (activeSessionId : jsstring)
    (sessionContext : SessionContext) (groqApiKey notionCreds : JSON) : M unit :=
  let* structuredData := processWithGroq groqApiKey selectedText sessionContext in
  let* session := getActiveSession in
  match session with
  | Some {| notionPageId := Some ((_ :: _) as pageId) |} =>
      appendToNotionPage notionCreds pageId selectedText sourceUrl
        (data_connections structuredData) (data_sectionTitle structuredData)
  | _ =>
      let* notionResponseId :=
        createNotionPage notionCreds (sessionName sessionContext) selectedText
          sourceUrl (data_sectionTitle structuredData) in
      let* _ := updateSession activeSessionId
                  {| set_name := None;
                     set_notionPageId := Some (Some notionResponseId) |} in
      ret tt
  end;;
  let* _ := addContentToSession P activeSessionId
              (data_sectionTitle structuredData) (substring0 300 selectedText) in
  sendNotification tabId (js "Mapped successfully!") "success";;
  sendMessage MAPPING_COMPLETE.

(** [handleMapping(selectedText, sourceUrl, tabId)] *)
Definition handleMapping (selectedText : jsstring) (sourceUrl : option jsstring)
    (tabId : N) : M unit :=
  try_catch
    (let* setupComplete := StorageManager_get K_setupComplete in
     let* isLocked := StorageManager_get K_isLocked in
     match setupComplete with
     | Some true =>
         match isLocked with
         | Some true =>
             sendNotification tabId
               (js "Extension is locked. Please unlock first.") "error"
         | _ =>
             let* activeSessionId := StorageManager_get K_activeSessionId in
             match activeSessionId with
             | Some ((_ :: _) as activeSessionId) =>
                 sendNotification tabId (js "Processing...") "info";;
                 let* sessionContext := getSessionContext activeSessionId in
                 let* groqApiKey := getEncrypted P "groqApiKey" in
                 if negb (truthy groqApiKey) then
                   sendNotification tabId (js "Groq API key not found") "error"
                 else
                   let* notionCreds := getEncrypted P "notionCredentials" in
                   if negb (truthy notionCreds) then
                     sendNotification tabId (js "Notion credentials not found") "error"
                   else
                     structure_and_store selectedText sourceUrl tabId
                       activeSessionId sessionContext groqApiKey notionCreds
             | _ =>
                 sendNotification tabId
                   (js "No active session. Please create one first.") "error"
             end
         end
     | _ => sendNotification tabId (js "Please complete setup first") "error"
     end)
    (fun error =>
       sendNotification tabId (js "Error: " ++ error_message error) "error";;
       sendMessage (MAPPING_ERROR (error_message error))).

End Background.

(** ** A configured installation

    The world of the small platform after onboarding: setup complete,
    unlocked, both secrets stored (the small [JSON] makes them [true]),
    and a session ["Research A"] created and active. *)

Module Scenario.

Definition onboarding : M Session :=
  StorageManager_set K_setupComplete true;;
  StorageManager_set K_isLocked false;;
  setEncrypted Toy.platform "groqApiKey" (JBool true);;
  setEncrypted Toy.platform "notionCredentials" (JBool true);;
  createSession Toy.platform (js "Research A").

Definition ready (r : Remote) : World := snd (onboarding (Toy.installed r)).

(** The session [createSession] returned. *)
Definition session : Session :=
  match fst (onboarding (Toy.installed Toy.silent)) with
  | Ok s => s
  | Throw _ =>
      {| id := []; name := []; createdAt := []; notionPageId := None;
         contents := None; contentCount := None |}
  end.


(** Both services answer. *)
Definition answering : Remote :=
  {| groq_reply := fun _ =>
       Body {| sectionTitle := Some (js "Cell Energy");
               connections := Some [{| toSection := js "Intro";
                                       relationship := js "expands on" |}] |};
     notion_schema_reply := fun _ =>
       Body [(js "Tags", js "multi_select"); (js "Title", js "title")];
     notion_create_reply := fun _ => Body (js "page-1");
     notion_append_reply := fun _ => Body tt |}.


Definition sentence : jsstring :=
  js "The mitochondria is the powerhouse of the cell.".

Definition url : jsstring := js "https://example.org/cells".

End Scenario.

(** ** Overlapping calls of [getOrCreateMasterKey]

    The calls of an event loop interleave at their [await]s. A call, and
    the [async () => { ... }] it may start, run from one [await] to the
    next without interruption; in between, any other call may run. The
    state is the two fields of [CryptoUtils], the stored key export, the
    promises created so far and what each caller is doing. *)

Module SingleFlight.

(** Where the body of the [async () => { ... }] stands: at one of its
    five [await]s, with what it holds there, or settled. *)
Inductive Creation : Type :=
| AwaitGet
    (** [await new Promise(... chrome.storage.local.get ...)] *)
| AwaitImport (keyData : list byte)
    (** [await crypto.subtle.importKey('raw', keyData, ...)] *)
| AwaitGenerate
    (** [await crypto.subtle.generateKey(...)] *)
| AwaitExport (key : list byte)
    (** [await crypto.subtle.exportKey('raw', this._encryptionKey)], called
        with the key just assigned *)
| AwaitSet (keyBase64 : string)
    (** [await new Promise(... chrome.storage.local.set ...)] *)
| Resolved (key : option (list byte))
    (** [return this._encryptionKey] *)
| Rejected.

(** What a caller of [getOrCreateMasterKey] is doing. *)
Inductive Caller : Type :=
| NotStarted
| Creator (p : nat)
    (** at [await this._keyPromise], having created the promise [p] *)
| Follower (p : nat)
    (** returned [this._keyPromise], the promise [p], still pending *)
| Returned (key : option (list byte))
| Failed.

Record State := {
  encryptionKey : option (list byte);
  keyPromise : option nat;
  masterKey : option string;
  creations : list Creation;
  callers : list Caller;
  (** how many times [generateKey] has delivered a key *)
  generated : nat
}.

Inductive Action : Type :=
| Start (i : nat)    (** caller [i] calls [getOrCreateMasterKey()] *)
| Resume (p : nat)   (** the body of promise [p] resumes after its [await] *)
| Finish (i : nat).  (** caller [i] resumes after the promise settled *)

Section Steps.
(** The key the [n]-th [generateKey] delivers. *)
Context (fresh : nat -> list byte).

(** Caller [i] runs from the call to its first [await] or [return]. *)
Definition start (i : nat) (s : State) : option State :=
  match callers s !! i with
  | Some NotStarted =>
      match encryptionKey s with
      | Some key =>
          Some {| encryptionKey := encryptionKey s; keyPromise := keyPromise s;
                  masterKey := masterKey s; creations := creations s;
                  callers := <[i := Returned (Some key)]> (callers s);
                  generated := generated s |}
      | None =>
          match keyPromise s with
          | Some p =>
              Some {| encryptionKey := encryptionKey s; keyPromise := keyPromise s;
                      masterKey := masterKey s; creations := creations s;
                      callers := <[i := Follower p]> (callers s);
                      generated := generated s |}
          | None =>
              let p := length (creations s) in
              Some {| encryptionKey := encryptionKey s; keyPromise := Some p;
                      masterKey := masterKey s;
                      creations := creations s ++ [AwaitGet];
                      callers := <[i := Creator p]> (callers s);
                      generated := generated s |}
          end
      end
  | _ => None
  end.

(** The body of promise [p] runs from one [await] to the next. *)
Definition resume (p : nat) (s : State) : option State :=
  match creations s !! p with
  | Some AwaitGet =>
      let next :=
        match masterKey s with
        | Some ((String _ _) as stored) =>
            match base64ToArrayBuffer stored with
            | Some keyData => AwaitImport keyData
            | None => Rejected
            end
        | _ => AwaitGenerate
        end in
      Some {| encryptionKey := encryptionKey s; keyPromise := keyPromise s;
              masterKey := masterKey s;
              creations := <[p := next]> (creations s);
              callers := callers s; generated := generated s |}
  | Some (AwaitImport keyData) =>
      if aes_key_length keyData then
        Some {| encryptionKey := Some keyData; keyPromise := keyPromise s;
                masterKey := masterKey s;
                creations := <[p := Resolved (Some keyData)]> (creations s);
                callers := callers s; generated := generated s |}
      else
        Some {| encryptionKey := encryptionKey s; keyPromise := keyPromise s;
                masterKey := masterKey s;
                creations := <[p := Rejected]> (creations s);
                callers := callers s; generated := generated s |}
  | Some AwaitGenerate =>
      let key := fresh (generated s) in
      Some {| encryptionKey := Some key; keyPromise := keyPromise s;
              masterKey := masterKey s;
              creations := <[p := AwaitExport key]> (creations s);
              callers := callers s; generated := S (generated s) |}
  | Some (AwaitExport key) =>
      Some {| encryptionKey := encryptionKey s; keyPromise := keyPromise s;
              masterKey := masterKey s;
              creations := <[p := AwaitSet (arrayBufferToBase64 key)]> (creations s);
              callers := callers s; generated := generated s |}
  | Some (AwaitSet keyBase64) =>
      Some {| encryptionKey := encryptionKey s; keyPromise := keyPromise s;
              masterKey := Some keyBase64;
              creations := <[p := Resolved (encryptionKey s)]> (creations s);
              callers := callers s; generated := generated s |}
  | _ => None
  end.

(** Caller [i] resumes once the promise it waits for has settled. The
    creator then runs [this._keyPromise = null]; after a rejection the
    [await] throws and that line is not reached. *)
Definition finish (i : nat) (s : State) : option State :=
  match callers s !! i with
  | Some (Creator p) =>
      match creations s !! p with
      | Some (Resolved key) =>
          Some {| encryptionKey := encryptionKey s; keyPromise := None;
                  masterKey := masterKey s; creations := creations s;
                  callers := <[i := Returned key]> (callers s);
                  generated := generated s |}
      | Some Rejected =>
          Some {| encryptionKey := encryptionKey s; keyPromise := keyPromise s;
                  masterKey := masterKey s; creations := creations s;
                  callers := <[i := Failed]> (callers s);
                  generated := generated s |}
      | _ => None
      end
  | Some (Follower p) =>
      match creations s !! p with
      | Some (Resolved key) =>
          Some {| encryptionKey := encryptionKey s; keyPromise := keyPromise s;
                  masterKey := masterKey s; creations := creations s;
                  callers := <[i := Returned key]> (callers s);
                  generated := generated s |}
      | Some Rejected =>
          Some {| encryptionKey := encryptionKey s; keyPromise := keyPromise s;
                  masterKey := masterKey s; creations := creations s;
                  callers := <[i := Failed]> (callers s);
                  generated := generated s |}
      | _ => None
      end
  | _ => None
  end.

Definition step (s : State) (a : Action) : option State :=
  match a with
  | Start i => start i s
  | Resume p => resume p s
  | Finish i => finish i s
  end.

(** An interleaving: the actions in the order the event loop takes them. *)
Fixpoint run (s : State) (schedule : list Action) : option State :=
  match schedule with
  | [] => Some s
  | a :: rest =>
      match step s a with
      | Some s' => run s' rest
      | None => None
      end
  end.

End Steps.

(** [n] calls are about to be made; no key is cached, no promise is in
    flight and no key was ever stored. *)
Definition initial (n : nat) : State :=
  {| encryptionKey := None; keyPromise := None; masterKey := None;
     creations := []; callers := replicate n NotStarted; generated := 0 |}.


(** *** The invariant, and the measure that bounds an interleaving *)

Section Invariant.
Context (fresh : nat -> list byte).

(** What a caller can be doing once the one promise exists. *)
Definition caller_ok (c : Caller) : Prop :=
  c = NotStarted \/ c = Creator 0 \/ c = Follower 0 \/
  c = Returned (Some (fresh 0)).

(** Either nothing has started, or exactly one promise was created: no
    key is assigned before its [generateKey] resumes and the first key
    generated is assigned from then on; the export is stored only once
    the promise is resolved; [_keyPromise] points to the promise until
    its creator has resumed. *)
Definition inv (s : State) : Prop :=
  match creations s with
  | [] =>
      encryptionKey s = None /\ keyPromise s = None /\ masterKey s = None /\
      generated s = 0%nat /\ Forall (fun c => c = NotStarted) (callers s)
  | [q] =>
      Forall caller_ok (callers s) /\
      match q with
      | AwaitGet | AwaitGenerate =>
          encryptionKey s = None /\ generated s = 0%nat /\
          keyPromise s = Some 0%nat /\ masterKey s = None
      | AwaitExport key =>
          key = fresh 0 /\ encryptionKey s = Some (fresh 0) /\
          generated s = 1%nat /\ keyPromise s = Some 0%nat /\ masterKey s = None
      | AwaitSet keyBase64 =>
          keyBase64 = arrayBufferToBase64 (fresh 0) /\
          encryptionKey s = Some (fresh 0) /\
          generated s = 1%nat /\ keyPromise s = Some 0%nat /\ masterKey s = None
      | Resolved key =>
          key = Some (fresh 0) /\ encryptionKey s = Some (fresh 0) /\
          generated s = 1%nat /\
          (keyPromise s = Some 0%nat \/ keyPromise s = None) /\
          masterKey s = Some (arrayBufferToBase64 (fresh 0))
      | AwaitImport _ | Rejected => False
      end
  | _ => False
  end.

End Invariant.

Definition has_returned (c : Caller) : bool :=
  match c with Returned _ => true | _ => false end.

Definition caller_weight (c : Caller) : nat :=
  match c with
  | NotStarted => 7
  | Creator _ | Follower _ => 1
  | Returned _ | Failed => 0
  end.

Definition creation_weight (q : Creation) : nat :=
  match q with
  | AwaitGet => 4
  | AwaitGenerate => 3
  | AwaitExport _ => 2
  | AwaitImport _ | AwaitSet _ => 1
  | Resolved _ | Rejected => 0
  end.

Fixpoint total {A} (f : A -> nat) (l : list A) : nat :=
  match l with
  | [] => 0
  | x :: l' => f x + total f l'
  end.

Definition weight (s : State) : nat :=
  total caller_weight (callers s) + total creation_weight (creations s).

End SingleFlight.

(** ** Notions used to state the properties *)

(** The key state from which a key can be obtained: a cached key, or no
    settled promise left behind and, in storage, nothing or the export
    of a key. *)
Definition key_usable (w : World) : bool :=
  match _encryptionKey (crypto w) with
  | Some key => aes_key_length key
  | None =>
      match _keyPromise (crypto w) with
      | Some _ => false
      | None =>
          match _masterKey (storage w) with
          | Some ((String _ _) as stored) =>
              match base64ToArrayBuffer stored with
              | Some keyData => aes_key_length keyData
              | None => false
              end
          | _ => true
          end
      end
  end.

(** The session list as [getSessions] reads it. *)
Definition stored_sessions (w : World) : list Session :=
  match sessions (storage w) with Some l => l | None => [] end.

(** The session [find] returns for an id. *)
Definition session_of (sessionId : jsstring) (w : World) : option Session :=
  List.find (has_id (Some sessionId)) (stored_sessions w).

Definition contents_of (s : Session) : list Content :=
  match contents s with Some c => c | None => [] end.

Definition count_of (s : Session) : Z :=
  match contentCount s with Some n => n | None => 0%Z end.

Definition total_of (w : World) : Z :=
  match totalNotes (storage w) with Some n => n | None => 0%Z end.


(** What obtaining the key, and so decrypting, leaves alone: everything
    but the key state, the stored key export and the random source. *)
Record keeps_outside_keys (w w' : World) : Prop := {
  keeps_setupComplete : setupComplete (storage w') = setupComplete (storage w);
  keeps_isLocked : isLocked (storage w') = isLocked (storage w);
  keeps_activeSessionId : activeSessionId (storage w') = activeSessionId (storage w);
  keeps_sessions : sessions (storage w') = sessions (storage w);
  keeps_totalNotes : totalNotes (storage w') = totalNotes (storage w);
  keeps_encrypted : encrypted (storage w') = encrypted (storage w);
  keeps_clock : clock w' = clock w;
  keeps_ticks : ticks w' = ticks w;
  keeps_remote : remote w' = remote w;
  keeps_netlog : netlog w' = netlog w;
  keeps_notifications : notifications w' = notifications w;
  keeps_runtime_messages : runtime_messages w' = runtime_messages w
}.

(** The request [processWithGroq] sends. *)
Definition groq_request (apiKey : JSON) (selectedText : jsstring)
    (sessionContext : SessionContext) : Request :=
  GroqChat apiKey systemPrompt (userPrompt selectedText sessionContext).

(** What [processWithGroq] makes of the reply. *)
Definition structured_of (reply : Reply Structured) (selectedText : jsstring)
  : StructuredData :=
  match reply with
  | Body parsed =>
      {| data_sectionTitle :=
           match sectionTitle parsed with
           | Some ((_ :: _) as t) => t
           | _ => js "New Section"
           end;
         data_connections :=
           match connections parsed with Some c => c | None => [] end |}
  | _ => {| data_sectionTitle := fallbackTitle selectedText;
            data_connections := [] |}
  end.

(** How the Notion builders read a reply. *)
Definition notion_result {A} (reply : Reply A) : Result A :=
  match reply with
  | Unreachable e => Throw e
  | Status message statusText =>
      Throw (Exception "Error"
               (js "Notion API error: " ++ message_or message statusText))
  | Unusable e => Throw e
  | Body a => Ok a
  end.

(** The error a reply is turned into, if any. *)
Definition notion_error {A} (reply : Reply A) : option JSError :=
  match notion_result reply with
  | Throw e => Some e
  | Ok _ => None
  end.

(** What [getSessionContext] returns, as a function of the world. *)
Definition context_of (sessionId : jsstring) (w : World) : SessionContext :=
  match session_of sessionId w with
  | Some session =>
      {| sessionName := name session;
         context_notionPageId :=
           match notionPageId session with
           | Some p => if nonempty p then Some p else None
           | None => None
           end;
         context_contents := contents_of session;
         context_contentCount := count_of session |}
  | None =>
      {| sessionName := js "Default"; context_notionPageId := None;
         context_contents := []; context_contentCount := 0%Z |}
  end.

(** The world after ['Processing...'] was sent to the tab. *)
Definition processing (w : World) : World :=
  with_notifications
    (notifications w ++
     [{| message := js "Processing..."; notificationType := "info" |}]) w.

Definition processing_notification : Notification :=
  {| message := js "Processing..."; notificationType := "info" |}.

Definition success_notification : Notification :=
  {| message := js "Mapped successfully!"; notificationType := "success" |}.

Definition error_notification (e : JSError) : Notification :=
  {| message := js "Error: " ++ error_message e; notificationType := "error" |}.

(** The [catch] of [handleMapping]. *)
Definition report (tabId : N) (error : JSError) : M unit :=
  sendNotification tabId (js "Error: " ++ error_message error) "error";;
  sendMessage (MAPPING_ERROR (error_message error)).

(** The page the store step appends to: the truthy [notionPageId] of the
    session the active id meets. *)
Definition page_of (sessionId : jsstring) (w : World) : option jsstring :=
  match session_of sessionId w with
  | Some s =>
      match notionPageId s with
      | Some ((_ :: _) as p) => Some p
      | _ => None
      end
  | None => None
  end.

Section CaptureNotions.
Context (P : Platform).

(** All five checks of [handleMapping] pass on [w]: setup is complete,
    the extension is not locked, [sessionId] is the active session id,
    and the two secrets decrypt to the truthy values [apiKey] and
    [credentials], which leaves the world [w3]. *)
Record Validated (w : World) (sessionId : jsstring) (apiKey credentials : JSON)
    (w3 : World) : Prop := {
  valid_setup : setupComplete (storage w) = Some true;
  valid_unlocked : isLocked (storage w) <> Some true;
  valid_active : activeSessionId (storage w) = Some sessionId;
  valid_active_truthy : nonempty sessionId = true;
  valid_secrets : exists w2,
    getEncrypted P "groqApiKey" (processing w) = (Ok apiKey, w2) /\
    truthy apiKey = true /\
    getEncrypted P "notionCredentials" w2 = (Ok credentials, w3) /\
    truthy credentials = true
}.

(** The end of [structure_and_store], after the page was written. *)
Definition record_capture (tabId : N) (sessionId sectionTitle selectedText : jsstring)
  : M unit :=
  let* _ := addContentToSession P sessionId sectionTitle
              (substring0 300 selectedText) in
  sendNotification tabId (js "Mapped successfully!") "success";;
  sendMessage MAPPING_COMPLETE.

End CaptureNotions.







(** The reason a capture is refused for, when no active session id is
    stored: the setup and lock checks come first. *)
Definition refusal (w : World) : jsstring :=
  match setupComplete (storage w) with
  | Some true =>
      match isLocked (storage w) with
      | Some true => js "Extension is locked. Please unlock first."
      | _ => js "No active session. Please create one first."
      end
  | _ => js "Please complete setup first"
  end.

(** No active session id is stored: the key is missing, or holds the
    empty string. *)
Definition no_active_session (w : World) : bool :=
  match activeSessionId (storage w) with
  | Some ((_ :: _)) => false
  | _ => true
  end.




(** Three calls: the second starts while the first waits for storage,
    the third after the key was generated but before it was stored. *)
Definition three_calls : list SingleFlight.Action :=
  [SingleFlight.Start 0; SingleFlight.Start 1; SingleFlight.Resume 0;
   SingleFlight.Resume 0; SingleFlight.Start 2; SingleFlight.Resume 0;
   SingleFlight.Resume 0; SingleFlight.Finish 1; SingleFlight.Finish 0].

Definition counting_keys (k : nat) : list byte :=
  map (fun i => UTF8.byte_of_N (N.of_nat i mod 256)) (seq (32 * k) 32).

(** Where the three calls end. *)
Definition three_calls_end : SingleFlight.State :=
  match SingleFlight.run counting_keys (SingleFlight.initial 3) three_calls with
  | Some s => s
  | None => SingleFlight.initial 0
  end.

(** ** Further notions *)

(** The characters of a number in base 36. *)
Definition is_digit36 (c : N) : bool :=
  ((48 <=? c) && (c <=? 57)) || ((97 <=? c) && (c <=? 122)).

(** The number a string of base-36 digits writes. *)
Definition value36 (s : jsstring) : N :=
  fold_left (fun a c => a * 36 + (if c <? 58 then c - 48 else c - 87)) s 0.

(** The stored [_masterKey] is a non-empty string that [importKey]
    accepts as [key]. *)
Definition key_stored (w : World) (key : list byte) : Prop :=
  exists c rest,
    _masterKey (storage w) = Some (String c rest) /\
    base64ToArrayBuffer (String c rest) = Some key /\
    aes_key_length key = true.

(** ** More of [StorageManager] and [SessionManager]
       ([src/utils/storage.js]) *)

(** A key with nothing under it: removed, or holding [null]. *)
Definition erase_key {T} (k : Key T) : Storage -> Storage :=
  match k with
  | K_setupComplete => fun st =>
      {| setupComplete := None; isLocked := isLocked st;
         activeSessionId := activeSessionId st; sessions := sessions st;
         totalNotes := totalNotes st; _masterKey := _masterKey st;
         encrypted := encrypted st |}
  | K_isLocked => fun st =>
      {| setupComplete := setupComplete st; isLocked := None;
         activeSessionId := activeSessionId st; sessions := sessions st;
         totalNotes := totalNotes st; _masterKey := _masterKey st;
         encrypted := encrypted st |}
  | K_activeSessionId => fun st =>
      {| setupComplete := setupComplete st; isLocked := isLocked st;
         activeSessionId := None; sessions := sessions st;
         totalNotes := totalNotes st; _masterKey := _masterKey st;
         encrypted := encrypted st |}
  | K_sessions => fun st =>
      {| setupComplete := setupComplete st; isLocked := isLocked st;
         activeSessionId := activeSessionId st; sessions := None;
         totalNotes := totalNotes st; _masterKey := _masterKey st;
         encrypted := encrypted st |}
  | K_totalNotes => fun st =>
      {| setupComplete := setupComplete st; isLocked := isLocked st;
         activeSessionId := activeSessionId st; sessions := sessions st;
         totalNotes := None; _masterKey := _masterKey st;
         encrypted := encrypted st |}
  | K_masterKey => fun st =>
      {| setupComplete := setupComplete st; isLocked := isLocked st;
         activeSessionId := activeSessionId st; sessions := sessions st;
         totalNotes := totalNotes st; _masterKey := None;
         encrypted := encrypted st |}
  | K_named n => fun st =>
      {| setupComplete := setupComplete st; isLocked := isLocked st;
         activeSessionId := activeSessionId st; sessions := sessions st;
         totalNotes := totalNotes st; _masterKey := _masterKey st;
         encrypted := delete n (encrypted st) |}
  end.


(** [StorageManager.set(key, null)] *)
Definition StorageManager_set_null {T} (key : Key T) : M unit :=
  modify (with_storage (erase_key key)).

(** [SessionManager.setSessionPageId(sessionId, pageId)]: the session
    [find] returns is changed in place and the array is stored. *)
Definition setSessionPageId (sessionId pageId : jsstring) : M (option Session) :=
  let* sessions := getSessions in
  match List.find (has_id (Some sessionId)) sessions with
  | Some session =>
      let session' :=
        {| id := id session; name := name session;
           createdAt := createdAt session;
           notionPageId := Some pageId;
           contents := contents session;
           contentCount := contentCount session |} in
      StorageManager_set K_sessions
        (replace_first (has_id (Some sessionId)) session' sessions);;
      ret (Some session')
  | None => ret None
  end.


(** [activeId === sessionId], for an [activeId] that may be missing *)
Definition has_active (activeId : option jsstring) (sessionId : jsstring) : bool :=
  match activeId with
  | Some a => jseqb a sessionId
  | None => false
  end.

(** [SessionManager.deleteSession(sessionId)]; the new active id is
    [filtered[0]?.id || null]. *)
Definition deleteSession (sessionId : jsstring) : M unit :=
  let* sessions := getSessions in
  let filtered := List.filter (fun s => negb (jseqb (id s) sessionId)) sessions in
  StorageManager_set K_sessions filtered;;
  let* activeId := StorageManager_get K_activeSessionId in
  if has_active activeId sessionId then
    match filtered with
    | first :: _ =>
        if nonempty (id first)
        then StorageManager_set K_activeSessionId (id first)
        else StorageManager_set_null K_activeSessionId
    | [] => StorageManager_set_null K_activeSessionId
    end
  else ret tt.

(** ** More notions for the capture flow *)

(** Everything stored but the key export is the same in two worlds. *)
Record same_stored_data (w w' : World) : Prop := {
  same_setupComplete : setupComplete (storage w') = setupComplete (storage w);
  same_isLocked : isLocked (storage w') = isLocked (storage w);
  same_activeSessionId :
    activeSessionId (storage w') = activeSessionId (storage w);
  same_sessions : sessions (storage w') = sessions (storage w);
  same_totalNotes : totalNotes (storage w') = totalNotes (storage w);
  same_encrypted : encrypted (storage w') = encrypted (storage w)
}.

(** An error notification with a given text. *)
Definition refusal_notification (reason : jsstring) : Notification :=
  {| message := reason; notificationType := "error" |}.

(** How a capture ends: refused by a check, failed with an exception
    that was caught, or mapped. *)
Inductive CaptureEnd : Type :=
| Refused (reason : jsstring)
| Failed (e : JSError)
| Mapped.

(** What a capture that ends in a given way has notified, beyond what
    was notified before, and what it has told the popup. *)
Definition notified (ending : CaptureEnd) : list Notification :=
  match ending with
  | Refused reason =>
      if jseqb reason (js "Groq API key not found")
         || jseqb reason (js "Notion credentials not found")
      then [processing_notification; refusal_notification reason]
      else [refusal_notification reason]
  | Failed e => [processing_notification; error_notification e]
  | Mapped => [processing_notification; success_notification]
  end.

Definition told (ending : CaptureEnd) : list RuntimeMessage :=
  match ending with
  | Refused _ => []
  | Failed e => [MAPPING_ERROR (error_message e)]
  | Mapped => [MAPPING_COMPLETE]
  end.

(** The five reasons a check refuses with. *)
Definition refusals : list jsstring :=
  [js "Please complete setup first";
   js "Extension is locked. Please unlock first.";
   js "No active session. Please create one first.";
   js "Groq API key not found";
   js "Notion credentials not found"].

(** The blocks a request writes to the document store. *)
Definition children_of (r : Request) : list Block :=
  match r with
  | NotionCreatePage _ _ _ children => children
  | NotionAppendChildren _ _ children => children
  | _ => []
  end.

(** ** [NotionService] ([src/services/notion.js]) *)

(** [truncateText(text, maxLength)], for an integer [maxLength];
    [None] is a [text] that is [undefined] or [null]. [substring] reads a
    negative end as 0. *)
Definition truncateText (text : option jsstring) (maxLength : Z) : jsstring :=
  match text with
  | Some ((_ :: _) as text) =>
      if (Z.of_nat (length text) <=? maxLength)%Z then text
      else substring0 (Z.to_nat (maxLength - 3)) text ++ js "..."
  | _ => []
  end.

(** [sanitizeTag(tag)]: [(tag || 'tag').substring(0, 100).trim()] *)
Definition sanitizeTag (tag : option jsstring) : jsstring :=
  trim (substring0 100
          (match tag with
           | Some ((_ :: _) as tag) => tag
           | _ => js "tag"
           end)).

(** The characters [/[a-f0-9]/i] matches. *)
Definition is_hex (c : N) : bool :=
  ((48 <=? c) && (c <=? 57)) || ((97 <=? c) && (c <=? 102))
  || ((65 <=? c) && (c <=? 70)).

(** [isValidDatabaseId(databaseId)], for a string or a falsy value:
    [(databaseId || '').replace(/-/g, '')] has 32 characters, all
    hexadecimal digits. *)
Definition isValidDatabaseId (databaseId : option jsstring) : bool :=
  let cleanId :=
    List.filter (fun c => negb (c =? 45))
      (match databaseId with Some d => d | None => [] end) in
  (length cleanId =? 32)%nat && forallb is_hex cleanId.

(** The leftmost match of [/([a-f0-9]{32})/i]. *)
Fixpoint match_hex32 (s : jsstring) : option jsstring :=
  match s with
  | [] => None
  | _ :: rest =>
      let candidate := firstn 32 s in
      if (length candidate =? 32)%nat && forallb is_hex candidate
      then Some candidate
      else match_hex32 rest
  end.

(** [extractDatabaseIdFromUrl(url)]; for a [url] that is not a string
    ([None]) [url.match] throws and the [catch] returns [null]. *)
Definition extractDatabaseIdFromUrl (url : option jsstring) : option jsstring :=
  match url with
  | Some url => match_hex32 url
  | None => None
  end.

(** ** [GroqService] ([src/services/groq.js]) *)

(** The strings of an array for which
    [typeof tag === 'string' && tag.trim()] holds. *)
Definition nonblank_strings (items : list JSON) : list jsstring :=
  flat_map (fun item =>
              match item with
              | JString s => if nonempty (trim s) then [s] else []
              | _ => []
              end) items.

(** [sanitizeTags(tags)] *)
Definition sanitizeTags (tags : option JSON) : list jsstring :=
  match tags with
  | Some (JArray items) =>
      firstn 5 (map (fun tag => substring0 50 (trim tag)) (nonblank_strings items))
  | _ => [js "uncategorized"]
  end.

(** [sanitizeLinkedNotes(linkedNotes)] *)
Definition sanitizeLinkedNotes (linkedNotes : option JSON) : list jsstring :=
  match linkedNotes with
  | Some (JArray items) =>
      firstn 5 (map (fun note => substring0 100 (trim note)) (nonblank_strings items))
  | _ => []
  end.

(** ** The popup ([src/popup/popup.js]) *)

(** What [lockExtension()] does to storage and to [CryptoUtils]: it
    stores the lock flag, clears the cached key and reads the user data
    to show the name. The assignments to the popup's own fields and to
    the document are not part of the world. *)
Definition lockExtension (P : Platform) : M unit :=
  StorageManager_set K_isLocked true;;
  clearKey;;
  let* userData := getEncrypted P "userData" in
  ret tt.

(** ** Overlapping calls when a key export is stored *)

Module StoredKey.
Import SingleFlight.

(** [n] calls are about to be made; no key is cached, no promise is in
    flight, and [stored] is under [_masterKey]. *)
Definition initial (n : nat) (stored : string) : State :=
  {| encryptionKey := None; keyPromise := None; masterKey := Some stored;
     creations := []; callers := replicate n NotStarted; generated := 0 |}.

(** [stored] is a non-empty string that [importKey] accepts as [key]. *)
Definition imports (stored : string) (key : list byte) : Prop :=
  stored <> EmptyString /\
  base64ToArrayBuffer stored = Some key /\ aes_key_length key = true.

(** [stored] is a non-empty string that is not base64, or not the
    material of an AES key. *)
Definition unusable (stored : string) : Prop :=
  stored <> EmptyString /\
  match base64ToArrayBuffer stored with
  | Some keyData => aes_key_length keyData = false
  | None => True
  end.

Section Invariants.
Context (stored : string) (key : list byte).

Definition caller_loading (c : Caller) : Prop :=
  c = NotStarted \/ c = Creator 0 \/ c = Follower 0 \/ c = Returned (Some key).

(** While a usable export is stored: the export stays, nothing is
    generated, at most one promise is created, and the key assigned is
    the one imported. *)
Definition inv_load (s : State) : Prop :=
  masterKey s = Some stored /\ generated s = 0%nat /\
  match creations s with
  | [] =>
      encryptionKey s = None /\ keyPromise s = None /\
      Forall (fun c => c = NotStarted) (callers s)
  | [q] =>
      Forall caller_loading (callers s) /\
      match q with
      | AwaitGet => encryptionKey s = None /\ keyPromise s = Some 0%nat
      | AwaitImport keyData =>
          keyData = key /\ encryptionKey s = None /\ keyPromise s = Some 0%nat
      | Resolved k =>
          k = Some key /\ encryptionKey s = Some key /\
          (keyPromise s = Some 0%nat \/ keyPromise s = None)
      | _ => False
      end
  | _ => False
  end.

Definition caller_failing (c : Caller) : Prop :=
  c = NotStarted \/ c = Creator 0 \/ c = Follower 0 \/ c = Failed.

(** While an unusable export is stored: no key is ever assigned, the
    one promise is rejected, and [_keyPromise] keeps pointing to it. *)
Definition inv_fail (s : State) : Prop :=
  masterKey s = Some stored /\ generated s = 0%nat /\
  encryptionKey s = None /\
  match creations s with
  | [] =>
      keyPromise s = None /\ Forall (fun c => c = NotStarted) (callers s)
  | [q] =>
      keyPromise s = Some 0%nat /\ Forall caller_failing (callers s) /\
      match q with
      | AwaitGet | Rejected => True
      | AwaitImport keyData => aes_key_length keyData = false
      | _ => False
      end
  | _ => False
  end.

End Invariants.

Definition has_failed (c : Caller) : bool :=
  match c with Failed => true | _ => false end.

(** Three calls: the second starts while the first waits for storage,
    the third after the key was imported. *)
Definition three_calls : list Action :=
  [Start 0; Start 1; Resume 0; Resume 0; Start 2; Finish 1; Finish 0].

(** Three calls: the third starts after the promise was rejected. *)
Definition three_failing_calls : list Action :=
  [Start 0; Start 1; Resume 0; Finish 0; Start 2; Finish 2; Finish 1].

(** The export of the key made of the bytes 0 to 31. *)
Definition sample_key : list byte :=
  map (fun i => UTF8.byte_of_N (N.of_nat i)) (seq 0 32).

Definition sample_export : string := arrayBufferToBase64 sample_key.

(** Where an interleaving ends. *)
Definition end_of (stored : string) (n : nat) (schedule : list Action) : State :=
  match run (fun _ => []) (initial n stored) schedule with
  | Some s => s
  | None => initial 0 stored
  end.

End StoredKey.
(** * Proofs *)

(** ** Generic list facts *)

Section ListFacts.
Context {A : Type}.

(** Induction three elements at a time, the way base64 consumes bytes. *)
Lemma list_ind3 (P : list A -> Prop) :
  P [] -> (forall a, P [a]) -> (forall a b, P [a; b]) ->
  (forall a b c l, P l -> P (a :: b :: c :: l)) ->
  forall l, P l.
Proof.
  intros H0 H1 H2 H3.
  assert (H : forall l, P l /\ (forall a, P (a :: l)) /\ (forall a b, P (a :: b :: l))).
  { induction l as [|x l [IH0 [IH1 IH2]]].
    - repeat split; auto.
    - repeat split; auto. }
  intros l. apply H.
Qed.

Lemma forallb_seq_N (f : N -> bool) (k : nat) :
  forallb f (map N.of_nat (seq 0 k)) = true ->
  forall n, n < N.of_nat k -> f n = true.
Proof.
  intros H n Hn. rewrite forallb_forall in H. apply H.
  apply in_map_iff. exists (N.to_nat n). split; [lia|].
  apply in_seq. lia.
Qed.

Lemma last_app_ne (l l' : list A) (d : A) :
  l' <> [] -> List.last (l ++ l') d = List.last l' d.
Proof.
  intros Hne. induction l as [|x l IH]; [reflexivity|].
  cbn [app List.last]. destruct (l ++ l') eqn:E; [|exact IH].
  apply app_eq_nil in E. destruct E. contradiction.
Qed.
End ListFacts.

(** ** Base64 round trip *)

Module Base64Facts.
Import Base64.

Lemma sextet_char_roundtrip n :
  n < 64 -> sextet_of_char (char_of_sextet n) = Some n.
Proof.
  intros Hn.
  pose proof (forallb_seq_N
    (fun n => match sextet_of_char (char_of_sextet n) with
              | Some m => m =? n | None => false end) 64) as H.
  specialize (H eq_refl n Hn). simpl in H.
  destruct (sextet_of_char (char_of_sextet n)); [|discriminate].
  apply N.eqb_eq in H. now subst.
Qed.

Lemma char_of_sextet_plain n :
  n < 64 ->
  is_ascii_whitespace (char_of_sextet n) = false /\
  Ascii.eqb (char_of_sextet n) pad = false.
Proof.
  intros Hn.
  pose proof (forallb_seq_N
    (fun n => negb (is_ascii_whitespace (char_of_sextet n)) &&
              negb (Ascii.eqb (char_of_sextet n) pad)) 64) as H.
  specialize (H eq_refl n Hn). simpl in H.
  apply andb_true_iff in H. destruct H as [H1 H2].
  split; now apply negb_true_iff.
Qed.

Lemma pad_not_whitespace : is_ascii_whitespace pad = false.
Proof. reflexivity. Qed.

Lemma codes_small s : small (codes s).
Proof.
  unfold small, codes. apply List.Forall_forall. intros a Ha.
  apply in_map_iff in Ha. destruct Ha as [c [<- _]].
  apply N_ascii_bounded.
Qed.

Lemma of_codes_codes s : of_codes (codes s) = s.
Proof.
  unfold of_codes, codes. rewrite map_map.
  rewrite (map_ext _ (fun c => c)) by apply ascii_N_embedding.
  rewrite map_id. apply string_of_list_ascii_of_string.
Qed.

Ltac small_inv :=
  repeat match goal with
         | H : small (_ :: _) |- _ => apply Forall_cons_iff in H; destruct H
         | H : Forall _ (_ :: _) |- _ => apply Forall_cons_iff in H; destruct H
         end.

Lemma encode_no_whitespace l :
  small l ->
  List.filter (fun c => negb (is_ascii_whitespace c)) (encode l) = encode l.
Proof.
  induction l as [| a | a b | a b c l IH] using list_ind3; intros Hs;
    small_inv; cbn [encode List.filter].
  - reflexivity.
  - rewrite !pad_not_whitespace; cbn [negb].
    rewrite (proj1 (char_of_sextet_plain (a / 4) ltac:(lia))).
    rewrite (proj1 (char_of_sextet_plain (a mod 4 * 16) ltac:(lia))).
    reflexivity.
  - rewrite !pad_not_whitespace; cbn [negb].
    rewrite (proj1 (char_of_sextet_plain (a / 4) ltac:(lia))).
    rewrite (proj1 (char_of_sextet_plain (a mod 4 * 16 + b / 16) ltac:(lia))).
    rewrite (proj1 (char_of_sextet_plain (b mod 16 * 4) ltac:(lia))).
    reflexivity.
  - rewrite (proj1 (char_of_sextet_plain (a / 4) ltac:(lia))).
    rewrite (proj1 (char_of_sextet_plain (a mod 4 * 16 + b / 16) ltac:(lia))).
    rewrite (proj1 (char_of_sextet_plain (b mod 16 * 4 + c / 64) ltac:(lia))).
    rewrite (proj1 (char_of_sextet_plain (c mod 64) ltac:(lia))).
    cbn [negb]. now rewrite IH.
Qed.

Lemma encode_length l : N.of_nat (length (encode l)) mod 4 = 0.
Proof.
  induction l as [| a | a b | a b c l IH] using list_ind3;
    cbn [encode length]; try reflexivity.
  lia.
Qed.

Lemma encode_nil_inv l : encode l = [] -> l = [].
Proof. destruct l as [|a [|b [|c l]]]; cbn [encode]; congruence. Qed.

Lemma strip_padding_group (x0 x1 x2 x3 : ascii) t :
  t <> [] -> N.of_nat (length t) mod 4 = 0 ->
  strip_padding (x0 :: x1 :: x2 :: x3 :: t) = x0 :: x1 :: x2 :: x3 :: strip_padding t.
Proof.
  intros Ht Hlen.
  assert (Hlen4 : (4 <= length t)%nat).
  { destruct t as [|y0 [|y1 [|y2 [|y3 t']]]]; cbn [length] in *;
      try congruence; try lia; discriminate. }
  change (x0 :: x1 :: x2 :: x3 :: t) with ([x0; x1; x2; x3] ++ t).
  unfold strip_padding.
  replace (N.of_nat (length ([x0; x1; x2; x3] ++ t)) mod 4) with 0
    by (rewrite length_app; cbn [length]; lia).
  rewrite Hlen. cbn [N.eqb].
  rewrite last_app_ne by exact Ht.
  rewrite List.removelast_app by exact Ht.
  assert (Hrl : removelast t <> []).
  { destruct t as [|y0 [|y1 t']]; cbn [length] in *; try lia.
    cbn. destruct t'; discriminate. }
  rewrite last_app_ne by exact Hrl.
  rewrite List.removelast_app by exact Hrl.
  destruct (Ascii.eqb (List.last t " "%char) pad); [|reflexivity].
  destruct (Ascii.eqb (List.last (removelast t) " "%char) pad); reflexivity.
Qed.

Lemma strip_padding_encode l :
  small l -> strip_padding (encode l) = encode_nopad l.
Proof.
  induction l as [| a | a b | a b c l IH] using list_ind3; intros Hs; small_inv.
  - reflexivity.
  - reflexivity.
  - cbn [encode encode_nopad]. unfold strip_padding. cbn [length N.of_nat].
    change (N.pos (Pos.of_succ_nat 3) mod 4 =? 0) with true. cbv iota.
    cbn [List.last removelast].
    change (Ascii.eqb pad pad) with true. cbv iota.
    now rewrite (proj2 (char_of_sextet_plain (b mod 16 * 4) ltac:(lia))).
  - cbn [encode encode_nopad].
    destruct l as [|d l'].
    + cbn [encode encode_nopad]. unfold strip_padding. cbn [length N.of_nat].
      change (N.pos (Pos.of_succ_nat 3) mod 4 =? 0) with true. cbv iota.
      cbn [List.last].
      now rewrite (proj2 (char_of_sextet_plain (c mod 64) ltac:(lia))).
    + rewrite strip_padding_group.
      * now rewrite IH.
      * intros E. apply encode_nil_inv in E. discriminate.
      * apply encode_length.
Qed.

Lemma encode_nopad_length l : N.of_nat (length (encode_nopad l)) mod 4 <> 1.
Proof.
  induction l as [| a | a b | a b c l IH] using list_ind3;
    cbn [encode_nopad length]; try (cbn; discriminate).
  lia.
Qed.

Lemma sextets_encode_nopad l :
  small l -> sextets (encode_nopad l) = Some (sextets_of l).
Proof.
  induction l as [| a | a b | a b c l IH] using list_ind3; intros Hs;
    small_inv; cbn [encode_nopad sextets sextets_of].
  - reflexivity.
  - now rewrite !sextet_char_roundtrip by lia.
  - now rewrite !sextet_char_roundtrip by lia.
  - rewrite !sextet_char_roundtrip by lia. now rewrite IH.
Qed.

Lemma decode_sextets_of l : small l -> decode (sextets_of l) = l.
Proof.
  induction l as [| a | a b | a b c l IH] using list_ind3; intros Hs;
    small_inv; cbn [sextets_of decode].
  - reflexivity.
  - f_equal. lia.
  - f_equal; [lia|]. f_equal. lia.
  - rewrite IH by assumption.
    f_equal; [lia|]. f_equal; [lia|]. f_equal. lia.
Qed.

(** [atob] undoes [btoa] on every binary string. *)
Lemma atob_btoa s : atob (btoa s) = Some s.
Proof.
  unfold atob, btoa. rewrite list_ascii_of_string_of_list_ascii.
  pose proof (codes_small s) as Hs.
  rewrite encode_no_whitespace by exact Hs.
  rewrite strip_padding_encode by exact Hs.
  destruct (N.eqb_spec (N.of_nat (length (encode_nopad (codes s))) mod 4) 1) as [E|_].
  - now apply encode_nopad_length in E.
  - rewrite sextets_encode_nopad by exact Hs.
    rewrite decode_sextets_of by exact Hs.
    now rewrite of_codes_codes.
Qed.

Lemma btoa_inj s1 s2 : btoa s1 = btoa s2 -> s1 = s2.
Proof.
  intros E. pose proof (atob_btoa s1) as H1. rewrite E, atob_btoa in H1.
  congruence.
Qed.

End Base64Facts.

(** What the repository's two helpers inherit. *)
Lemma base64_roundtrip (buffer : list byte) :
  base64ToArrayBuffer (arrayBufferToBase64 buffer) = Some buffer.
Proof.
  unfold base64ToArrayBuffer, arrayBufferToBase64.
  rewrite Base64Facts.atob_btoa. now rewrite list_byte_of_string_of_list_byte.
Qed.

Lemma arrayBufferToBase64_inj (b1 b2 : list byte) :
  arrayBufferToBase64 b1 = arrayBufferToBase64 b2 -> b1 = b2.
Proof.
  intros E. pose proof (base64_roundtrip b1) as H. rewrite E, base64_roundtrip in H.
  congruence.
Qed.

Example btoa_hello : Base64.btoa "hello" = "aGVsbG8="%string.
Proof. reflexivity. Qed.

Example atob_forgiving : Base64.atob "aGVs bG8" = Some "hello"%string.
Proof. reflexivity. Qed.

Example atob_rejects : Base64.atob "a" = None /\ Base64.atob "!!!!" = None.
Proof. split; reflexivity. Qed.

Example encode_ascii : UTF8.encode (js "Hi") = [x48; x69].
Proof. reflexivity. Qed.

Example encode_euro : UTF8.encode [0x20AC] = [xe2; x82; xac].
Proof. reflexivity. Qed.

Example encode_pair : UTF8.encode [0xD83D; 0xDE00] = [xf0; x9f; x98; x80].
Proof. reflexivity. Qed.

Example decode_pair : UTF8.decode [xf0; x9f; x98; x80] = [0xD83D; 0xDE00].
Proof. reflexivity. Qed.

Example decode_overlong : UTF8.decode [xc0; x80] = [0xFFFD; 0xFFFD].
Proof. reflexivity. Qed.

(** Two different strings with the same encoding: a lone surrogate is
    sent as U+FFFD. *)
Example encode_lone_surrogates :
  UTF8.encode [0xD800] = [xef; xbf; xbd] /\ UTF8.encode [0xD801] = [xef; xbf; xbd].
Proof. split; reflexivity. Qed.

(** ** [TextDecoder] after [TextEncoder] *)

Module UTF8Facts.
Import UTF8.

Lemma run_cons st b rest :
  run st (b :: rest) = fst (step st b) ++ run (snd (step st b)) rest.
Proof. cbn [run]. now destruct (step st b). Qed.

Lemma step_fresh b : step fresh b = lead b.
Proof. reflexivity. Qed.

Lemma step_last cp seen needed lo hi b :
  needed <> 0 -> lo <= b -> b <= hi -> seen + 1 = needed ->
  step {| code_point := cp; bytes_seen := seen; bytes_needed := needed;
          lower_boundary := lo; upper_boundary := hi |} b =
  ([cp * 64 + b mod 64], fresh).
Proof.
  intros Hn Hlo Hhi Hs. unfold step.
  cbn [code_point bytes_seen bytes_needed lower_boundary upper_boundary].
  destruct (N.eqb_spec needed 0); [contradiction|].
  destruct (N.ltb_spec b lo); [lia|]. destruct (N.ltb_spec hi b); [lia|].
  destruct (N.eqb_spec (seen + 1) needed); [reflexivity|contradiction].
Qed.

Lemma step_more cp seen needed lo hi b :
  needed <> 0 -> lo <= b -> b <= hi -> seen + 1 <> needed ->
  step {| code_point := cp; bytes_seen := seen; bytes_needed := needed;
          lower_boundary := lo; upper_boundary := hi |} b =
  ([], {| code_point := cp * 64 + b mod 64; bytes_seen := seen + 1;
          bytes_needed := needed;
          lower_boundary := 0x80; upper_boundary := 0xBF |}).
Proof.
  intros Hn Hlo Hhi Hs. unfold step.
  cbn [code_point bytes_seen bytes_needed lower_boundary upper_boundary].
  destruct (N.eqb_spec needed 0); [contradiction|].
  destruct (N.ltb_spec b lo); [lia|]. destruct (N.ltb_spec hi b); [lia|].
  destruct (N.eqb_spec (seen + 1) needed); [contradiction|reflexivity].
Qed.

Lemma lead_1 b : b <= 0x7F -> lead b = ([b], fresh).
Proof. intros H. unfold lead. destruct (N.leb_spec b 0x7F); [reflexivity|lia]. Qed.

Lemma lead_2 b :
  0xC2 <= b -> b <= 0xDF ->
  lead b = ([], {| code_point := b mod 32; bytes_seen := 0; bytes_needed := 1;
                   lower_boundary := 0x80; upper_boundary := 0xBF |}).
Proof.
  intros H1 H2. unfold lead.
  destruct (N.leb_spec b 0x7F); [lia|].
  destruct (N.leb_spec 0xC2 b); [|lia]. destruct (N.leb_spec b 0xDF); [|lia].
  reflexivity.
Qed.

Lemma lead_3 b :
  0xE0 <= b -> b <= 0xEF ->
  lead b = ([], {| code_point := b mod 16; bytes_seen := 0; bytes_needed := 2;
                   lower_boundary := if b =? 0xE0 then 0xA0 else 0x80;
                   upper_boundary := if b =? 0xED then 0x9F else 0xBF |}).
Proof.
  intros H1 H2. unfold lead.
  destruct (N.leb_spec b 0x7F); [lia|].
  destruct (N.leb_spec 0xC2 b); [|lia]. destruct (N.leb_spec b 0xDF); [lia|].
  destruct (N.leb_spec 0xE0 b); [|lia]. destruct (N.leb_spec b 0xEF); [|lia].
  reflexivity.
Qed.

Lemma lead_4 b :
  0xF0 <= b -> b <= 0xF4 ->
  lead b = ([], {| code_point := b mod 8; bytes_seen := 0; bytes_needed := 3;
                   lower_boundary := if b =? 0xF0 then 0x90 else 0x80;
                   upper_boundary := if b =? 0xF4 then 0x8F else 0xBF |}).
Proof.
  intros H1 H2. unfold lead.
  destruct (N.leb_spec b 0x7F); [lia|].
  destruct (N.leb_spec 0xC2 b); [|lia]. destruct (N.leb_spec b 0xDF); [lia|].
  destruct (N.leb_spec 0xE0 b); [|lia]. destruct (N.leb_spec b 0xEF); [lia|].
  destruct (N.leb_spec 0xF0 b); [|lia]. destruct (N.leb_spec b 0xF4); [|lia].
  reflexivity.
Qed.

Ltac last_byte :=
  rewrite run_cons, step_last by lia; cbn [fst snd app].
Ltac more_bytes :=
  rewrite run_cons, step_more by lia; cbn [fst snd app].

Lemma mask_continuation x : x < 64 -> (0x80 + x) mod 64 = x.
Proof. lia. Qed.
Lemma mask_lead2 x : x < 32 -> (0xC0 + x) mod 32 = x.
Proof. lia. Qed.
Lemma mask_lead3 x : x < 16 -> (0xE0 + x) mod 16 = x.
Proof. lia. Qed.
Lemma mask_lead4 x : x < 8 -> (0xF0 + x) mod 8 = x.
Proof. lia. Qed.

Lemma run_utf8_bytes c rest :
  scalar c -> run fresh (utf8_bytes c ++ rest) = c :: run fresh rest.
Proof.
  intros Hc. unfold scalar in Hc. unfold utf8_bytes.
  destruct (N.ltb_spec c 0x80); [|destruct (N.ltb_spec c 0x800); [|destruct (N.ltb_spec c 0x10000)]];
    cbn [app].
  - rewrite run_cons, step_fresh, lead_1 by lia. reflexivity.
  - assert (Hd : c / 64 < 32 /\ 2 <= c / 64 /\ c mod 64 < 64 /\ c / 64 * 64 + c mod 64 = c) by lia.
    revert Hd. generalize (c / 64) (c mod 64). intros d1 d0 (H1 & H2 & H3 & H4).
    rewrite run_cons, step_fresh, lead_2 by lia. cbn [fst snd app].
    last_byte. rewrite mask_lead2, mask_continuation by lia. now rewrite H4.
  - assert (Hd : c / 4096 < 16 /\ (c / 64) mod 64 < 64 /\ c mod 64 < 64 /\
                 (c / 4096 * 64 + (c / 64) mod 64) * 64 + c mod 64 = c /\
                 (c / 4096 = 0 -> 32 <= (c / 64) mod 64) /\
                 (c / 4096 = 13 -> (c / 64) mod 64 < 32)) by lia.
    revert Hd. generalize (c / 4096) ((c / 64) mod 64) (c mod 64).
    intros d2 d1 d0 (H2 & H3 & H4 & H5 & H6 & H7).
    rewrite run_cons, step_fresh, lead_3 by lia. cbn [fst snd app].
    destruct (N.eqb_spec (0xE0 + d2) 0xE0); destruct (N.eqb_spec (0xE0 + d2) 0xED);
      try lia; more_bytes; last_byte;
      rewrite mask_lead3, !mask_continuation by lia; now rewrite H5.
  - assert (Hd : c / 262144 < 8 /\ (c / 4096) mod 64 < 64 /\ (c / 64) mod 64 < 64 /\
                 c mod 64 < 64 /\
                 ((c / 262144 * 64 + (c / 4096) mod 64) * 64 + (c / 64) mod 64) * 64
                 + c mod 64 = c /\
                 (c / 262144 = 0 -> 16 <= (c / 4096) mod 64) /\
                 (c / 262144 = 4 -> (c / 4096) mod 64 < 16) /\ c / 262144 <= 4) by lia.
    revert Hd. generalize (c / 262144) ((c / 4096) mod 64) ((c / 64) mod 64) (c mod 64).
    intros d3 d2 d1 d0 (H3 & H4 & H5 & H6 & H7 & H8 & H9 & H10).
    rewrite run_cons, step_fresh, lead_4 by lia. cbn [fst snd app].
    destruct (N.eqb_spec (0xF0 + d3) 0xF0); destruct (N.eqb_spec (0xF0 + d3) 0xF4);
      try lia; more_bytes; more_bytes; last_byte;
      rewrite mask_lead4, !mask_continuation by lia; now rewrite H7.
Qed.

Lemma to_N_byte_of_N n : n < 256 -> Byte.to_N (byte_of_N n) = n.
Proof.
  intros Hn. unfold byte_of_N. destruct (Byte.of_N n) as [b|] eqn:E.
  - now apply Byte.to_of_N.
  - apply Byte.of_N_None_iff in E. lia.
Qed.

Lemma bytes_back l :
  Forall (fun n => n < 256) l -> map Byte.to_N (map byte_of_N l) = l.
Proof.
  induction 1 as [|n l Hn _ IH]; [reflexivity|].
  cbn [map]. now rewrite to_N_byte_of_N, IH.
Qed.

Lemma utf8_bytes_small c :
  c < 0x110000 -> Forall (fun n => n < 256) (utf8_bytes c).
Proof.
  intros Hc. unfold utf8_bytes.
  destruct (N.ltb_spec c 0x80); [|destruct (N.ltb_spec c 0x800); [|destruct (N.ltb_spec c 0x10000)]];
    repeat constructor; lia.
Qed.

Lemma scalar_bound c : scalar c -> c < 0x110000.
Proof. unfold scalar. lia. Qed.

Lemma run_flat_map cps :
  Forall scalar cps -> run fresh (flat_map utf8_bytes cps) = cps.
Proof.
  induction 1 as [|c cps Hc _ IH]; [reflexivity|].
  cbn [flat_map]. now rewrite run_utf8_bytes, IH.
Qed.

Lemma flat_map_small cps :
  Forall scalar cps -> Forall (fun n => n < 256) (flat_map utf8_bytes cps).
Proof.
  induction 1 as [|c cps Hc _ IH]; [constructor|].
  cbn [flat_map]. apply Forall_app. split; [|exact IH].
  apply utf8_bytes_small, scalar_bound, Hc.
Qed.

(** Facts about a well-formed string, by induction on a bound of its length. *)
Lemma well_formed_facts n : forall s : jsstring,
  (length s <= n)%nat -> well_formed s = true ->
  Forall scalar (code_points s) /\ flat_map utf16_units (code_points s) = s.
Proof.
  induction n as [|n IH]; intros s Hlen Hwf.
  - destruct s; [|cbn in Hlen; lia]. split; [constructor|reflexivity].
  - destruct s as [|u rest]; [split; [constructor|reflexivity]|].
    cbn [well_formed code_points] in *. cbn [length] in Hlen.
    unfold is_high_surrogate, is_low_surrogate in *.
    destruct (N.leb_spec 0xD800 u); destruct (N.leb_spec u 0xDBFF); cbn [andb] in *.
    + destruct rest as [|v rest']; [discriminate|].
      apply andb_true_iff in Hwf. destruct Hwf as [Hv Hwf].
      apply andb_true_iff in Hv. destruct Hv as [Hv1 Hv2].
      apply N.leb_le in Hv1, Hv2.
      destruct (N.leb_spec 0xDC00 v); [|lia]. destruct (N.leb_spec v 0xDFFF); [|lia].
      cbn [andb length] in *.
      destruct (IH rest' ltac:(lia) Hwf) as [IH1 IH2].
      split.
      * constructor; [unfold scalar; lia|exact IH1].
      * cbn [flat_map]. rewrite IH2. unfold utf16_units.
        destruct (N.ltb_spec (0x10000 + (u - 0xD800) * 0x400 + (v - 0xDC00)) 0x10000); [lia|].
        cbn [app]. f_equal; [lia|]. f_equal. lia.
    + apply andb_true_iff in Hwf. destruct Hwf as [Hu Hwf].
      apply andb_true_iff in Hu. destruct Hu as [Hu1 Hu2].
      apply N.ltb_lt in Hu2. apply negb_true_iff in Hu1.
      destruct (N.leb_spec 0xDC00 u); destruct (N.leb_spec u 0xDFFF);
        cbn [andb] in *; try discriminate; try lia.
      destruct (IH rest ltac:(lia) Hwf) as [IH1 IH2].
      split.
      * constructor; [unfold scalar; lia|exact IH1].
      * cbn [flat_map]. rewrite IH2. unfold utf16_units.
        destruct (N.ltb_spec u 0x10000); [reflexivity|lia].
    + apply andb_true_iff in Hwf. destruct Hwf as [Hu Hwf].
      apply andb_true_iff in Hu. destruct Hu as [Hu1 Hu2].
      apply N.ltb_lt in Hu2.
      destruct (N.leb_spec 0xDC00 u); [lia|]. cbn [andb].
      destruct (IH rest ltac:(lia) Hwf) as [IH1 IH2].
      split.
      * constructor; [unfold scalar; lia|exact IH1].
      * cbn [flat_map]. rewrite IH2. unfold utf16_units.
        destruct (N.ltb_spec u 0x10000); [reflexivity|lia].
    + lia.
Qed.

Lemma strip_bom_other b0 l : b0 <> 0xEF -> strip_bom (b0 :: l) = b0 :: l.
Proof.
  intros Hb. unfold strip_bom. destruct l as [|b1 [|b2 rest]]; try reflexivity.
  destruct (N.eqb_spec b0 0xEF); [contradiction|reflexivity].
Qed.

Lemma strip_bom_utf8_bytes c tail :
  scalar c -> c <> 0xFEFF ->
  strip_bom (utf8_bytes c ++ tail) = utf8_bytes c ++ tail.
Proof.
  intros Hc Hne. unfold scalar in Hc. unfold utf8_bytes.
  destruct (N.ltb_spec c 0x80); [|destruct (N.ltb_spec c 0x800); [|destruct (N.ltb_spec c 0x10000)]];
    cbn [app]; try (apply strip_bom_other; lia).
  unfold strip_bom.
  destruct (N.eqb_spec (0xE0 + c / 4096) 0xEF); [|reflexivity].
  destruct (N.eqb_spec (0x80 + (c / 64) mod 64) 0xBB); [|reflexivity].
  destruct (N.eqb_spec (0x80 + c mod 64) 0xBF); [|reflexivity].
  lia.
Qed.

Lemma first_code_point u rest :
  well_formed (u :: rest) = true -> no_bom (u :: rest) = true ->
  exists c cps, code_points (u :: rest) = c :: cps /\ c <> 0xFEFF.
Proof.
  intros Hwf Hb. cbn [no_bom] in Hb. apply negb_true_iff in Hb.
  apply N.eqb_neq in Hb.
  cbn [well_formed code_points] in *. unfold is_high_surrogate, is_low_surrogate in *.
  destruct (N.leb_spec 0xD800 u); destruct (N.leb_spec u 0xDBFF); cbn [andb] in *.
  - destruct rest as [|v rest']; [discriminate|].
    apply andb_true_iff in Hwf. destruct Hwf as [Hv Hwf]. rewrite Hv.
    eexists _, _. split; [reflexivity|]. lia.
  - apply andb_true_iff in Hwf. destruct Hwf as [Hu Hwf].
    apply andb_true_iff in Hu. destruct Hu as [Hu1 Hu2].
    apply negb_true_iff in Hu1. rewrite Hu1.
    eexists _, _. split; [reflexivity|]. exact Hb.
  - destruct (N.leb_spec 0xDC00 u); [lia|]. cbn [andb].
    eexists _, _. split; [reflexivity|]. exact Hb.
  - lia.
Qed.

(** [TextDecoder] undoes [TextEncoder] on well-formed strings that do not
    start with the byte order mark. *)
Lemma decode_encode (s : jsstring) :
  well_formed s = true -> no_bom s = true -> decode (encode s) = s.
Proof.
  intros Hwf Hb. unfold decode, encode.
  destruct (well_formed_facts (length s) s (le_n _) Hwf) as [Hsc Hback].
  rewrite bytes_back by (apply flat_map_small, Hsc).
  assert (Hstrip : strip_bom (flat_map utf8_bytes (code_points s))
                   = flat_map utf8_bytes (code_points s)).
  { destruct s as [|u rest]; [reflexivity|].
    destruct (first_code_point u rest Hwf Hb) as (c & cps & E & Hne).
    rewrite E in *. cbn [flat_map]. apply strip_bom_utf8_bytes; [|exact Hne].
    now inversion Hsc. }
  rewrite Hstrip, run_flat_map by exact Hsc. exact Hback.
Qed.

End UTF8Facts.


(** ** The small platform obeys the laws *)

Module ToyFacts.
Import Toy.

Lemma bytes_eqb_refl a : bytes_eqb a a = true.
Proof.
  induction a as [|x a IH]; [reflexivity|].
  cbn [bytes_eqb]. rewrite IH. now rewrite (Byte.byte_dec_lb eq_refl).
Qed.

Lemma open_seal key iv data : open key iv (seal key iv data) = Some data.
Proof.
  unfold open, seal.
  replace (length (data ++ iv ++ key) - (length iv + length key))%nat
    with (length data) by (rewrite !length_app; lia).
  rewrite skipn_app, skipn_all, Nat.sub_diag. cbn [skipn app].
  rewrite bytes_eqb_refl.
  rewrite firstn_app, firstn_all, Nat.sub_diag. cbn [firstn].
  now rewrite app_nil_r.
Qed.

Lemma seal_iv_injective key iv1 iv2 data :
  seal key iv1 data = seal key iv2 data -> iv1 = iv2.
Proof.
  unfold seal. intros E. apply app_inv_head in E. now apply app_inv_tail in E.
Qed.

Lemma laws : PlatformLaws platform.
Proof.
  split.
  - intros key iv data _. apply open_seal.
  - intros key iv1 iv2 data _ _. apply seal_iv_injective.
  - intros v. destruct v as [|[|]| | | |]; split; vm_compute; reflexivity.
Qed.

End ToyFacts.

(** ** Key management *)

Section CryptoFacts.
Context (P : Platform).

Lemma getOrCreateMasterKey_cached w key :
  _encryptionKey (crypto w) = Some key ->
  getOrCreateMasterKey P w = (Ok key, w).
Proof. intros E. unfold getOrCreateMasterKey. now rewrite E. Qed.

Lemma getOrCreateMasterKey_usable w :
  key_usable w = true ->
  exists key w',
    getOrCreateMasterKey P w = (Ok key, w') /\
    aes_key_length key = true /\
    _encryptionKey (crypto w') = Some key /\
    entropy w' = entropy w /\ netlog w' = netlog w /\
    notifications w' = notifications w.
Proof.
  unfold key_usable, getOrCreateMasterKey.
  destruct (_encryptionKey (crypto w)) as [key|] eqn:Ek.
  { intros Hu. exists key, w. rewrite Ek. repeat split; auto. }
  destruct (_keyPromise (crypto w)) as [p|] eqn:Ep; [discriminate|].
  unfold loadOrGenerateKey, bind at 1. cbn [lookup_key].
  destruct (_masterKey (storage w)) as [[|c rest]|] eqn:Es.
  - intros _. eexists _, _. split; [reflexivity|]. cbn. repeat split.
  - unfold base64ToArrayBuffer_or_throw.
    destruct (base64ToArrayBuffer (String c rest)) as [keyData|]; [|discriminate].
    intros Hu. unfold importKey_AES_GCM, bind. cbn. rewrite Hu. cbn.
    eexists _, _. split; [reflexivity|]. cbn. repeat split. exact Hu.
  - intros _. eexists _, _. split; [reflexivity|]. cbn. repeat split.
Qed.

(** What one [encrypt] call does, from a usable key state: the key is
    obtained (and is cached afterwards), the next 12 bytes of the random
    source are the IV, and the blob holds the base64 of both. *)
Lemma encrypt_run w v :
  key_usable w = true ->
  exists key w',
    getOrCreateMasterKey P w = (Ok key, w') /\
    aes_key_length key = true /\
    _encryptionKey (crypto w') = Some key /\
    entropy w' = entropy w /\
    encrypt P v w =
      (Ok {| iv := arrayBufferToBase64 (map (entropy w') (seq (drawn w') 12));
             data := arrayBufferToBase64
                       (aes_gcm_encrypt P key
                          (map (entropy w') (seq (drawn w') 12))
                          (UTF8.encode (JSON_stringify P v))) |},
       with_drawn (drawn w' + 12) w').
Proof.
  intros Hu.
  destruct (getOrCreateMasterKey_usable w Hu) as (key & w' & Hk & Hlen & Hc & He & _).
  exists key, w'. repeat split; try assumption.
  unfold encrypt, bind. rewrite Hk. reflexivity.
Qed.

Lemma decrypt_run w key ivBytes dataBytes plain value :
  _encryptionKey (crypto w) = Some key ->
  aes_gcm_decrypt P key ivBytes dataBytes = Some plain ->
  JSON_parse P (UTF8.decode plain) = Some value ->
  decrypt P {| iv := arrayBufferToBase64 ivBytes;
               data := arrayBufferToBase64 dataBytes |} w = (Ok value, w).
Proof.
  intros Hk Hd Hp. unfold decrypt, bind.
  rewrite (getOrCreateMasterKey_cached w key Hk). cbn [iv data].
  unfold base64ToArrayBuffer_or_throw. rewrite !base64_roundtrip.
  unfold ret. now rewrite Hd, Hp.
Qed.

(** [hashPassword] never throws; the record holds the base64 of the 16
    bytes drawn and of the bits derived with them. *)
Lemma hashPassword_run password w :
  hashPassword P password w =
    (Ok {| salt := arrayBufferToBase64 (map (entropy w) (seq (drawn w) 16));
           hash := arrayBufferToBase64
                     (pbkdf2_sha256 P (UTF8.encode password)
                        (map (entropy w) (seq (drawn w) 16)) 100000 256) |},
     with_drawn (drawn w + 16) w).
Proof. reflexivity. Qed.

Lemma verifyPassword_run password saltBytes hashString w :
  verifyPassword P password
    {| salt := arrayBufferToBase64 saltBytes; hash := hashString |} w =
  (Ok (String.eqb
         (arrayBufferToBase64
            (pbkdf2_sha256 P (UTF8.encode password) saltBytes 100000 256))
         hashString), w).
Proof.
  unfold verifyPassword, bind, base64ToArrayBuffer_or_throw. cbn [salt hash].
  now rewrite base64_roundtrip.
Qed.

End CryptoFacts.

(** ** Secret store and session store *)

Lemma jseqb_eq (a b : jsstring) : jseqb a b = true <-> a = b.
Proof.
  revert b. induction a as [|x a IH]; intros [|y b]; cbn [jseqb];
    try (split; [discriminate|congruence]); [tauto|].
  rewrite andb_true_iff, N.eqb_eq, IH. split.
  - now intros [-> ->].
  - intros E. now injection E.
Qed.

Lemma jseqb_refl (a : jsstring) : jseqb a a = true.
Proof. now apply jseqb_eq. Qed.

Lemma find_none_iff sessionId (l : list Session) :
  List.find (has_id (Some sessionId)) l = None <-> ~ In sessionId (map id l).
Proof.
  induction l as [|s l IH]; cbn [List.find map In has_id]; [tauto|].
  destruct (jseqb (id s) sessionId) eqn:E.
  - apply jseqb_eq in E. split; [discriminate|]. intros H. exfalso. auto.
  - split.
    + intros H [H1|H1]; [|now apply IH].
      rewrite H1, jseqb_refl in E. discriminate.
    + intros H. apply IH. tauto.
Qed.

Lemma find_replace_first (p : Session -> bool) s s' l :
  List.find p l = Some s -> p s' = true ->
  List.find p (replace_first p s' l) = Some s'.
Proof.
  intros Hf Hp. induction l as [|x l IH]; [discriminate|].
  cbn [List.find replace_first] in *. destruct (p x) eqn:E.
  - cbn [List.find]. now rewrite Hp.
  - cbn [List.find]. rewrite E. now apply IH.
Qed.


Lemma slice_last_short {A} n (l : list A) :
  (length l <= n)%nat -> slice_last n l = l.
Proof.
  intros H. unfold slice_last.
  replace (length l - n)%nat with 0%nat by lia. reflexivity.
Qed.


Section StorageFacts.
Context (P : Platform).

(** One successful [addContentToSession] call. *)
Lemma addContentToSession_found sessionId title summary w s :
  session_of sessionId w = Some s ->
  exists s' w',
    addContentToSession P sessionId title summary w = (Ok (Some s'), w') /\
    session_of sessionId w' = Some s' /\
    id s' = id s /\
    notionPageId s' = notionPageId s /\
    contents s' =
      Some (slice_last 30
              (contents_of s ++
               [{| title := title; summary := substring0 300 summary;
                   timestamp := toISOString P (clock w (ticks w)) |}])) /\
    contentCount s' = Some (count_of s + 1)%Z /\
    total_of w' = (total_of w + 1)%Z /\
    clock w' = clock w /\ ticks w' = S (ticks w) /\
    netlog w' = netlog w /\ notifications w' = notifications w /\
    crypto w' = crypto w /\ remote w' = remote w /\
    runtime_messages w' = runtime_messages w /\
    activeSessionId (storage w') = activeSessionId (storage w).
Proof.
  unfold session_of, stored_sessions. intros Hf.
  cbv [addContentToSession bind getSessions StorageManager_get ret lookup_key].
  rewrite Hf.
  cbv [Date_toISOString bind Date_now ret StorageManager_set modify
       StorageManager_get lookup_key].
  eexists _, _. split; [reflexivity|].
  cbn [storage with_storage with_ticks write_key sessions totalNotes
       activeSessionId runtime_messages
       clock ticks netlog notifications crypto remote StorageManager_set
       modify snd fst id notionPageId contents contentCount total_of].
  split.
  { apply (find_replace_first _ s); [exact Hf|].
    cbn [has_id id]. apply find_some in Hf. apply (proj2 Hf). }
  split; [reflexivity|]. split; [reflexivity|].
  split.
  { f_equal. unfold contents_of.
    match goal with |- (if ?c then _ else _) = _ => destruct c eqn:E end;
      [reflexivity|].
    apply Nat.ltb_ge in E. now rewrite slice_last_short. }
  repeat split; reflexivity.
Qed.

(** A call with an id that [find] does not meet. *)
Lemma addContentToSession_missing sessionId title summary w :
  session_of sessionId w = None ->
  addContentToSession P sessionId title summary w = (Ok None, w).
Proof.
  unfold session_of, stored_sessions. intros Hf.
  cbv [addContentToSession bind getSessions StorageManager_get ret lookup_key].
  now rewrite Hf.
Qed.

(** [createSession] leaves a session with no contents and a count of 0,
    found under its id. *)
Lemma createSession_fresh name w :
  exists s w',
    createSession P name w = (Ok s, w') /\
    session_of (id s) w' = Some s /\
    contents_of s = [] /\ count_of s = 0%Z /\
    activeSessionId (storage w') = Some (id s).
Proof.
  cbv [createSession bind getSessions StorageManager_get ret lookup_key
       generateId Date_now getRandomValues Date_toISOString
       StorageManager_set setActiveSession modify].
  eexists _, _. split; [reflexivity|].
  unfold session_of, stored_sessions.
  cbn [storage with_storage with_drawn with_ticks write_key sessions
       activeSessionId List.find has_id id].
  rewrite jseqb_refl. repeat split.
Qed.

(** [getEncrypted] by cases: it returns what [decrypt] returns, and
    [null] both for a missing entry and for a [decrypt] that throws. *)
Lemma getEncrypted_run key w :
  match lookup_key (K_named (encrypted_name key)) (storage w) with
  | None => getEncrypted P key w = (Ok JNull, w)
  | Some blob =>
      match decrypt P blob w with
      | (Ok value, w') => getEncrypted P key w = (Ok value, w')
      | (Throw e, w') => getEncrypted P key w = (Ok JNull, w')
      end
  end.
Proof.
  cbv [getEncrypted bind StorageManager_get ret try_catch].
  destruct (lookup_key (K_named (encrypted_name key)) (storage w)) as [blob|];
    [|reflexivity].
  now destruct (decrypt P blob w) as [[value|e] w'].
Qed.


End StorageFacts.

(** ** The capture flow *)

Lemma keeps_refl w : keeps_outside_keys w w.
Proof. now split. Qed.

Lemma keeps_trans w1 w2 w3 :
  keeps_outside_keys w1 w2 -> keeps_outside_keys w2 w3 -> keeps_outside_keys w1 w3.
Proof. intros [] []. split; congruence. Qed.

Section BackgroundFacts.
Context (P : Platform).

Lemma loadOrGenerateKey_keeps w r w' :
  loadOrGenerateKey P w = (r, w') -> keeps_outside_keys w w'.
Proof.
  cbv [loadOrGenerateKey bind ret lookup_key].
  destruct (_masterKey (storage w)) as [[|c rest]|].
  - intros [= <- <-]. now split.
  - cbv [base64ToArrayBuffer_or_throw].
    destruct (base64ToArrayBuffer (String c rest)) as [keyData|].
    + cbv [ret importKey_AES_GCM]. destruct (aes_key_length keyData).
      * intros [= <- <-]. now split.
      * intros [= <- <-]. now split.
    + intros [= <- <-]. now split.
  - intros [= <- <-]. now split.
Qed.

Lemma getOrCreateMasterKey_keeps w r w' :
  getOrCreateMasterKey P w = (r, w') -> keeps_outside_keys w w'.
Proof.
  unfold getOrCreateMasterKey.
  destruct (_encryptionKey (crypto w)); [intros [= <- <-]; apply keeps_refl|].
  destruct (_keyPromise (crypto w)); [intros [= <- <-]; apply keeps_refl|].
  destruct (loadOrGenerateKey P w) as [[key|e] w1] eqn:E;
    apply loadOrGenerateKey_keeps in E; destruct E;
    intros [= <- <-]; now split.
Qed.

Lemma decrypt_keeps blob w r w' :
  decrypt P blob w = (r, w') -> keeps_outside_keys w w'.
Proof.
  unfold decrypt, bind at 1.
  destruct (getOrCreateMasterKey P w) as [[key|e] w1] eqn:E;
    apply getOrCreateMasterKey_keeps in E; [|now intros [= <- <-]].
  cbv [bind base64ToArrayBuffer_or_throw ret throw].
  destruct (base64ToArrayBuffer (iv blob)); [|now intros [= <- <-]].
  destruct (base64ToArrayBuffer (data blob)); [|now intros [= <- <-]].
  destruct (aes_gcm_decrypt P key l l0); [|now intros [= <- <-]].
  destruct (JSON_parse P (UTF8.decode l1)); now intros [= <- <-].
Qed.

Lemma getEncrypted_keeps key w r w' :
  getEncrypted P key w = (r, w') -> keeps_outside_keys w w'.
Proof.
  pose proof (getEncrypted_run P key w) as H.
  destruct (lookup_key (K_named (encrypted_name key)) (storage w)) as [blob|].
  - destruct (decrypt P blob w) as [[value|e] w1] eqn:E;
      apply decrypt_keeps in E; rewrite H; now intros [= <- <-].
  - rewrite H. intros [= <- <-]. apply keeps_refl.
Qed.

(** [processWithGroq] never throws and sends exactly one request. *)
Lemma processWithGroq_run apiKey selectedText sessionContext w :
  let log := netlog w ++ [groq_request apiKey selectedText sessionContext] in
  processWithGroq apiKey selectedText sessionContext w =
    (Ok (structured_of (groq_reply (remote w) log) selectedText),
     with_netlog log w).
Proof.
  cbv [processWithGroq try_catch bind fetch ret throw groq_request].
  now destruct (groq_reply (remote w) _).
Qed.

Lemma appendToNotionPage_run credentials pageId content sourceUrl connections
    sectionTitle w :
  appendToNotionPage P credentials pageId content sourceUrl connections
    sectionTitle w =
  match source_line P sourceUrl with
  | None => (Throw (builtin P "TypeError"), w)
  | Some source =>
      let log := netlog w ++
                 [NotionAppendChildren credentials pageId
                    (section_children sectionTitle content connections source)] in
      (notion_result (notion_append_reply (remote w) log), with_netlog log w)
  end.
Proof.
  cbv [appendToNotionPage source_blocks bind].
  destruct (source_line P sourceUrl) as [source|]; [|reflexivity].
  cbv [ret fetch notion_result throw].
  now destruct (notion_append_reply (remote w) _) as [| | |[]].
Qed.

Lemma createNotionPage_run credentials sessionName content sourceUrl
    sectionTitle w :
  createNotionPage P credentials sessionName content sourceUrl sectionTitle w =
  let log1 := netlog w ++ [NotionGetDatabase credentials] in
  match notion_schema_reply (remote w) log1 with
  | Body properties =>
      match source_line P sourceUrl with
      | None => (Throw (builtin P "TypeError"), with_netlog log1 w)
      | Some source =>
          let log2 := log1 ++
                      [NotionCreatePage credentials (titlePropertyName properties)
                         sessionName (page_children sectionTitle content source)] in
          (notion_result (notion_create_reply (remote w) log2),
           with_netlog log2 w)
      end
  | Unreachable e => (Throw e, with_netlog log1 w)
  | Status message statusText =>
      (Throw (Exception "Error"
                (js "Notion API error: " ++ message_or message statusText)),
       with_netlog log1 w)
  | Unusable e => (Throw e, with_netlog log1 w)
  end.
Proof.
  cbv [createNotionPage bind fetch throw]. cbv zeta.
  destruct (notion_schema_reply (remote w) _) as [e|m st|e|properties];
    try reflexivity.
  cbv [source_blocks]. destruct (source_line P sourceUrl) as [source|];
    [|reflexivity].
  cbv [ret notion_result]. cbn [remote with_netlog netlog].
  now destruct (notion_create_reply (remote w) _).
Qed.

Lemma getSessionContext_run sessionId w :
  getSessionContext sessionId w = (Ok (context_of sessionId w), w).
Proof.
  cbv [getSessionContext bind getSessions StorageManager_get ret lookup_key
       context_of session_of stored_sessions].
  now destruct (List.find _ _).
Qed.

Lemma getActiveSession_run w :
  getActiveSession w =
  (Ok (List.find (has_id (activeSessionId (storage w))) (stored_sessions w)), w).
Proof. reflexivity. Qed.

Lemma updateSession_found sessionId updates w s :
  session_of sessionId w = Some s ->
  updateSession sessionId updates w =
  (Ok (Some (merge s updates)),
   with_storage
     (write_key K_sessions
        (replace_first (has_id (Some sessionId)) (merge s updates)
           (stored_sessions w))) w).
Proof.
  unfold session_of. intros Hf.
  cbv [updateSession bind getSessions StorageManager_get ret lookup_key].
  fold (stored_sessions w). now rewrite Hf.
Qed.

Lemma updateSession_missing sessionId updates w :
  session_of sessionId w = None ->
  updateSession sessionId updates w = (Ok None, w).
Proof.
  unfold session_of. intros Hf.
  cbv [updateSession bind getSessions StorageManager_get ret lookup_key].
  fold (stored_sessions w). now rewrite Hf.
Qed.

Lemma Validated_keeps w sessionId apiKey credentials w3 :
  Validated P w sessionId apiKey credentials w3 ->
  keeps_outside_keys (processing w) w3.
Proof.
  intros [_ _ _ _ (w2 & H1 & _ & H2 & _)].
  apply getEncrypted_keeps in H1, H2. eapply keeps_trans; eassumption.
Qed.

(** When the checks pass, [handleMapping] is the structuring and storing
    part, run after the secrets were read, under the [catch]. *)
Lemma handleMapping_validated selectedText sourceUrl tabId w sessionId apiKey
    credentials w3 :
  Validated P w sessionId apiKey credentials w3 ->
  handleMapping P selectedText sourceUrl tabId w =
  try_catch
    (structure_and_store P selectedText sourceUrl tabId sessionId
       (context_of sessionId w) apiKey credentials)
    (report tabId) w3.
Proof.
  intros [Hs Hl Ha Hn (w2 & H1 & T1 & H2 & T2)].
  unfold handleMapping, try_catch at 1.
  cbv [bind StorageManager_get lookup_key]. rewrite Hs.
  destruct (isLocked (storage w)) as [[|]|] eqn:El; try congruence.
  all: rewrite Ha; destruct sessionId as [|c sid]; [discriminate|].
  all: cbv [sendNotification modify]; fold (processing w).
  all: rewrite getSessionContext_run, H1, T1; cbn [negb].
  all: rewrite H2, T2; cbn [negb].
  all: change (context_of (c :: sid) (processing w))
         with (context_of (c :: sid) w).
  all: unfold try_catch, report;
    now destruct (structure_and_store _ _ _ _ _ _ _ _ _) as [[[]|e] w'].
Qed.

Lemma record_capture_run tabId sessionId sectionTitle selectedText w s :
  session_of sessionId w = Some s ->
  exists s' w',
    record_capture P tabId sessionId sectionTitle selectedText w = (Ok tt, w') /\
    netlog w' = netlog w /\
    notifications w' = notifications w ++ [success_notification] /\
    runtime_messages w' = runtime_messages w ++ [MAPPING_COMPLETE] /\
    session_of sessionId w' = Some s' /\
    notionPageId s' = notionPageId s /\
    contents s' =
      Some (slice_last 30
              (contents_of s ++
               [{| title := sectionTitle;
                   summary := substring0 300 (substring0 300 selectedText);
                   timestamp := toISOString P (clock w (ticks w)) |}])) /\
    count_of s' = (count_of s + 1)%Z /\
    total_of w' = (total_of w + 1)%Z.
Proof.
  intros Hs.
  destruct (addContentToSession_found P sessionId sectionTitle
              (substring0 300 selectedText) w s Hs)
    as (s' & w' & Hadd & Hs' & _ & Hp' & Hc' & Hn' & Ht' & _ & _ & Hlog & Hnot
        & _ & _ & Hrt & _).
  unfold record_capture, bind at 1. rewrite Hadd.
  exists s'. eexists. split; [reflexivity|].
  cbn [netlog notifications runtime_messages sendNotification sendMessage
       modify bind snd fst with_notifications with_runtime_messages].
  split; [exact Hlog|]. split; [now rewrite Hnot|]. split; [now rewrite Hrt|].
  split; [exact Hs'|]. split; [exact Hp'|]. split; [exact Hc'|].
  split; [unfold count_of at 1; now rewrite Hn'|exact Ht'].
Qed.

(** Storing when the active session has a page: one append request, then
    the capture is recorded; the builder's exception propagates. *)
Lemma store_append selectedText sourceUrl tabId w sessionId sessionContext
    apiKey credentials s pageId :
  activeSessionId (storage w) = Some sessionId ->
  session_of sessionId w = Some s ->
  notionPageId s = Some pageId -> nonempty pageId = true ->
  let log_g := netlog w ++ [groq_request apiKey selectedText sessionContext] in
  let sd := structured_of (groq_reply (remote w) log_g) selectedText in
  structure_and_store P selectedText sourceUrl tabId sessionId
    sessionContext apiKey credentials w =
  match source_line P sourceUrl with
  | None => (Throw (builtin P "TypeError"), with_netlog log_g w)
  | Some source =>
      let log := log_g ++
                 [NotionAppendChildren credentials pageId
                    (section_children (data_sectionTitle sd) selectedText
                       (data_connections sd) source)] in
      match notion_result (notion_append_reply (remote w) log) with
      | Ok _ =>
          record_capture P tabId sessionId (data_sectionTitle sd) selectedText
            (with_netlog log w)
      | Throw e => (Throw e, with_netlog log w)
      end
  end.
Proof.
  intros Ha Hs Hp Hne log_g sd.
  unfold structure_and_store. unfold bind at 1.
  rewrite processWithGroq_run. cbv zeta. fold log_g. fold sd.
  unfold bind at 1. rewrite getActiveSession_run.
  cbn [storage with_netlog]. rewrite Ha.
  change (List.find (has_id (Some sessionId)) (stored_sessions (with_netlog log_g w)))
    with (session_of sessionId w).
  rewrite Hs.
  destruct s as [sid sname sat spage scontents scount]. cbn [notionPageId] in Hp.
  subst spage. destruct pageId as [|c0 pageId]; [discriminate|].
  cbv iota. unfold bind at 1. rewrite appendToNotionPage_run.
  destruct (source_line P sourceUrl) as [source|]; [|reflexivity].
  cbn [netlog remote with_netlog]. cbv zeta.
  now destruct (notion_result (notion_append_reply (remote w) _)) as [[]|e].
Qed.


(** Recording a capture under an id that meets no session: nothing is
    stored, success is notified all the same. *)
Lemma record_capture_missing tabId sessionId sectionTitle selectedText w :
  session_of sessionId w = None ->
  record_capture P tabId sessionId sectionTitle selectedText w =
  (Ok tt,
   with_runtime_messages (runtime_messages w ++ [MAPPING_COMPLETE])
     (with_notifications (notifications w ++ [success_notification]) w)).
Proof.
  intros Hs. unfold record_capture, bind at 1.
  now rewrite (addContentToSession_missing P _ _ _ _ Hs).
Qed.

(** What the world after the checks shares with the world before. *)
Lemma Validated_world w sessionId apiKey credentials w3 :
  Validated P w sessionId apiKey credentials w3 ->
  netlog w3 = netlog w /\ remote w3 = remote w /\
  notifications w3 = notifications w ++ [processing_notification] /\
  runtime_messages w3 = runtime_messages w /\
  activeSessionId (storage w3) = Some sessionId /\
  (forall i, session_of i w3 = session_of i w) /\
  clock w3 = clock w /\ ticks w3 = ticks w /\ total_of w3 = total_of w.
Proof.
  intros V. pose proof (Validated_keeps _ _ _ _ _ V) as K.
  destruct V as [_ _ Ha _ _].
  destruct K as [_ _ Kact Ksess Ktot _ Kclock Kticks Krem Klog Knot Krt].
  unfold processing_notification.
  cbn [processing storage netlog remote notifications runtime_messages clock
       ticks with_notifications] in *.
  split; [congruence|]. split; [congruence|]. split; [congruence|].
  split; [congruence|]. split; [congruence|].
  split; [intros i; unfold session_of, stored_sessions; now rewrite Ksess|].
  split; [congruence|]. split; [congruence|].
  unfold total_of. now rewrite Ktot.
Qed.

End BackgroundFacts.

(** ** Whole captures *)

Section CaptureFacts.
Context (P : Platform).


End CaptureFacts.

(** ** Validation *)

Section ValidationFacts.
Context (P : Platform).

Lemma getEncrypted_total key w :
  exists value w', getEncrypted P key w = (Ok value, w').
Proof.
  pose proof (getEncrypted_run P key w) as H.
  destruct (lookup_key (K_named (encrypted_name key)) (storage w)) as [blob|];
    [|eauto].
  destruct (decrypt P blob w) as [[value|e] w']; eauto.
Qed.

(** A capture either passes the five checks, or is refused with one
    error notification without a request being sent. *)
Lemma handleMapping_validated_or_refused selectedText sourceUrl tabId w :
  (exists sessionId apiKey credentials w3,
      Validated P w sessionId apiKey credentials w3) \/
  (exists w' reason,
      handleMapping P selectedText sourceUrl tabId w = (Ok tt, w') /\
      netlog w' = netlog w /\
      runtime_messages w' = runtime_messages w /\
      List.last (notifications w') processing_notification =
        {| message := reason; notificationType := "error" |} /\
      In reason [js "Please complete setup first";
                 js "Extension is locked. Please unlock first.";
                 js "No active session. Please create one first.";
                 js "Groq API key not found";
                 js "Notion credentials not found"]).
Proof.
  destruct (setupComplete (storage w)) as [[|]|] eqn:Hs;
    [|right; eexists _, _; split;
       [cbv [handleMapping try_catch bind StorageManager_get lookup_key];
        rewrite Hs; reflexivity|];
       cbn; rewrite last_last; repeat split; auto ..].
  destruct (isLocked (storage w)) as [[|]|] eqn:Hl;
    [right; eexists _, _; split;
       [cbv [handleMapping try_catch bind StorageManager_get lookup_key];
        rewrite Hs, Hl; reflexivity|];
       cbn; rewrite last_last; repeat split; auto | |].
  all: destruct (activeSessionId (storage w)) as [[|c sid]|] eqn:Ha;
    [right; eexists _, _; split;
       [cbv [handleMapping try_catch bind StorageManager_get lookup_key];
        rewrite Hs, Hl, Ha; reflexivity|];
       cbn; rewrite last_last; repeat split; auto 6
    | |right; eexists _, _; split;
       [cbv [handleMapping try_catch bind StorageManager_get lookup_key];
        rewrite Hs, Hl, Ha; reflexivity|];
       cbn; rewrite last_last; repeat split; auto 6].
  all: destruct (getEncrypted_total "groqApiKey" (processing w))
         as (apiKey & w2 & H1);
    destruct (truthy apiKey) eqn:T1;
    [destruct (getEncrypted_total "notionCredentials" w2)
       as (credentials & w3 & H2);
     destruct (truthy credentials) eqn:T2;
     [left; exists (c :: sid), apiKey, credentials, w3;
      split; try assumption; try congruence; [reflexivity|eauto 10]|]|].
  all: right.
  all: pose proof (getEncrypted_keeps P _ _ _ _ H1) as K1.
  all: try pose proof (getEncrypted_keeps P _ _ _ _ H2) as K2.
  all: eexists _, _; split;
    [cbv [handleMapping try_catch bind StorageManager_get lookup_key];
     rewrite Hs, Hl, Ha; cbv [sendNotification modify]; fold (processing w);
     rewrite getSessionContext_run, H1, T1; cbn [negb];
     rewrite ?H2, ?T2; cbn [negb]; reflexivity|].
  all: cbn [netlog notifications runtime_messages with_notifications];
    rewrite last_last.
  all: try destruct K2; destruct K1;
    cbn [processing netlog runtime_messages with_notifications] in *.
  all: split; [congruence|]; split; [congruence|]; split; [reflexivity|];
    cbn; auto 6.
Qed.

End ValidationFacts.

(** ** Words *)




(** ** Overlapping calls: the invariant *)

Module SingleFlightFacts.
Import SingleFlight.

Section Invariant.
Context (fresh : nat -> list byte).

Lemma inv_initial n : inv fresh (initial n).
Proof.
  cbn. repeat split. apply Forall_forall. intros c Hc.
  now apply elem_of_replicate in Hc.
Qed.

Lemma caller_ok_weaken (l : list Caller) :
  Forall (fun c => c = NotStarted) l -> Forall (caller_ok fresh) l.
Proof. intros H. eapply Forall_impl; [exact H|]. intros c ->. now left. Qed.

Lemma lookup_one {A} (q x : A) (p : nat) :
  [q] !! p = Some x -> p = 0%nat /\ x = q.
Proof. destruct p as [|p]; cbn; [intros [= <-]; auto|]. now destruct p. Qed.

Lemma start_inv i s s' : inv fresh s -> start i s = Some s' -> inv fresh s'.
Proof.
  unfold inv, start. intros Hinv.
  destruct (callers s !! i) as [[| | | |]|] eqn:Ei; try discriminate.
  destruct (creations s) as [|q [|q' rest]] eqn:Ec; [| |contradiction].
  - destruct Hinv as (Hk & Hp & Hm & Hg & Hall).
    rewrite Hk, Hp. intros [= <-]. cbn.
    split; [|now repeat split].
    apply Forall_insert; [now apply caller_ok_weaken|]. right. now left.
  - destruct Hinv as (Hall & Hq).
    destruct q as [| | |key|b|key|]; try contradiction.
    + destruct Hq as (Hk & Hg & Hp & Hm). rewrite Hk, Hp. intros [= <-].
      cbn. split; [|now repeat split].
      apply Forall_insert; [exact Hall|]. right. right. now left.
    + destruct Hq as (Hk & Hg & Hp & Hm). rewrite Hk, Hp. intros [= <-].
      cbn. split; [|now repeat split].
      apply Forall_insert; [exact Hall|]. right. right. now left.
    + destruct Hq as (He & Hk & Hg & Hp & Hm). rewrite Hk. intros [= <-].
      cbn. split; [|now repeat split].
      apply Forall_insert; [exact Hall|]. now repeat right.
    + destruct Hq as (He & Hk & Hg & Hp & Hm). rewrite Hk. intros [= <-].
      cbn. split; [|now repeat split].
      apply Forall_insert; [exact Hall|]. now repeat right.
    + destruct Hq as (He & Hk & Hg & Hp & Hm). rewrite Hk. intros [= <-].
      cbn. split; [|now repeat split].
      apply Forall_insert; [exact Hall|]. now repeat right.
Qed.

Lemma resume_inv p s s' : inv fresh s -> resume fresh p s = Some s' -> inv fresh s'.
Proof.
  unfold inv, resume. intros Hinv.
  destruct (creations s) as [|q [|q' rest]] eqn:Ec; [| |contradiction].
  - now rewrite lookup_nil.
  - destruct (([q] : list Creation) !! p) as [x|] eqn:Ep; [|discriminate].
    apply lookup_one in Ep. destruct Ep as [-> ->].
    destruct Hinv as (Hall & Hq).
    destruct q as [| | |key|b|key|]; try contradiction.
    + destruct Hq as (Hk & Hg & Hp & Hm). rewrite Hm. intros [= <-].
      cbn. now repeat split.
    + destruct Hq as (Hk & Hg & Hp & Hm). intros [= <-].
      cbn. rewrite Hg. now repeat split.
    + destruct Hq as (He & Hk & Hg & Hp & Hm). intros [= <-].
      cbn. subst key. now repeat split.
    + destruct Hq as (He & Hk & Hg & Hp & Hm). intros [= <-].
      cbn. subst b. repeat split; auto.
    + discriminate.
Qed.

Lemma finish_inv i s s' : inv fresh s -> finish i s = Some s' -> inv fresh s'.
Proof.
  unfold inv, finish. intros Hinv.
  destruct (callers s !! i) as [c|] eqn:Ei; [|discriminate].
  destruct (creations s) as [|q [|q' rest]] eqn:Ec; [| |contradiction].
  - destruct c; try discriminate; now rewrite lookup_nil.
  - destruct Hinv as (Hall & Hq).
    assert (Hc : caller_ok fresh c) by (eapply Forall_lookup_1; eassumption).
    destruct c as [|p|p| |]; try discriminate;
      destruct Hc as [Hc|[Hc|[Hc|Hc]]]; try discriminate;
      injection Hc as ->; cbn [lookup list_lookup];
      destruct q as [| | |key|b|key|]; try discriminate; try contradiction;
      destruct Hq as (He & Hk & Hg & Hp & Hm); intros [= <-]; cbn;
      (split; [apply Forall_insert; [exact Hall|subst key; now repeat right]
              |repeat split; auto]).
Qed.

Lemma step_inv a s s' : inv fresh s -> step fresh s a = Some s' -> inv fresh s'.
Proof.
  destruct a; cbn [step]; eauto using start_inv, resume_inv, finish_inv.
Qed.

Lemma run_inv schedule : forall s s',
  inv fresh s -> run fresh s schedule = Some s' -> inv fresh s'.
Proof.
  induction schedule as [|a rest IH]; intros s s' Hinv; cbn [run].
  - now intros [= <-].
  - destruct (step fresh s a) as [s1|] eqn:E; [|discriminate].
    apply IH. eapply step_inv; eassumption.
Qed.

(** The callers do not come or go. *)
Lemma step_callers_length a s s' :
  step fresh s a = Some s' -> length (callers s') = length (callers s).
Proof.
  destruct a as [i|p|i]; cbn [step]; unfold start, resume, finish;
    repeat match goal with
           | |- context [match ?x with _ => _ end] => destruct x
           end;
    try discriminate; intros [= <-]; cbn [callers];
    rewrite ?length_insert; reflexivity.
Qed.

Lemma run_callers_length schedule : forall s s',
  run fresh s schedule = Some s' -> length (callers s') = length (callers s).
Proof.
  induction schedule as [|a rest IH]; intros s s'; cbn [run].
  - now intros [= <-].
  - destruct (step fresh s a) as [s1|] eqn:E; [|discriminate].
    intros H. rewrite (IH _ _ H). eapply step_callers_length; eassumption.
Qed.

(** *** Progress *)

Lemma all_returned_or_not (l : list Caller) :
  Forall (fun c => has_returned c = true) l \/
  exists i c, l !! i = Some c /\ has_returned c = false.
Proof.
  induction l as [|c l [IH|(i & c' & Hi & Hc)]].
  - left. constructor.
  - destruct (has_returned c) eqn:E.
    + left. now constructor.
    + right. now exists 0%nat, c.
  - right. now exists (S i), c'.
Qed.

(** Unless every caller has returned, something can run. *)
Lemma inv_progress s :
  inv fresh s ->
  Forall (fun c => has_returned c = true) (callers s) \/
  exists a s', step fresh s a = Some s'.
Proof.
  intros Hinv. destruct (all_returned_or_not (callers s)) as [H|(i & c & Hi & Hc)];
    [now left|right].
  unfold inv in Hinv.
  destruct (creations s) as [|q [|q' rest]] eqn:Ec; [| |contradiction].
  - destruct Hinv as (Hk & Hp & _ & _ & Hall).
    assert (c = NotStarted) by (eapply Forall_lookup_1 in Hall; eauto). subst c.
    exists (Start i). cbn [step]. unfold start. rewrite Hi, Hk, Hp. eauto.
  - destruct Hinv as (Hall & Hq).
    assert (Hok : caller_ok fresh c) by (eapply Forall_lookup_1; eassumption).
    destruct Hok as [ -> | [ -> | [ -> | -> ] ] ]; [ | | | discriminate ].
    + exists (Start i). cbn [step]. unfold start. rewrite Hi.
      destruct (encryptionKey s); [eauto|]. destruct (keyPromise s); eauto.
    + destruct q as [| | |key|b|key|]; try contradiction;
        try (exists (Resume 0); cbn [step]; unfold resume; rewrite Ec;
             cbn [lookup list_lookup]; eauto; fail).
      exists (Finish i). cbn [step]. unfold finish. rewrite Hi, Ec.
      cbn [lookup list_lookup]. eauto.
    + destruct q as [| | |key|b|key|]; try contradiction;
        try (exists (Resume 0); cbn [step]; unfold resume; rewrite Ec;
             cbn [lookup list_lookup]; eauto; fail).
      exists (Finish i). cbn [step]. unfold finish. rewrite Hi, Ec.
      cbn [lookup list_lookup]. eauto.
Qed.

(** *** Termination *)

Lemma total_app {A} (f : A -> nat) (l l' : list A) :
  total f (l ++ l') = (total f l + total f l')%nat.
Proof. induction l as [|x l IH]; cbn [total app]; lia. Qed.

Lemma sum_insert {A} (f : A -> nat) (l : list A) i x old :
  l !! i = Some old ->
  (total f (<[i := x]> l) + f old = total f l + f x)%nat.
Proof.
  revert i. induction l as [|y l IH]; intros [|i]; try discriminate.
  - intros [= ->]. cbn. lia.
  - intros H. specialize (IH i H).
    change (<[S i := x]> (y :: l)) with (y :: <[i := x]> l).
    cbn [total]. lia.
Qed.

Lemma step_weight a s s' :
  step fresh s a = Some s' -> (weight s' < weight s)%nat.
Proof.
  unfold weight. destruct a as [i|p|i]; cbn [step].
  - unfold start. destruct (callers s !! i) as [[| | | |]|] eqn:Ei; try discriminate.
    pose proof (fun x => sum_insert caller_weight (callers s) i x _ Ei) as Hs.
    destruct (encryptionKey s); [|destruct (keyPromise s)];
      intros [= <-]; cbn [callers creations];
      [specialize (Hs (Returned (Some l)))
      |specialize (Hs (Follower n))
      |specialize (Hs (Creator (length (creations s))));
       rewrite total_app];
      cbn in *; lia.
  - unfold resume. destruct (creations s !! p) as [q|] eqn:Ep; [|discriminate].
    pose proof (fun x => sum_insert creation_weight (creations s) p x _ Ep) as Hs.
    destruct q as [|keyData| |key|b|key|]; try discriminate.
    + intros [= <-]. cbn [callers creations].
      match goal with |- context [<[p := ?x]> _] => specialize (Hs x) end.
      destruct (masterKey s) as [[|c r]|]; [| |];
        try destruct (base64ToArrayBuffer _); cbn in *; lia.
    + destruct (aes_key_length keyData); intros [= <-]; cbn [callers creations];
        match goal with |- context [<[p := ?x]> _] => specialize (Hs x) end;
        cbn in *; lia.
    + intros [= <-]. cbn [callers creations].
      match goal with |- context [<[p := ?x]> _] => specialize (Hs x) end.
      cbn in *; lia.
    + intros [= <-]. cbn [callers creations].
      match goal with |- context [<[p := ?x]> _] => specialize (Hs x) end.
      cbn in *; lia.
    + intros [= <-]. cbn [callers creations].
      match goal with |- context [<[p := ?x]> _] => specialize (Hs x) end.
      cbn in *; lia.
  - unfold finish. destruct (callers s !! i) as [[|p|p| |]|] eqn:Ei; try discriminate;
      pose proof (fun x => sum_insert caller_weight (callers s) i x _ Ei) as Hs;
      destruct (creations s !! p) as [[| | | | |key|]|]; try discriminate;
      intros [= <-]; cbn [callers creations];
      match goal with |- context [<[i := ?x]> _] => specialize (Hs x) end;
      cbn in *; lia.
Qed.

Lemma run_weight schedule : forall s s',
  run fresh s schedule = Some s' -> (length schedule + weight s' <= weight s)%nat.
Proof.
  induction schedule as [|a rest IH]; intros s s'; cbn [run length].
  - intros [= <-]. lia.
  - destruct (step fresh s a) as [s1|] eqn:E; [|discriminate].
    intros H. apply IH in H. apply step_weight in E. lia.
Qed.

Lemma weight_initial n : weight (initial n) = (7 * n)%nat.
Proof.
  unfold weight, initial. cbn [callers creations total].
  induction n as [|n IH]; cbn in *; lia.
Qed.

End Invariant.
End SingleFlightFacts.

(** * Encryption engine *)

(** C1. For every JSON-serializable value [v], from any state in which a
    key can be obtained, [encrypt(v)] returns a blob and [decrypt] of that
    blob, under the same master key, returns [v]. *)
Theorem encrypt_decrypt_roundtrip (P : Platform) (w : World) (v : JSON) :
  PlatformLaws P ->
  key_usable w = true ->
  JSON_serializable P v ->
  exists blob w1,
    encrypt P v w = (Ok blob, w1) /\
    decrypt P blob w1 = (Ok v, w1).
Proof.
  intros HP Hu Hv.
  destruct (encrypt_run P w v Hu) as (key & w' & _ & Hlen & Hc & _ & He).
  eexists _, _. split; [exact He|].
  apply (decrypt_run P _ key _ _ (UTF8.encode (JSON_stringify P v))).
  - exact Hc.
  - now apply (aes_gcm_correct P HP).
  - destruct (stringify_well_formed P HP v) as [Hwf Hb].
    rewrite UTF8Facts.decode_encode by assumption. exact Hv.
Qed.

Lemma encrypt_decrypt_roundtrip_witness :
  exists blob w1,
    encrypt Toy.platform (JBool true) (Toy.installed Toy.silent) = (Ok blob, w1) /\
    decrypt Toy.platform blob w1 = (Ok (JBool true), w1).
Proof.
  apply (encrypt_decrypt_roundtrip Toy.platform (Toy.installed Toy.silent) (JBool true)).
  - exact ToyFacts.laws.
  - reflexivity.
  - reflexivity.
Defined.



(** C4, as amended. For every password [p], [hashPassword(p)] returns a
    record, and [verifyPassword(p, record)] returns true. For every
    password [p2], [verifyPassword(p2, record)] returns a boolean without
    throwing: it recomputes PBKDF2 (100,000 iterations, SHA-256, 256
    bits) with the stored salt and returns true exactly when the whole
    derived output equals the stored one, so false whenever the two
    derivations differ. *)
Theorem verifyPassword_hashPassword (P : Platform) (p : jsstring) (w : World) :
  exists record w1 saltBytes,
    hashPassword P p w = (Ok record, w1) /\
    base64ToArrayBuffer (salt record) = Some saltBytes /\
    length saltBytes = 16%nat /\
    (forall w2, verifyPassword P p record w2 = (Ok true, w2)) /\
    (forall p2 w2, exists b,
        verifyPassword P p2 record w2 = (Ok b, w2) /\
        (b = true <->
         pbkdf2_sha256 P (UTF8.encode p2) saltBytes 100000 256 =
         pbkdf2_sha256 P (UTF8.encode p) saltBytes 100000 256)).
Proof.
  rewrite hashPassword_run. eexists _, _, _. split; [reflexivity|].
  cbn [salt]. split; [apply base64_roundtrip|].
  split; [now rewrite length_map, length_seq|].
  split.
  - intros w2. rewrite verifyPassword_run. now rewrite String.eqb_refl.
  - intros p2 w2. eexists. split; [apply verifyPassword_run|].
    rewrite String.eqb_eq. split.
    + apply arrayBufferToBase64_inj.
    + now intros ->.
Qed.

(** Two different passwords that [TextEncoder] sends to the same bytes
    verify against each other's record, on every platform. *)
Lemma lone_surrogate_passwords (P : Platform) (w : World) :
  let p := [0xD800] in
  let p2 := [0xD801] in
  p2 <> p /\
  exists record w1,
    hashPassword P p w = (Ok record, w1) /\
    verifyPassword P p2 record w1 = (Ok true, w1).
Proof.
  cbv zeta. split; [discriminate|].
  rewrite hashPassword_run. eexists _, _. split; [reflexivity|].
  rewrite verifyPassword_run.
  change (UTF8.encode [0xD801]) with (UTF8.encode [0xD800]).
  now rewrite String.eqb_refl.
Qed.

(** C4, as stated, fails: the password U+D801 differs from the password
    U+D800, [TextEncoder] sends both to the bytes EF BF BD, and U+D801 is
    accepted for the record of U+D800. *)
Lemma verifyPassword_accepts_other_password :
  let w := Toy.installed Toy.silent in
  let p := [0xD800] in
  let p2 := [0xD801] in
  p2 <> p /\
  UTF8.encode p = [xef; xbf; xbd] /\
  UTF8.encode p2 = [xef; xbf; xbd] /\
  exists record w1,
    hashPassword Toy.platform p w = (Ok record, w1) /\
    verifyPassword Toy.platform p2 record w1 = (Ok true, w1).
Proof.
  cbv zeta. split; [discriminate|].
  split; [reflexivity|]. split; [reflexivity|].
  exact (proj2 (lone_surrogate_passwords Toy.platform
                  (Toy.installed Toy.silent))).
Qed.

(** * Secret store *)

(** C2, as amended. For every secret key name, [getSecret] never throws:
    it returns [null] when no entry is stored under the namespaced name,
    and also when the decryption of the stored entry fails (malformed IV
    or ciphertext, authentication failure, wrong key): the failure is
    caught, not propagated. When decryption succeeds it returns the
    decrypted value. *)
Theorem getEncrypted_never_throws (P : Platform) (key : string) (w : World) :
  (exists value w', getEncrypted P key w = (Ok value, w')) /\
  (lookup_key (K_named (encrypted_name key)) (storage w) = None ->
   getEncrypted P key w = (Ok JNull, w)) /\
  (forall blob e w',
      lookup_key (K_named (encrypted_name key)) (storage w) = Some blob ->
      decrypt P blob w = (Throw e, w') ->
      getEncrypted P key w = (Ok JNull, w')) /\
  (forall blob value w',
      lookup_key (K_named (encrypted_name key)) (storage w) = Some blob ->
      decrypt P blob w = (Ok value, w') ->
      getEncrypted P key w = (Ok value, w')).
Proof.
  pose proof (getEncrypted_run P key w) as H.
  split; [|split; [|split]].
  - destruct (lookup_key (K_named (encrypted_name key)) (storage w))
      as [blob|]; [|eauto].
    destruct (decrypt P blob w) as [[value|e] w']; eauto.
  - intros E. now rewrite E in H.
  - intros blob e w' E D. now rewrite E, D in H.
  - intros blob value w' E D. now rewrite E, D in H.
Qed.

(** A stored entry that was tampered with (its last ciphertext byte
    flipped) fails authentication, and the secret reads as [null]. *)
Lemma getEncrypted_never_throws_witness :
  let w0 := Scenario.ready Toy.silent in
  let stored := {| iv := "AAAAAAAAAAAAAAAA"; data := "AA==" |} in
  let w := with_storage
             (write_key (K_named (encrypted_name "groqApiKey")) stored) w0 in
  getEncrypted Toy.platform "groqApiKey" w =
    (Ok JNull, snd (decrypt Toy.platform stored w)).
Proof.
  cbv zeta.
  apply (proj1 (proj2 (proj2 (getEncrypted_never_throws Toy.platform
                                "groqApiKey" _)))
           {| iv := "AAAAAAAAAAAAAAAA"; data := "AA==" |}
           (Exception "OperationError" (js "OperationError"))).
  - vm_compute; reflexivity.
  - vm_compute; reflexivity.
Defined.

(** C2, as stated, fails: with an entry stored under [encrypted_groqApiKey]
    whose IV is not base64, [decrypt] throws and [getEncrypted] returns
    [null]. *)
Lemma getEncrypted_swallows_decryption_failure :
  let stored := {| iv := "!"; data := EmptyString |} in
  let w := with_storage
             (write_key (K_named (encrypted_name "groqApiKey")) stored)
             (Toy.installed Toy.silent) in
  lookup_key (K_named (encrypted_name "groqApiKey")) (storage w) = Some stored /\
  fst (decrypt Toy.platform stored w) =
    Throw (Exception "InvalidCharacterError" (js "InvalidCharacterError")) /\
  fst (getEncrypted Toy.platform "groqApiKey" w) = Ok JNull.
Proof. cbv zeta. split; [|split]; vm_compute; reflexivity. Qed.

(** * Session store *)



(** C10. For every session id not in the stored session list,
    [addContentToSession] returns [null] and leaves the world as it was:
    the session list is not rewritten and [totalNotes] is not
    incremented. *)
Theorem addContentToSession_unknown_id (P : Platform)
    (sessionId title summary : jsstring) (w : World) :
  ~ In sessionId (map id (stored_sessions w)) ->
  addContentToSession P sessionId title summary w = (Ok None, w).
Proof.
  intros H. apply addContentToSession_missing.
  unfold session_of. now apply find_none_iff.
Qed.

Lemma addContentToSession_unknown_id_witness :
  let known :=
    {| id := js "s1"; name := js "Research A"; createdAt := js "t0";
       notionPageId := None; contents := Some []; contentCount := Some 0%Z |} in
  let w := with_storage (write_key K_sessions [known]) (Toy.installed Toy.silent) in
  addContentToSession Toy.platform (js "s2") (js "T") (js "text") w = (Ok None, w).
Proof.
  cbv zeta. apply addContentToSession_unknown_id.
  cbn. intros [H|[]]. discriminate.
Defined.

(** * Capture orchestrator *)


Lemma page_of_some sessionId w p :
  page_of sessionId w = Some p ->
  exists s, session_of sessionId w = Some s /\ notionPageId s = Some p /\
            nonempty p = true.
Proof.
  unfold page_of. destruct (session_of sessionId w) as [s|]; [|discriminate].
  destruct (notionPageId s) as [[|c q]|] eqn:E; try discriminate.
  intros [= <-]. now exists s.
Qed.






(** C7, as amended. For every capture invoked when no active session id
    is stored, the capture is refused with one error notification and
    nothing else happens: no request is sent to either service and
    storage is untouched. The reason is 'No active session. Please
    create one first.' when setup is complete and the extension is not
    locked; the setup and lock checks come before, with their own
    reasons. And in every capture, a request is sent to a service only
    after all five validation checks have passed. *)
Theorem no_active_session_no_network (P : Platform) (selectedText : jsstring)
    (sourceUrl : option jsstring) (tabId : N) (w : World) :
  (no_active_session w = true ->
   exists w',
     handleMapping P selectedText sourceUrl tabId w = (Ok tt, w') /\
     netlog w' = netlog w /\
     storage w' = storage w /\
     runtime_messages w' = runtime_messages w /\
     notifications w' =
       notifications w ++
       [{| message := refusal w; notificationType := "error" |}] /\
     (setupComplete (storage w) = Some true ->
      isLocked (storage w) <> Some true ->
      refusal w = js "No active session. Please create one first.")) /\
  (forall result w',
     handleMapping P selectedText sourceUrl tabId w = (result, w') ->
     netlog w' <> netlog w ->
     exists sessionId apiKey credentials w3,
       Validated P w sessionId apiKey credentials w3).
Proof.
  split.
  - unfold no_active_session, refusal. intros Hno.
    cbv [handleMapping try_catch bind StorageManager_get lookup_key
         sendNotification modify].
    destruct (setupComplete (storage w)) as [[|]|];
      destruct (isLocked (storage w)) as [[|]|];
      destruct (activeSessionId (storage w)) as [[|c sid]|];
      try discriminate;
      (eexists; split; [reflexivity|]; repeat split; congruence).
  - intros result w' Hrun Hsent.
    destruct (handleMapping_validated_or_refused P selectedText sourceUrl
                tabId w) as [V|(w'' & reason & Hrun' & Hlog & _)];
      [exact V|].
    rewrite Hrun in Hrun'. congruence.
Qed.

Lemma no_active_session_no_network_witness :
  let w := with_storage (write_key K_isLocked false)
             (with_storage (write_key K_setupComplete true)
                (Toy.installed Toy.silent)) in
  (exists w',
    handleMapping Toy.platform Scenario.sentence None 1 w = (Ok tt, w') /\
    netlog w' = netlog w /\
    storage w' = storage w /\
    runtime_messages w' = runtime_messages w /\
    notifications w' =
      notifications w ++
      [{| message := refusal w; notificationType := "error" |}] /\
    (setupComplete (storage w) = Some true ->
     isLocked (storage w) <> Some true ->
     refusal w = js "No active session. Please create one first.")) /\
  (exists sessionId apiKey credentials w3,
     Validated Toy.platform (Scenario.ready Scenario.answering)
       sessionId apiKey credentials w3).
Proof.
  cbv zeta. split.
  - apply no_active_session_no_network. reflexivity.
  - apply (proj2 (no_active_session_no_network Toy.platform Scenario.sentence
                    (Some (js "https://example.org/cells")) 1
                    (Scenario.ready Scenario.answering))
             (fst (handleMapping Toy.platform Scenario.sentence
                    (Some (js "https://example.org/cells")) 1
                    (Scenario.ready Scenario.answering)))
             (snd (handleMapping Toy.platform Scenario.sentence
                    (Some (js "https://example.org/cells")) 1
                    (Scenario.ready Scenario.answering)))).
    + vm_compute; reflexivity.
    + vm_compute; discriminate.
Defined.

(** C7, as stated, fails: right after installation no active session id
    is stored, and the capture is refused for the setup, not for the
    session. *)
Lemma no_active_session_other_reason :
  let w := Toy.installed Toy.silent in
  no_active_session w = true /\
  notifications (snd (handleMapping Toy.platform Scenario.sentence None 1 w)) =
    [{| message := js "Please complete setup first";
        notificationType := "error" |}].
Proof. cbv zeta. split; vm_compute; reflexivity. Qed.



(** * Single-flight key creation *)

(** A call that runs alone is the sequential [getOrCreateMasterKey]: on a
    fresh installation both generate one key, cache it, store its export
    and clear [_keyPromise]. *)
Lemma lone_call_agrees (P : Platform) (w : World) :
  _encryptionKey (crypto w) = None -> _keyPromise (crypto w) = None ->
  _masterKey (storage w) = None ->
  let key := map (entropy w) (seq (drawn w) 32) in
  exists w' s,
    getOrCreateMasterKey P w = (Ok key, w') /\
    SingleFlight.run (fun _ => key) (SingleFlight.initial 1)
      [SingleFlight.Start 0; SingleFlight.Resume 0; SingleFlight.Resume 0;
       SingleFlight.Resume 0; SingleFlight.Resume 0; SingleFlight.Finish 0]
      = Some s /\
    SingleFlight.callers s = [SingleFlight.Returned (Some key)] /\
    SingleFlight.encryptionKey s = _encryptionKey (crypto w') /\
    SingleFlight.masterKey s = _masterKey (storage w') /\
    SingleFlight.keyPromise s = None /\ _keyPromise (crypto w') = None.
Proof.
  intros Hk Hp Hm key.
  unfold getOrCreateMasterKey. rewrite Hk, Hp.
  cbv [loadOrGenerateKey bind lookup_key]. rewrite Hm.
  eexists _, _. split; [reflexivity|]. split; [reflexivity|].
  cbn. repeat split.
Qed.

(** C9. [n] calls of [getOrCreateMasterKey] are made with no key cached,
    no promise in flight and nothing stored, and interleave at their
    [await]s in any order. At every point of every interleaving, at most
    one creation was started, at most one key was generated, and what is
    stored is nothing or the export of that key; no call has failed and
    every call that has returned holds that same key. An interleaving
    has at most [7 * n] steps, and as long as some call has not returned
    the key, something can still run: every interleaving that cannot be
    continued ends with all [n] callers holding the same key. *)
Theorem getOrCreateMasterKey_single_flight (fresh : nat -> list byte)
    (n : nat) (schedule : list SingleFlight.Action) (s : SingleFlight.State) :
  SingleFlight.run fresh (SingleFlight.initial n) schedule = Some s ->
  (length schedule <= 7 * n)%nat /\
  (length (SingleFlight.creations s) <= 1)%nat /\
  (SingleFlight.generated s <= 1)%nat /\
  (SingleFlight.masterKey s = None \/
   SingleFlight.masterKey s = Some (arrayBufferToBase64 (fresh 0%nat))) /\
  (forall i c,
      SingleFlight.callers s !! i = Some c ->
      c <> SingleFlight.Failed /\
      forall key, c = SingleFlight.Returned key -> key = Some (fresh 0%nat)) /\
  ((forall i, (i < n)%nat ->
      SingleFlight.callers s !! i =
        Some (SingleFlight.Returned (Some (fresh 0%nat)))) \/
   exists a s', SingleFlight.step fresh s a = Some s').
Proof.
  intros Hrun.
  pose proof (SingleFlightFacts.run_inv fresh schedule _ _
                (SingleFlightFacts.inv_initial fresh n) Hrun) as Hinv.
  pose proof (SingleFlightFacts.run_weight fresh schedule _ _ Hrun) as Hw.
  rewrite (SingleFlightFacts.weight_initial fresh) in Hw.
  pose proof (SingleFlightFacts.run_callers_length fresh schedule _ _ Hrun) as Hlen.
  cbn [SingleFlight.initial SingleFlight.callers] in Hlen.
  rewrite length_replicate in Hlen.
  pose proof (SingleFlightFacts.inv_progress fresh s Hinv) as Hprog.
  split; [lia|].
  assert (Hcallers : forall i c,
             SingleFlight.callers s !! i = Some c ->
             c <> SingleFlight.Failed /\
             forall key, c = SingleFlight.Returned key -> key = Some (fresh 0%nat)).
  { intros i c Hi. unfold SingleFlight.inv in Hinv.
    destruct (SingleFlight.creations s) as [|q [|q' rest]]; [| |contradiction].
    - destruct Hinv as (_ & _ & _ & _ & Hall).
      pose proof (Forall_lookup_1 _ _ _ _ Hall Hi) as Hc. cbv beta in Hc.
      subst c. split; [discriminate|]. intros key [=].
    - destruct Hinv as (Hall & _).
      pose proof (Forall_lookup_1 _ _ _ _ Hall Hi) as Hc.
      destruct Hc as [ -> | [ -> | [ -> | -> ] ] ];
        (split; [discriminate|]); intros key [=]; congruence. }
  unfold SingleFlight.inv in Hinv.
  destruct (SingleFlight.creations s) as [|q [|q' rest]] eqn:Ec;
    [| |contradiction].
  - destruct Hinv as (_ & _ & Hm & Hg & _).
    cbn [length]. split; [lia|]. split; [lia|]. split; [now left|].
    split; [exact Hcallers|].
    destruct Hprog as [Hall|Hstep]; [left|now right].
    intros i Hi. destruct (SingleFlight.callers s !! i) as [c|] eqn:Ei.
    + pose proof (Forall_lookup_1 _ _ _ _ Hall Ei) as Hr.
      destruct c; try discriminate.
      now rewrite (proj2 (Hcallers i _ Ei) _ eq_refl).
    + apply lookup_ge_None in Ei. lia.
  - destruct Hinv as (_ & Hq).
    cbn [length]. split; [lia|].
    assert (Hgm : (SingleFlight.generated s <= 1)%nat /\
                  (SingleFlight.masterKey s = None \/
                   SingleFlight.masterKey s =
                     Some (arrayBufferToBase64 (fresh 0%nat)))).
    { destruct q; try contradiction;
        repeat match goal with H : _ /\ _ |- _ => destruct H end;
        split; try lia; auto. }
    split; [apply Hgm|]. split; [apply Hgm|].
    split; [exact Hcallers|].
    destruct Hprog as [Hall|Hstep]; [left|now right].
    intros i Hi. destruct (SingleFlight.callers s !! i) as [c|] eqn:Ei.
    + pose proof (Forall_lookup_1 _ _ _ _ Hall Ei) as Hr.
      destruct c; try discriminate.
      now rewrite (proj2 (Hcallers i _ Ei) _ eq_refl).
    + apply lookup_ge_None in Ei. lia.
Qed.

Lemma getOrCreateMasterKey_single_flight_witness :
  let s := three_calls_end in
  SingleFlight.run counting_keys (SingleFlight.initial 3) three_calls = Some s /\
  SingleFlight.callers s =
    replicate 3 (SingleFlight.Returned (Some (counting_keys 0))) /\
  (length three_calls <= 7 * 3)%nat /\
  (length (SingleFlight.creations s) <= 1)%nat /\
  (SingleFlight.generated s <= 1)%nat /\
  (SingleFlight.masterKey s = None \/
   SingleFlight.masterKey s = Some (arrayBufferToBase64 (counting_keys 0))) /\
  (forall i c,
      SingleFlight.callers s !! i = Some c ->
      c <> SingleFlight.Failed /\
      forall key, c = SingleFlight.Returned key -> key = Some (counting_keys 0)) /\
  ((forall i, (i < 3)%nat ->
      SingleFlight.callers s !! i =
        Some (SingleFlight.Returned (Some (counting_keys 0)))) \/
   exists a s', SingleFlight.step counting_keys s a = Some s').
Proof.
  cbv zeta. split; [vm_compute; reflexivity|]. split; [vm_compute; reflexivity|].
  apply (getOrCreateMasterKey_single_flight counting_keys 3 three_calls).
  vm_compute; reflexivity.
Defined.

(** * Further facts *)

(** ** Base64 lengths *)

Lemma encode_length_exact l :
  length (Base64.encode l) = (4 * ((length l + 2) / 3))%nat.
Proof.
  induction l as [| a | a b | a b c rest IH] using list_ind3.
  - reflexivity.
  - reflexivity.
  - reflexivity.
  - cbn [Base64.encode length]. rewrite IH.
    replace (S (S (S (length rest))) + 2)%nat with (1 * 3 + (length rest + 2))%nat by lia.
    rewrite Nat.div_add_l by lia. lia.
Qed.

Lemma length_string_of_list_ascii l :
  String.length (string_of_list_ascii l) = length l.
Proof. induction l; cbn; congruence. Qed.

Lemma length_list_ascii_of_string s :
  length (list_ascii_of_string s) = String.length s.
Proof. induction s; cbn; congruence. Qed.

Lemma length_string_of_list_byte (l : list byte) :
  String.length (string_of_list_byte l) = length l.
Proof.
  unfold string_of_list_byte.
  now rewrite length_string_of_list_ascii, length_map.
Qed.

Lemma arrayBufferToBase64_length (buffer : list byte) :
  String.length (arrayBufferToBase64 buffer) =
  (4 * ((length buffer + 2) / 3))%nat.
Proof.
  unfold arrayBufferToBase64, Base64.btoa.
  rewrite length_string_of_list_ascii, encode_length_exact.
  unfold Base64.codes.
  now rewrite length_map, length_list_ascii_of_string, length_string_of_list_byte.
Qed.

Lemma arrayBufferToBase64_nonempty (buffer : list byte) :
  buffer <> [] -> exists c rest, arrayBufferToBase64 buffer = String c rest.
Proof.
  intros H. pose proof (arrayBufferToBase64_length buffer) as L.
  destruct (arrayBufferToBase64 buffer) as [|c rest]; [|eauto].
  destruct buffer as [|b buffer]; [contradiction|]. cbn [length String.length] in L.
  assert ((S (length buffer) + 2) / 3 >= 1)%nat.
  { apply Nat.div_le_lower_bound; lia. }
  lia.
Qed.

(** ** The master key, by cases *)

Section MasterKeyFacts.
Context (P : Platform).


Lemma getOrCreateMasterKey_generates w :
  _encryptionKey (crypto w) = None -> _keyPromise (crypto w) = None ->
  (_masterKey (storage w) = None \/ _masterKey (storage w) = Some EmptyString) ->
  let key := map (entropy w) (seq (drawn w) 32) in
  getOrCreateMasterKey P w =
    (Ok key,
     with_crypto (fun _ => {| _encryptionKey := Some key; _keyPromise := None |})
       (with_storage (write_key K_masterKey (arrayBufferToBase64 key))
          (with_drawn (drawn w + 32) w))).
Proof.
  intros Hk Hp Hm key. unfold getOrCreateMasterKey. rewrite Hk, Hp.
  cbv [loadOrGenerateKey bind lookup_key].
  destruct Hm as [Hm|Hm]; rewrite Hm; reflexivity.
Qed.

Lemma getOrCreateMasterKey_loads w key :
  _encryptionKey (crypto w) = None -> _keyPromise (crypto w) = None ->
  key_stored w key ->
  getOrCreateMasterKey P w =
    (Ok key,
     with_crypto (fun _ => {| _encryptionKey := Some key; _keyPromise := None |}) w).
Proof.
  intros Hk Hp (c & rest & Hm & Hd & Hl). unfold getOrCreateMasterKey.
  rewrite Hk, Hp. cbv [loadOrGenerateKey bind lookup_key]. rewrite Hm.
  unfold base64ToArrayBuffer_or_throw. rewrite Hd.
  unfold ret, importKey_AES_GCM. rewrite Hl. reflexivity.
Qed.

Lemma getOrCreateMasterKey_settled w r :
  _encryptionKey (crypto w) = None -> _keyPromise (crypto w) = Some r ->
  getOrCreateMasterKey P w = (r, w).
Proof. intros Hk Hp. unfold getOrCreateMasterKey. now rewrite Hk, Hp. Qed.

End MasterKeyFacts.

Lemma seq_32_nonempty {A} (f : nat -> A) d : map f (seq d 32) <> [].
Proof. discriminate. Qed.

Lemma aes_key_length_32 (f : nat -> byte) d :
  aes_key_length (map f (seq d 32)) = true.
Proof. unfold aes_key_length. now rewrite length_map, length_seq. Qed.

Section MasterKeyUse.
Context (P : Platform).

Lemma getOrCreateMasterKey_fails w stored :
  _encryptionKey (crypto w) = None -> _keyPromise (crypto w) = None ->
  _masterKey (storage w) = Some stored -> stored <> EmptyString ->
  match base64ToArrayBuffer stored with
  | Some keyData => aes_key_length keyData = false
  | None => True
  end ->
  let e := match base64ToArrayBuffer stored with
           | Some _ => builtin P "DataError"
           | None => builtin P "InvalidCharacterError"
           end in
  getOrCreateMasterKey P w =
    (Throw e,
     with_crypto (fun _ => {| _encryptionKey := None;
                              _keyPromise := Some (Throw e) |}) w).
Proof.
  intros Hk Hp Hm Hne Hbad. unfold getOrCreateMasterKey. rewrite Hk, Hp.
  cbv [loadOrGenerateKey bind lookup_key]. rewrite Hm.
  destruct stored as [|c rest]; [contradiction|].
  unfold base64ToArrayBuffer_or_throw.
  destruct (base64ToArrayBuffer (String c rest)) as [keyData|].
  - unfold ret, importKey_AES_GCM. rewrite Hbad. cbv zeta.
    unfold throw, set_keyPromise, modify, with_crypto. cbn. now rewrite Hk.
  - cbv zeta. unfold throw, set_keyPromise, modify, with_crypto. cbn.
    now rewrite Hk.
Qed.

(** Everything that needs the key fails with the error the key request
    fails with; [getEncrypted] turns it into [null]. *)
Lemma key_failure_spreads w e :
  getOrCreateMasterKey P w = (Throw e, w) ->
  (forall v, encrypt P v w = (Throw e, w)) /\
  (forall blob, decrypt P blob w = (Throw e, w)) /\
  (forall key v, setEncrypted P key v w = (Throw e, w)) /\
  (forall key,
      getEncrypted P key w = (Ok JNull, w)).
Proof.
  intros H.
  assert (He : forall v, encrypt P v w = (Throw e, w)).
  { intros v. unfold encrypt, bind. now rewrite H. }
  assert (Hd : forall blob, decrypt P blob w = (Throw e, w)).
  { intros blob. unfold decrypt, bind. now rewrite H. }
  split; [exact He|]. split; [exact Hd|]. split.
  - intros key v. unfold setEncrypted, try_catch, bind. now rewrite He.
  - intros key. pose proof (getEncrypted_run P key w) as R.
    destruct (lookup_key (K_named (encrypted_name key)) (storage w)) as [blob|];
      [|exact R].
    now rewrite Hd in R.
Qed.

Lemma decrypt_after_key blob w key w' :
  getOrCreateMasterKey P w = (Ok key, w') ->
  _encryptionKey (crypto w') = Some key ->
  decrypt P blob w = decrypt P blob w'.
Proof.
  intros H Hc. unfold decrypt, bind.
  now rewrite H, (getOrCreateMasterKey_cached P w' key Hc).
Qed.

End MasterKeyUse.

Section KeyReload.
Context (P : Platform).

(** From a state with no cached key from which a key can be obtained,
    the key obtained is the one storage holds afterwards. *)
Lemma getOrCreateMasterKey_stored w :
  _encryptionKey (crypto w) = None -> key_usable w = true ->
  exists key w',
    getOrCreateMasterKey P w = (Ok key, w') /\
    aes_key_length key = true /\
    crypto w' = {| _encryptionKey := Some key; _keyPromise := None |} /\
    key_stored w' key /\
    entropy w' = entropy w.
Proof.
  intros Hk Hu. unfold key_usable in Hu. rewrite Hk in Hu.
  destruct (_keyPromise (crypto w)) as [r|] eqn:Hp; [discriminate|].
  destruct (_masterKey (storage w)) as [[|c rest]|] eqn:Hm.
  - rewrite (getOrCreateMasterKey_generates P w Hk Hp (or_intror Hm)).
    eexists _, _. split; [reflexivity|].
    split; [apply aes_key_length_32|]. split; [reflexivity|].
    split; [|reflexivity].
    destruct (arrayBufferToBase64_nonempty (map (entropy w) (seq (drawn w) 32)))
      as (c & rest & Hb); [apply seq_32_nonempty|].
    exists c, rest. cbn [storage with_storage with_crypto write_key _masterKey].
    rewrite <- Hb. split; [reflexivity|].
    split; [apply base64_roundtrip|apply aes_key_length_32].
  - destruct (base64ToArrayBuffer (String c rest)) as [keyData|] eqn:Hd;
      [|discriminate].
    assert (Hs : key_stored w keyData) by (exists c, rest; auto).
    rewrite (getOrCreateMasterKey_loads P w keyData Hk Hp Hs).
    eexists _, _. split; [reflexivity|]. split; [exact Hu|].
    split; [reflexivity|]. split; [exact Hs|reflexivity].
  - rewrite (getOrCreateMasterKey_generates P w Hk Hp (or_introl Hm)).
    eexists _, _. split; [reflexivity|].
    split; [apply aes_key_length_32|]. split; [reflexivity|].
    split; [|reflexivity].
    destruct (arrayBufferToBase64_nonempty (map (entropy w) (seq (drawn w) 32)))
      as (c & rest & Hb); [apply seq_32_nonempty|].
    exists c, rest. cbn [storage with_storage with_crypto write_key _masterKey].
    rewrite <- Hb. split; [reflexivity|].
    split; [apply base64_roundtrip|apply aes_key_length_32].
Qed.

(** Clearing the cached key and asking for the key again gives the state
    before the clearing, when the key is the stored one. *)
Lemma reload_after_clearKey w key :
  crypto w = {| _encryptionKey := Some key; _keyPromise := None |} ->
  key_stored w key ->
  getOrCreateMasterKey P (snd (clearKey w)) = (Ok key, w).
Proof.
  intros Hc Hs.
  rewrite (getOrCreateMasterKey_loads P (snd (clearKey w)) key).
  - f_equal. destruct w as [st cr en dr cl ti re ne no ru]. cbn in *.
    now subst cr.
  - reflexivity.
  - cbn. now rewrite Hc.
  - exact Hs.
Qed.

End KeyReload.

(** ** Numbers in base 36 *)

Lemma size_nat_size n : N.of_nat (N.size_nat n) = N.size n.
Proof.
  destruct n as [|p]; [reflexivity|]. unfold N.size_nat, N.size.
  induction p as [p IH|p IH|]; cbn [Pos.size_nat Pos.size];
    rewrite ?Nat2N.inj_succ, ?IH; reflexivity.
Qed.

Lemma digit36_is_digit d : d < 36 -> is_digit36 (digit36 d) = true.
Proof.
  intros H. unfold is_digit36, digit36.
  rewrite orb_true_iff, !andb_true_iff, !N.leb_le.
  destruct (N.ltb_spec d 10); lia.
Qed.

Lemma value36_snoc ds c :
  value36 (ds ++ [c]) = value36 ds * 36 + (if c <? 58 then c - 48 else c - 87).
Proof. unfold value36. now rewrite fold_left_app. Qed.

Lemma undigit_digit36 d :
  d < 36 -> (if digit36 d <? 58 then digit36 d - 48 else digit36 d - 87) = d.
Proof.
  intros H. unfold digit36.
  destruct (N.ltb_spec d 10).
  - destruct (N.ltb_spec (48 + d) 58); lia.
  - destruct (N.ltb_spec (87 + d) 58); lia.
Qed.

Lemma toString36_from_spec fuel : forall n acc,
  n < 2 ^ N.of_nat fuel ->
  exists ds,
    toString36_from (S fuel) n acc = ds ++ acc /\
    ds <> [] /\ forallb is_digit36 ds = true /\ value36 ds = n.
Proof.
  induction fuel as [|fuel IH]; intros n acc Hn.
  - assert (n = 0) by (cbn in Hn; lia). subst n.
    exists [digit36 0]. repeat split. discriminate.
  - cbn [toString36_from].
    assert (Hd : n mod 36 < 36) by (apply N.mod_lt; lia).
    destruct (N.eqb_spec (n / 36) 0) as [Hz|Hz].
    + exists [digit36 (n mod 36)]. split; [reflexivity|].
      split; [discriminate|]. split.
      * cbn [forallb]. now rewrite digit36_is_digit.
      * unfold value36. cbn [fold_left]. rewrite undigit_digit36 by exact Hd.
        pose proof (N.div_mod n 36). lia.
    + destruct (IH (n / 36) (digit36 (n mod 36) :: acc)) as (ds & He & Hne & Hall & Hv).
      { rewrite Nat2N.inj_succ, N.pow_succ_r' in Hn.
        apply N.Div0.div_lt_upper_bound. lia. }
      exists (ds ++ [digit36 (n mod 36)]). split.
      { rewrite <- app_assoc. exact He. }
      split; [now destruct ds|]. split.
      * rewrite forallb_app, Hall. cbn [forallb].
        now rewrite digit36_is_digit.
      * rewrite value36_snoc, Hv, undigit_digit36 by exact Hd.
        pose proof (N.div_mod n 36). lia.
Qed.

Lemma toString36_spec n :
  toString36 n <> [] /\ forallb is_digit36 (toString36 n) = true /\
  value36 (toString36 n) = n.
Proof.
  unfold toString36.
  destruct (toString36_from_spec (N.size_nat n) n []) as (ds & He & H).
  - rewrite size_nat_size. apply N.size_gt.
  - rewrite He, app_nil_r. exact H.
Qed.

Lemma toString36_inj n m : toString36 n = toString36 m -> n = m.
Proof.
  intros H. rewrite <- (proj2 (proj2 (toString36_spec n))), H.
  apply toString36_spec.
Qed.

(** Two strings of digits followed by a hyphen agree up to the hyphen. *)
Lemma digits_before_hyphen (a b r1 r2 : jsstring) :
  forallb is_digit36 a = true -> forallb is_digit36 b = true ->
  a ++ 45 :: r1 = b ++ 45 :: r2 -> a = b.
Proof.
  revert b. induction a as [|x a IH]; intros [|y b] Ha Hb E; cbn in *.
  - reflexivity.
  - injection E as <- _. discriminate.
  - injection E as -> _. discriminate.
  - injection E as <- E. apply andb_true_iff in Ha, Hb.
    f_equal. apply IH; tauto.
Qed.

Lemma flat_map_length_ge {A B} (f : A -> list B) l :
  (forall a, f a <> []) -> (length l <= length (flat_map f l))%nat.
Proof.
  intros Hf. induction l as [|a l IH]; [reflexivity|].
  cbn [flat_map length]. rewrite length_app.
  specialize (Hf a). destruct (f a); [contradiction|]. cbn [length]. lia.
Qed.

Lemma forallb_flat_map {A B} (p : B -> bool) (f : A -> list B) l :
  (forall a, forallb p (f a) = true) -> forallb p (flat_map f l) = true.
Proof.
  intros Hf. induction l as [|a l IH]; [reflexivity|].
  cbn [flat_map]. now rewrite forallb_app, Hf, IH.
Qed.

Lemma forallb_firstn {A} (p : A -> bool) n l :
  forallb p l = true -> forallb p (firstn n l) = true.
Proof.
  revert l. induction n as [|n IH]; intros [|a l]; cbn; try reflexivity.
  intros H. apply andb_true_iff in H as [Ha Hl]. now rewrite Ha, IH.
Qed.

(** [generateId], by parts. *)
Lemma generateId_run w :
  let random :=
    firstn 8 (flat_map (fun b => toString36 (Byte.to_N b))
                (map (entropy w) (seq (drawn w) 8))) in
  generateId w =
    (Ok (toString36 (clock w (ticks w)) ++ js "-" ++ random),
     with_drawn (drawn w + 8) (with_ticks (S (ticks w)) w)) /\
  length random = 8%nat /\ forallb is_digit36 random = true.
Proof.
  intros random. split; [reflexivity|]. split.
  - unfold random. rewrite length_firstn. apply Nat.min_l.
    etransitivity; [|apply flat_map_length_ge].
    + now rewrite length_map, length_seq.
    + intros b. apply toString36_spec.
  - apply forallb_firstn, forallb_flat_map. intros b. apply toString36_spec.
Qed.

(** ** The secret store *)

Lemma encrypted_name_inj a b : encrypted_name a = encrypted_name b -> a = b.
Proof. unfold encrypted_name. cbn. now intros [=]. Qed.

(** ** Session lists *)

Lemma has_id_true sessionId s :
  has_id (Some sessionId) s = true <-> id s = sessionId.
Proof. apply jseqb_eq. Qed.

Lemma has_id_false sessionId s :
  has_id (Some sessionId) s = false <-> id s <> sessionId.
Proof.
  rewrite <- has_id_true. destruct (has_id (Some sessionId) s); split; congruence.
Qed.

(** Replacing the first session with an id by one with the same id
    changes what [find] returns for that id only. *)
Lemma find_replace_first_other i j s' l :
  id s' = i -> j <> i ->
  List.find (has_id (Some j)) (replace_first (has_id (Some i)) s' l) =
  List.find (has_id (Some j)) l.
Proof.
  intros Hi Hj. induction l as [|x l IH]; [reflexivity|].
  cbn [replace_first List.find]. destruct (has_id (Some i) x) eqn:E.
  - apply has_id_true in E. cbn [List.find].
    assert (has_id (Some j) s' = false) by (apply has_id_false; congruence).
    assert (has_id (Some j) x = false) by (apply has_id_false; congruence).
    now rewrite H, H0.
  - cbn [List.find]. now rewrite IH.
Qed.

Lemma map_id_replace_first i s' l :
  id s' = i ->
  map id (replace_first (has_id (Some i)) s' l) = map id l.
Proof.
  intros Hi. induction l as [|x l IH]; [reflexivity|].
  cbn [replace_first]. destruct (has_id (Some i) x) eqn:E.
  - apply has_id_true in E. cbn [map]. congruence.
  - cbn [map]. now rewrite IH.
Qed.

Lemma find_filter_other i j (l : list Session) :
  j <> i ->
  List.find (has_id (Some j))
    (List.filter (fun s => negb (jseqb (id s) i)) l) =
  List.find (has_id (Some j)) l.
Proof.
  intros Hj. induction l as [|x l IH]; [reflexivity|].
  cbn [List.filter List.find]. destruct (jseqb (id x) i) eqn:E; cbn [negb].
  - apply jseqb_eq in E.
    assert (has_id (Some j) x = false) by (apply has_id_false; congruence).
    now rewrite H.
  - cbn [List.find]. now rewrite IH.
Qed.

Lemma find_filter_same i (l : list Session) :
  List.find (has_id (Some i))
    (List.filter (fun s => negb (jseqb (id s) i)) l) = None.
Proof.
  induction l as [|x l IH]; [reflexivity|].
  cbn [List.filter]. destruct (jseqb (id x) i) eqn:E; cbn [negb]; [exact IH|].
  cbn [List.find has_id]. now rewrite E.
Qed.

Lemma find_has_id_None (l : list Session) : List.find (has_id None) l = None.
Proof. induction l as [|x l IH]; [reflexivity|exact IH]. Qed.

(** ** The store step, whatever the services answer *)

Section StoreStepFacts.
Context (P : Platform).

(** Storing when the active id meets no session with a page: the page
    builder runs, and only when it returns is anything recorded. *)
Lemma store_without_page selectedText sourceUrl tabId w sessionId sessionContext
    apiKey credentials :
  activeSessionId (storage w) = Some sessionId ->
  page_of sessionId w = None ->
  let log_g := netlog w ++ [groq_request apiKey selectedText sessionContext] in
  let sd := structured_of (groq_reply (remote w) log_g) selectedText in
  structure_and_store P selectedText sourceUrl tabId sessionId
    sessionContext apiKey credentials w =
  match createNotionPage P credentials (sessionName sessionContext) selectedText
          sourceUrl (data_sectionTitle sd) (with_netlog log_g w) with
  | (Ok newPageId, w2) =>
      (updateSession sessionId
         {| set_name := None; set_notionPageId := Some (Some newPageId) |};;
       record_capture P tabId sessionId (data_sectionTitle sd) selectedText) w2
  | (Throw e, w2) => (Throw e, w2)
  end.
Proof.
  intros Ha Hpage log_g sd.
  unfold structure_and_store. unfold bind at 1.
  rewrite processWithGroq_run. cbv zeta. fold log_g. fold sd.
  unfold bind at 1. rewrite getActiveSession_run.
  cbn [storage with_netlog]. rewrite Ha.
  change (List.find (has_id (Some sessionId)) (stored_sessions (with_netlog log_g w)))
    with (session_of sessionId w).
  unfold page_of in Hpage.
  destruct (session_of sessionId w) as [[sid sname sat [[|c0 p]|] sc sn]|];
    cbn [notionPageId] in Hpage; try discriminate;
    cbv iota; unfold bind at 1; unfold bind at 1.
  all: destruct (createNotionPage _ _ _ _ _ _ _) as [[newPageId|e] w2];
    [|reflexivity].
  all: unfold record_capture; unfold bind, ret;
    now destruct (updateSession _ _ _) as [[?|?] ?].
Qed.

Lemma substring0_twice n (s : jsstring) :
  substring0 n (substring0 n s) = substring0 n s.
Proof. unfold substring0. rewrite firstn_firstn. now rewrite Nat.min_id. Qed.

(** What the store step comes to. It sends the structuring request and
    at most two requests to the document store. When it throws, nothing
    was notified or stored. When it returns, success was notified, and
    the capture is on the session the active id meets, if there is
    one. *)
Lemma structure_and_store_outcome selectedText sourceUrl tabId w sessionId
    sessionContext apiKey credentials :
  activeSessionId (storage w) = Some sessionId ->
  let log_g := netlog w ++ [groq_request apiKey selectedText sessionContext] in
  let sd := structured_of (groq_reply (remote w) log_g) selectedText in
  exists r w' sent,
    structure_and_store P selectedText sourceUrl tabId sessionId
      sessionContext apiKey credentials w = (r, w') /\
    netlog w' = log_g ++ sent /\ (length sent <= 2)%nat /\
    match r with
    | Throw e =>
        notifications w' = notifications w /\
        runtime_messages w' = runtime_messages w /\
        storage w' = storage w
    | Ok _ =>
        notifications w' = notifications w ++ [success_notification] /\
        runtime_messages w' = runtime_messages w ++ [MAPPING_COMPLETE] /\
        sent <> [] /\
        In (Heading2 (data_sectionTitle sd))
           (children_of (List.last sent (NotionGetDatabase credentials))) /\
        match session_of sessionId w with
        | Some s =>
            exists s',
              session_of sessionId w' = Some s' /\
              contents s' =
                Some (slice_last 30
                        (contents_of s ++
                         [{| title := data_sectionTitle sd;
                             summary := substring0 300 selectedText;
                             timestamp := toISOString P (clock w (ticks w)) |}])) /\
              count_of s' = (count_of s + 1)%Z /\
              total_of w' = (total_of w + 1)%Z /\
              (exists pageId, notionPageId s' = Some pageId)
        | None =>
            storage w' = storage w /\
            exists property children,
              sent = [NotionGetDatabase credentials;
                      NotionCreatePage credentials property
                        (sessionName sessionContext) children]
        end
    end.
Proof.
  intros Ha log_g sd.
  destruct (page_of sessionId w) as [pageId|] eqn:Hpage.
  - destruct (page_of_some _ _ _ Hpage) as (s & Hs & Hp & Hne).
    rewrite (store_append P selectedText sourceUrl tabId w sessionId
               sessionContext apiKey credentials s pageId Ha Hs Hp Hne).
    fold log_g. fold sd. rewrite Hs.
    destruct (source_line P sourceUrl) as [source|].
    + cbv zeta.
      set (log := log_g ++ [NotionAppendChildren credentials pageId _]).
      destruct (notion_result (notion_append_reply (remote w) log)) as [[]|e].
      * destruct (record_capture_run P tabId sessionId (data_sectionTitle sd)
                    selectedText (with_netlog log w) s Hs)
          as (s' & w' & Hrun & Hl & Hn & Hr & Hs' & Hp' & Hc & Hcount & Htot).
        exists (Ok tt), w', [NotionAppendChildren credentials pageId
                               (section_children (data_sectionTitle sd)
                                  selectedText (data_connections sd) source)].
        split; [exact Hrun|]. split; [exact Hl|]. split; [cbn; lia|].
        split; [exact Hn|]. split; [exact Hr|]. split; [discriminate|].
        split; [now left|].
        exists s'. split; [exact Hs'|]. rewrite substring0_twice in Hc.
        split; [exact Hc|]. split; [exact Hcount|]. split; [exact Htot|].
        exists pageId. congruence.
      * eexists (Throw e), _, [_]. split; [reflexivity|].
        split; [reflexivity|]. split; [cbn; lia|]. repeat split.
    + eexists (Throw _), _, []. split; [reflexivity|].
      split; [now rewrite app_nil_r|]. split; [cbn; lia|]. repeat split.
  - rewrite (store_without_page selectedText sourceUrl tabId w sessionId
               sessionContext apiKey credentials Ha Hpage).
    fold log_g. fold sd. rewrite createNotionPage_run.
    cbn [netlog remote with_netlog]. cbv zeta.
    set (log1 := log_g ++ [NotionGetDatabase credentials]).
    destruct (notion_schema_reply (remote w) log1) as [e|m st|e|properties].
    1-3: eexists (Throw _), _, [_]; (split; [reflexivity|]);
      (split; [reflexivity|]); (split; [cbn; lia|]); repeat split.
    destruct (source_line P sourceUrl) as [source|].
    2:{ eexists (Throw _), _, [_]. split; [reflexivity|].
        split; [reflexivity|]. split; [cbn; lia|]. repeat split. }
    set (log2 := log1 ++ [NotionCreatePage credentials _ _ _]).
    assert (Hlog2 : log2 = log_g ++ [NotionGetDatabase credentials;
                                     NotionCreatePage credentials
                                       (titlePropertyName properties)
                                       (sessionName sessionContext)
                                       (page_children (data_sectionTitle sd)
                                          selectedText source)]).
    { unfold log2, log1. now rewrite <- app_assoc. }
    destruct (notion_result (notion_create_reply (remote w) log2))
      as [newPageId|e].
    2:{ eexists (Throw e), _, [_; _]. split; [reflexivity|].
        split; [exact Hlog2|]. split; [cbn; lia|]. repeat split. }
    unfold bind at 1.
    destruct (session_of sessionId w) as [s|] eqn:Hs.
    + rewrite (updateSession_found _ _ _ s) by exact Hs.
      set (s1 := merge s {| set_name := None;
                            set_notionPageId := Some (Some newPageId) |}).
      match goal with |- context [record_capture _ _ _ _ _ ?W] =>
        destruct (record_capture_run P tabId sessionId (data_sectionTitle sd)
                    selectedText W s1)
          as (s' & w' & Hrun & Hl & Hn & Hr & Hs' & Hp' & Hc & Hcount & Htot)
      end.
      { unfold session_of, stored_sessions.
        cbn [storage with_storage write_key sessions with_netlog].
        apply (find_replace_first _ s); [exact Hs|].
        cbn [has_id merge id s1]. apply find_some in Hs. apply (proj2 Hs). }
      exists (Ok tt), w', [NotionGetDatabase credentials;
                           NotionCreatePage credentials
                             (titlePropertyName properties)
                             (sessionName sessionContext)
                             (page_children (data_sectionTitle sd)
                                selectedText source)].
      split; [exact Hrun|].
      cbn [netlog notifications runtime_messages with_storage with_netlog]
        in Hl, Hn, Hr.
      split; [now rewrite Hl|]. split; [cbn; lia|].
      split; [exact Hn|]. split; [exact Hr|]. split; [discriminate|].
      split; [cbn; auto|].
      exists s'. split; [exact Hs'|]. rewrite substring0_twice in Hc.
      split; [exact Hc|]. split; [exact Hcount|]. split; [exact Htot|].
      exists newPageId. exact Hp'.
    + rewrite updateSession_missing by exact Hs.
      rewrite record_capture_missing by exact Hs.
      eexists (Ok tt), _, [_; _]. split; [reflexivity|].
      split; [exact Hlog2|]. split; [cbn; lia|].
      split; [reflexivity|]. split; [reflexivity|]. split; [discriminate|].
      split; [cbn; auto|].
      split; [reflexivity|]. eauto.
Qed.

End StoreStepFacts.

(** ** A capture, whatever the state and the services *)

Lemma keeps_same_stored_data w w' :
  keeps_outside_keys w w' -> same_stored_data w w'.
Proof. intros []. now split. Qed.

Section CaptureOutcome.
Context (P : Platform).

Lemma handleMapping_outcome selectedText sourceUrl tabId w :
  exists w' ending sent,
    handleMapping P selectedText sourceUrl tabId w = (Ok tt, w') /\
    notifications w' = notifications w ++ notified ending /\
    runtime_messages w' = runtime_messages w ++ told ending /\
    netlog w' = netlog w ++ sent /\
    match ending with
    | Refused reason =>
        In reason refusals /\ sent = [] /\ same_stored_data w w'
    | Failed e =>
        (1 <= length sent <= 3)%nat /\ same_stored_data w w'
    | Mapped =>
        (2 <= length sent <= 3)%nat /\
        exists sessionId apiKey credentials w3,
          Validated P w sessionId apiKey credentials w3 /\
          structure_and_store P selectedText sourceUrl tabId sessionId
            (context_of sessionId w) apiKey credentials w3 = (Ok tt, w')
    end.
Proof.
  assert (Hsame : forall n, same_stored_data w (with_notifications n w)).
  { intros n. now split. }
  destruct (setupComplete (storage w)) as [[|]|] eqn:Hs;
    [|exists (with_notifications
                (notifications w ++
                 [refusal_notification (js "Please complete setup first")]) w),
        (Refused (js "Please complete setup first")), [];
      (split; [cbv [handleMapping try_catch bind StorageManager_get lookup_key];
               rewrite Hs; reflexivity|]);
      cbn; rewrite !app_nil_r; repeat split; auto ..].
  destruct (isLocked (storage w)) as [[|]|] eqn:Hl;
    [exists (with_notifications
               (notifications w ++
                [refusal_notification
                   (js "Extension is locked. Please unlock first.")]) w),
       (Refused (js "Extension is locked. Please unlock first.")), [];
     (split; [cbv [handleMapping try_catch bind StorageManager_get lookup_key];
              rewrite Hs, Hl; reflexivity|]);
     cbn; rewrite !app_nil_r; repeat split; auto | |].
  all: destruct (activeSessionId (storage w)) as [[|c sid]|] eqn:Ha;
    [exists (with_notifications
               (notifications w ++
                [refusal_notification
                   (js "No active session. Please create one first.")]) w),
       (Refused (js "No active session. Please create one first.")), [];
     (split; [cbv [handleMapping try_catch bind StorageManager_get lookup_key];
              rewrite Hs, Hl, Ha; reflexivity|]);
     cbn; rewrite !app_nil_r; repeat split; auto 6
    | |exists (with_notifications
               (notifications w ++
                [refusal_notification
                   (js "No active session. Please create one first.")]) w),
       (Refused (js "No active session. Please create one first.")), [];
     (split; [cbv [handleMapping try_catch bind StorageManager_get lookup_key];
              rewrite Hs, Hl, Ha; reflexivity|]);
     cbn; rewrite !app_nil_r; repeat split; auto 6].
  all: destruct (getEncrypted_total P "groqApiKey" (processing w))
         as (apiKey & w2 & H1);
    pose proof (getEncrypted_keeps P _ _ _ _ H1) as K1;
    destruct (truthy apiKey) eqn:T1.
  2,4: exists (with_notifications
                 (notifications w2 ++
                  [refusal_notification (js "Groq API key not found")]) w2),
         (Refused (js "Groq API key not found")), [];
    (split; [cbv [handleMapping try_catch bind StorageManager_get lookup_key];
             rewrite Hs, Hl, Ha; cbv [sendNotification modify];
             fold (processing w);
             rewrite getSessionContext_run, H1, T1; reflexivity|]);
    destruct K1 as [Ka1 Kb1 Kc1 Kd1 Ke1 Kf1 Kg1 Kh1 Ki1 Klog1 Knot1 Krt1];
    cbn [processing storage netlog notifications runtime_messages
         with_notifications notified told] in *;
    change (jseqb (js "Groq API key not found") (js "Groq API key not found"))
      with true; cbn [orb];
    (split; [rewrite Knot1, <- app_assoc; reflexivity|]);
    (split; [rewrite app_nil_r; congruence|]);
    (split; [rewrite app_nil_r; congruence|]);
    (split; [unfold refusals; cbn; auto 6|]);
    (split; [reflexivity|]); now split.
  all: destruct (getEncrypted_total P "notionCredentials" w2)
         as (credentials & w3 & H2);
    pose proof (getEncrypted_keeps P _ _ _ _ H2) as K2;
    destruct (truthy credentials) eqn:T2.
  2,4: exists (with_notifications
                 (notifications w3 ++
                  [refusal_notification (js "Notion credentials not found")]) w3),
         (Refused (js "Notion credentials not found")), [];
    (split; [cbv [handleMapping try_catch bind StorageManager_get lookup_key];
             rewrite Hs, Hl, Ha; cbv [sendNotification modify];
             fold (processing w);
             rewrite getSessionContext_run, H1, T1; cbn [negb];
             rewrite H2, T2; reflexivity|]);
    destruct K1 as [Ka1 Kb1 Kc1 Kd1 Ke1 Kf1 Kg1 Kh1 Ki1 Klog1 Knot1 Krt1];
    destruct K2 as [Ka2 Kb2 Kc2 Kd2 Ke2 Kf2 Kg2 Kh2 Ki2 Klog2 Knot2 Krt2];
    cbn [processing storage netlog notifications runtime_messages
         with_notifications notified told] in *;
    change (jseqb (js "Notion credentials not found")
              (js "Notion credentials not found")) with true;
    rewrite orb_true_r;
    (split; [rewrite Knot2, Knot1, <- app_assoc; reflexivity|]);
    (split; [rewrite app_nil_r; congruence|]);
    (split; [rewrite app_nil_r; congruence|]);
    (split; [unfold refusals; cbn; auto 6|]);
    (split; [reflexivity|]); split; cbn [storage with_notifications]; congruence.
  all: assert (V : Validated P w (c :: sid) apiKey credentials w3)
    by (split; try assumption; try congruence; [reflexivity|eauto 10]).
  all: destruct (Validated_world P _ _ _ _ _ V)
         as (Hlog & Hrem & Hnot & Hrt & Hact & Hsess & Hclock & Hticks & Htot).
  all: pose proof (keeps_same_stored_data _ _ (Validated_keeps P _ _ _ _ _ V))
         as Sd.
  all: rewrite (handleMapping_validated P _ _ _ _ _ _ _ _ V).
  all: destruct (structure_and_store_outcome P selectedText sourceUrl tabId w3
                   (c :: sid) (context_of (c :: sid) w) apiKey credentials Hact)
         as (r & w4 & sent & Hrun & Hl4 & Hlen & Hr).
  all: unfold try_catch; rewrite Hrun.
  all: destruct r as [[]|e].
  1,3: exists w4, Mapped, (groq_request apiKey selectedText
                             (context_of (c :: sid) w) :: sent);
    (split; [reflexivity|]);
    destruct Hr as (Hn4 & Hr4 & Hne & _);
    cbn [notified told];
    (split; [rewrite Hn4, Hnot, <- app_assoc; reflexivity|]);
    (split; [rewrite Hr4, Hrt; reflexivity|]);
    (split; [rewrite Hl4, Hlog, <- app_assoc; reflexivity|]);
    (split; [destruct sent; [contradiction|cbn [length] in *; lia]|]);
    eauto 10.
  all: exists (snd (report tabId e w4)), (Failed e),
         (groq_request apiKey selectedText (context_of (c :: sid) w) :: sent);
    (split; [reflexivity|]);
    destruct Hr as (Hn4 & Hr4 & Hst);
    cbn [report bind sendNotification sendMessage modify snd notifications
         runtime_messages netlog storage with_notifications
         with_runtime_messages notified told];
    (split; [rewrite Hn4, Hnot, <- app_assoc; reflexivity|]);
    (split; [rewrite Hr4, Hrt; reflexivity|]);
    (split; [rewrite Hl4, Hlog, <- app_assoc; reflexivity|]);
    (split; [cbn [length]; lia|]);
    destruct Sd; cbn [processing storage with_notifications] in *;
    split; cbn [storage with_runtime_messages with_notifications];
    rewrite Hst; assumption.
Qed.

End CaptureOutcome.

Section MappedFacts.
Context (P : Platform).

(** What a capture that was mapped has done to the store. *)
Lemma last_app_cons {A} (l : list A) x l' d d' :
  List.last (l ++ x :: l') d = List.last (x :: l') d'.
Proof.
  induction l as [|y l IH]; cbn [app].
  - revert x. induction l' as [|z l' IH']; intros x; [reflexivity|].
    change (List.last (z :: l') d = List.last (z :: l') d'). apply IH'.
  - destruct (l ++ x :: l') eqn:E; [now destruct l|]. exact IH.
Qed.

Lemma mapped_capture_outcome selectedText sourceUrl tabId w w' :
  handleMapping P selectedText sourceUrl tabId w = (Ok tt, w') ->
  runtime_messages w' = runtime_messages w ++ [MAPPING_COMPLETE] ->
  exists sessionId apiKey credentials sent,
    activeSessionId (storage w) = Some sessionId /\
    netlog w' =
      netlog w ++
      groq_request apiKey selectedText (context_of sessionId w) :: sent /\
    let sd := structured_of
                (groq_reply (remote w)
                   (netlog w ++
                    [groq_request apiKey selectedText (context_of sessionId w)]))
                selectedText in
    In (Heading2 (data_sectionTitle sd))
       (children_of (List.last (netlog w') (NotionGetDatabase JNull))) /\
    match session_of sessionId w with
    | Some s =>
        exists s',
          session_of sessionId w' = Some s' /\
          contents s' =
            Some (slice_last 30
                    (contents_of s ++
                     [{| title := data_sectionTitle sd;
                         summary := substring0 300 selectedText;
                         timestamp := toISOString P (clock w (ticks w)) |}])) /\
          count_of s' = (count_of s + 1)%Z /\
          total_of w' = (total_of w + 1)%Z /\
          (exists pageId, notionPageId s' = Some pageId)
    | None =>
        same_stored_data w w' /\
        exists property children,
          sent = [NotionGetDatabase credentials;
                  NotionCreatePage credentials property (js "Default") children]
    end.
Proof.
  intros Hrun Hmsg.
  destruct (handleMapping_outcome P selectedText sourceUrl tabId w)
    as (w1 & ending & sent0 & Hrun1 & _ & Hr & _ & He).
  rewrite Hrun in Hrun1. injection Hrun1 as <-.
  rewrite Hmsg in Hr. apply app_inv_head in Hr.
  destruct ending as [reason|e|]; try discriminate.
  destruct He as (_ & sessionId & apiKey & credentials & w3 & V & Hstore).
  destruct (Validated_world P _ _ _ _ _ V)
    as (Hlog & Hrem & Hnot & Hrt & Hact & Hsess & Hclock & Hticks & Htot).
  pose proof (keeps_same_stored_data _ _ (Validated_keeps P _ _ _ _ _ V)) as Sd.
  destruct (structure_and_store_outcome P selectedText sourceUrl tabId w3
              sessionId (context_of sessionId w) apiKey credentials Hact)
    as (r & w4 & sent & Hrun4 & Hl4 & _ & Hr4).
  rewrite Hstore in Hrun4. injection Hrun4 as <- <-.
  destruct Hr4 as (_ & _ & Hne & Hhead & Hrec).
  exists sessionId, apiKey, credentials, sent.
  split; [destruct V; assumption|].
  assert (Hl : netlog w' =
               netlog w ++
               groq_request apiKey selectedText (context_of sessionId w) :: sent).
  { rewrite Hl4, Hlog, <- app_assoc. reflexivity. }
  split; [exact Hl|].
  cbv zeta. rewrite Hsess, Hrem, Hlog, Hclock, Hticks, Htot in Hrec.
  rewrite Hrem, Hlog in Hhead.
  split.
  { rewrite Hl. destruct sent as [|x sent]; [contradiction|].
    replace (netlog w ++
             groq_request apiKey selectedText (context_of sessionId w)
             :: x :: sent)
      with ((netlog w ++
             [groq_request apiKey selectedText (context_of sessionId w)])
            ++ x :: sent) by (now rewrite <- app_assoc).
    rewrite (last_app_cons _ x sent _ (NotionGetDatabase credentials)).
    exact Hhead. }
  destruct (session_of sessionId w) as [s|] eqn:Hs; [exact Hrec|].
  destruct Hrec as (Hst & property & children & ->).
  split.
  - destruct Sd. cbn [processing storage with_notifications] in *.
    split; rewrite Hst; assumption.
  - exists property, children. unfold context_of. now rewrite Hs.
Qed.

End MappedFacts.

(** ** Titles and paragraphs *)


Lemma trimStart_head (s : jsstring) :
  match trimStart s with
  | c :: _ => is_js_whitespace c = false
  | [] => True
  end.
Proof.
  induction s as [|c s IH]; [exact I|].
  cbn [trimStart]. destruct (is_js_whitespace c) eqn:E; [exact IH|exact E].
Qed.

(** What [trimStart] removes at the end of a reversed string leaves the
    head of the string in place. *)
Lemma trimStart_rev_head (c : N) (s : jsstring) :
  is_js_whitespace c = false ->
  exists rest, rev (trimStart (rev (c :: s))) = c :: rest.
Proof.
  intros Hc. cbn [rev].
  induction (rev s) as [|d l IH].
  - cbn [app trimStart]. rewrite Hc. now exists [].
  - cbn [app trimStart]. destruct (is_js_whitespace d); [exact IH|].
    cbn [rev]. rewrite rev_app_distr. cbn [rev app]. eauto.
Qed.

Lemma trim_head (s : jsstring) :
  match trim s with
  | c :: _ => is_js_whitespace c = false
  | [] => True
  end.
Proof.
  unfold trim. pose proof (trimStart_head s) as H.
  destruct (trimStart s) as [|c t]; [exact I|].
  destruct (trimStart_rev_head c t H) as (rest & ->). exact H.
Qed.

Lemma trimStart_whitespace (s : jsstring) :
  forallb is_js_whitespace s = true -> trimStart s = [].
Proof.
  induction s as [|c s IH]; [reflexivity|].
  cbn [forallb trimStart]. intros H. apply andb_true_iff in H as [Hc Hs].
  rewrite Hc. now apply IH.
Qed.

Lemma trim_whitespace (s : jsstring) :
  forallb is_js_whitespace s = true -> trim s = [].
Proof.
  intros H. unfold trim. rewrite (trimStart_whitespace s H). reflexivity.
Qed.

Lemma split_blank_lines_whitespace (s : jsstring) : forall in_run piece,
  forallb is_js_whitespace piece = true ->
  forallb is_js_whitespace s = true ->
  Forall (fun p => forallb is_js_whitespace p = true)
         (split_blank_lines_from in_run piece s).
Proof.
  induction s as [|c s IH]; intros in_run piece Hp Hs.
  - cbn. now constructor.
  - cbn [forallb] in Hs. apply andb_true_iff in Hs as [Hc Hs].
    assert (Hpc : forallb is_js_whitespace (piece ++ [c]) = true).
    { rewrite forallb_app, Hp. cbn. now rewrite Hc. }
    cbn [split_blank_lines_from].
    destruct (c =? 10).
    + destruct in_run; [now apply IH|].
      destruct s as [|d s']; [now repeat constructor|].
      destruct (d =? 10).
      * constructor; [exact Hp|]. now apply IH.
      * now apply IH.
    + now apply IH.
Qed.

Lemma titlePropertyName_spec (properties : list (jsstring * jsstring)) :
  In (titlePropertyName properties, js "title") properties \/
  (titlePropertyName properties = js "Name" /\
   forall p, In p properties -> snd p <> js "title").
Proof.
  unfold titlePropertyName.
  destruct (List.find _ properties) as [[a b]|] eqn:E.
  - left. apply find_some in E as [Hin Hb]. cbn [fst snd] in *.
    apply jseqb_eq in Hb. now subst b.
  - right. split; [reflexivity|]. intros p Hin Hp.
    pose proof (find_none _ _ E p Hin) as H. cbv beta in H.
    rewrite Hp, jseqb_refl in H. discriminate.
Qed.

(** ** The service helpers *)

Lemma match_hex32_spec (s : jsstring) :
  match match_hex32 s with
  | Some found =>
      length found = 32%nat /\ forallb is_hex found = true /\
      exists before after,
        s = before ++ found ++ after /\
        forall k, (k < length before)%nat ->
          ~ (length (firstn 32 (skipn k s)) = 32%nat /\
             forallb is_hex (firstn 32 (skipn k s)) = true)
  | None =>
      forall k,
        ~ (length (firstn 32 (skipn k s)) = 32%nat /\
           forallb is_hex (firstn 32 (skipn k s)) = true)
  end.
Proof.
  induction s as [|c s IH].
  - cbn. intros k [H _]. rewrite skipn_nil in H. discriminate.
  - cbn [match_hex32].
    destruct ((length (firstn 32 (c :: s)) =? 32)%nat
              && forallb is_hex (firstn 32 (c :: s))) eqn:E.
    + apply andb_true_iff in E as [El Eh]. apply Nat.eqb_eq in El.
      split; [exact El|]. split; [exact Eh|].
      exists [], (skipn 32 (c :: s)). split.
      * cbn [app]. now rewrite firstn_skipn.
      * intros k Hk. cbn in Hk. lia.
    + destruct (match_hex32 s) as [found|].
      * destruct IH as (Hl & Hh & before & after & Hs & Hmin).
        split; [exact Hl|]. split; [exact Hh|].
        exists (c :: before), after. split; [cbn [app]; now rewrite <- Hs|].
        intros [|k] Hk [H1 H2].
        -- cbn [skipn] in H1, H2. rewrite H2 in E.
           apply Nat.eqb_eq in H1. rewrite H1 in E. discriminate.
        -- cbn [skipn] in H1, H2. cbn [length] in Hk.
           apply (Hmin k); [lia|]. now split.
      * intros [|k] [H1 H2].
        -- cbn [skipn] in H1, H2. rewrite H2 in E.
           apply Nat.eqb_eq in H1. rewrite H1 in E. discriminate.
        -- cbn [skipn] in H1, H2. apply (IH k). now split.
Qed.

Lemma filter_no_hyphen (s : jsstring) :
  forallb is_hex s = true ->
  List.filter (fun c => negb (c =? 45)) s = s.
Proof.
  induction s as [|c s IH]; [reflexivity|].
  cbn [forallb List.filter]. intros H. apply andb_true_iff in H as [Hc Hs].
  assert ((c =? 45) = false).
  { apply N.eqb_neq. intros ->. discriminate. }
  rewrite H. cbn [negb]. now rewrite IH.
Qed.

Lemma filter_idem {A} (f : A -> bool) (l : list A) :
  List.filter f (List.filter f l) = List.filter f l.
Proof.
  induction l as [|a l IH]; [reflexivity|].
  cbn [List.filter]. destruct (f a) eqn:E; [|exact IH].
  cbn [List.filter]. rewrite E. now rewrite IH.
Qed.

Lemma In_firstn {A} n (l : list A) x : In x (firstn n l) -> In x l.
Proof.
  revert l. induction n as [|n IH]; intros [|a l] H; cbn in *; try contradiction.
  destruct H as [->|H]; [now left|right; now apply IH].
Qed.

Lemma nonblank_strings_spec (items : list JSON) s :
  In s (nonblank_strings items) ->
  In (JString s) items /\ nonempty (trim s) = true.
Proof.
  unfold nonblank_strings. intros H. apply in_flat_map in H as (item & Hin & Hs).
  destruct item; try contradiction.
  destruct (nonempty (trim s0)) eqn:E; [|contradiction].
  destruct Hs as [<-|[]]. now split.
Qed.

(** A trimmed string that is not empty, cut at [n + 1], starts with a
    character that is not whitespace. *)
Lemma cut_trimmed n (s : jsstring) :
  nonempty (trim s) = true ->
  exists c rest,
    substring0 (S n) (trim s) = c :: rest /\
    is_js_whitespace c = false /\ (length (c :: rest) <= S n)%nat.
Proof.
  intros H. pose proof (trim_head s) as Hh.
  destruct (trim s) as [|c rest]; [discriminate|].
  exists c, (firstn n rest). split; [reflexivity|]. split; [exact Hh|].
  cbn [length]. pose proof (firstn_le_length n rest). lia.
Qed.

(** ** Locking *)

Lemma decrypt_loads (P : Platform) blob w key w' :
  getOrCreateMasterKey P w = (Ok key, w') ->
  exists r, decrypt P blob w = (r, w').
Proof.
  intros H. unfold decrypt, bind. rewrite H.
  unfold base64ToArrayBuffer_or_throw, throw, ret.
  destruct (base64ToArrayBuffer (iv blob)); [|eauto].
  destruct (base64ToArrayBuffer (data blob)); [|eauto].
  destruct (aes_gcm_decrypt P key _ _); [|eauto].
  destruct (JSON_parse P _); eauto.
Qed.

(** ** Overlapping calls with a stored export *)

Module StoredKeyFacts.
Import SingleFlight StoredKey.

Section Load.
Context (fresh : nat -> list byte) (stored : string) (key : list byte).
Hypothesis Himports : imports stored key.

Lemma inv_load_initial n : inv_load stored key (initial n stored).
Proof.
  cbn. repeat split. apply Forall_forall. intros c Hc.
  now apply elem_of_replicate in Hc.
Qed.

Lemma caller_loading_weaken (l : list Caller) :
  Forall (fun c => c = NotStarted) l -> Forall (caller_loading key) l.
Proof. intros H. eapply Forall_impl; [exact H|]. intros c ->. now left. Qed.

Lemma start_inv_load i s s' :
  inv_load stored key s -> start i s = Some s' -> inv_load stored key s'.
Proof.
  unfold inv_load, start. intros (Hm & Hg & Hinv).
  destruct (callers s !! i) as [[| | | |]|] eqn:Ei; try discriminate.
  destruct (creations s) as [|q [|q' rest]] eqn:Ec; [| |contradiction].
  - destruct Hinv as (Hk & Hp & Hall).
    rewrite Hk, Hp. intros [= <-]. cbn.
    split; [exact Hm|]. split; [exact Hg|].
    split; [|now repeat split].
    apply Forall_insert; [now apply caller_loading_weaken|]. right. now left.
  - destruct Hinv as (Hall & Hq).
    destruct q as [|keyData| |k|b|k|]; try contradiction.
    + destruct Hq as (Hk & Hp). rewrite Hk, Hp. intros [= <-].
      cbn. split; [exact Hm|]. split; [exact Hg|].
      split; [|now repeat split].
      apply Forall_insert; [exact Hall|]. right. right. now left.
    + destruct Hq as (He & Hk & Hp). rewrite Hk, Hp. intros [= <-].
      cbn. split; [exact Hm|]. split; [exact Hg|].
      split; [|now repeat split].
      apply Forall_insert; [exact Hall|]. right. right. now left.
    + destruct Hq as (He & Hk & Hp). rewrite Hk. intros [= <-].
      cbn. split; [exact Hm|]. split; [exact Hg|].
      split; [|now repeat split].
      apply Forall_insert; [exact Hall|]. now repeat right.
Qed.

Lemma resume_inv_load p s s' :
  inv_load stored key s -> resume fresh p s = Some s' -> inv_load stored key s'.
Proof.
  destruct Himports as (Hne & Hd & Hl).
  unfold inv_load, resume. intros (Hm & Hg & Hinv).
  destruct (creations s) as [|q [|q' rest]] eqn:Ec; [| |contradiction].
  - now rewrite lookup_nil.
  - destruct (([q] : list Creation) !! p) as [x|] eqn:Ep; [|discriminate].
    apply SingleFlightFacts.lookup_one in Ep. destruct Ep as [-> ->].
    destruct Hinv as (Hall & Hq).
    destruct q as [|keyData| |k|b|k|]; try contradiction.
    + destruct Hq as (Hk & Hp). rewrite Hm.
      destruct stored as [|c r]; [contradiction|]. rewrite Hd.
      intros [= <-]. cbn. now repeat split.
    + destruct Hq as (-> & Hk & Hp). rewrite Hl. intros [= <-].
      cbn. repeat split; auto.
    + discriminate.
Qed.

Lemma finish_inv_load i s s' :
  inv_load stored key s -> finish i s = Some s' -> inv_load stored key s'.
Proof.
  unfold inv_load, finish. intros (Hm & Hg & Hinv).
  destruct (callers s !! i) as [c|] eqn:Ei; [|discriminate].
  destruct (creations s) as [|q [|q' rest]] eqn:Ec; [| |contradiction].
  - destruct c; try discriminate; now rewrite lookup_nil.
  - destruct Hinv as (Hall & Hq).
    assert (Hc : caller_loading key c) by (eapply Forall_lookup_1; eassumption).
    destruct c as [|p|p| |]; try discriminate;
      destruct Hc as [Hc|[Hc|[Hc|Hc]]]; try discriminate;
      injection Hc as ->; cbn [lookup list_lookup];
      destruct q as [|keyData| |k|b|k|]; try discriminate; try contradiction;
      destruct Hq as (He & Hk & Hp); intros [= <-]; cbn;
      (split; [exact Hm|]); (split; [exact Hg|]);
      (split; [apply Forall_insert; [exact Hall|subst k; now repeat right]
              |repeat split; auto]).
Qed.

Lemma step_inv_load a s s' :
  inv_load stored key s -> step fresh s a = Some s' -> inv_load stored key s'.
Proof.
  destruct a; cbn [step];
    eauto using start_inv_load, resume_inv_load, finish_inv_load.
Qed.

Lemma run_inv_load schedule : forall s s',
  inv_load stored key s -> run fresh s schedule = Some s' ->
  inv_load stored key s'.
Proof.
  induction schedule as [|a rest IH]; intros s s' Hinv; cbn [run].
  - now intros [= <-].
  - destruct (step fresh s a) as [s1|] eqn:E; [|discriminate].
    apply IH. eapply step_inv_load; eassumption.
Qed.

Lemma inv_load_progress s :
  inv_load stored key s ->
  Forall (fun c => has_returned c = true) (callers s) \/
  exists a s', step fresh s a = Some s'.
Proof.
  intros (Hm & Hg & Hinv).
  destruct (SingleFlightFacts.all_returned_or_not (callers s))
    as [H|(i & c & Hi & Hc)]; [now left|right].
  destruct (creations s) as [|q [|q' rest]] eqn:Ec; [| |contradiction].
  - destruct Hinv as (Hk & Hp & Hall).
    assert (c = NotStarted) by (eapply Forall_lookup_1 in Hall; eauto). subst c.
    exists (Start i). cbn [step]. unfold start. rewrite Hi, Hk, Hp. eauto.
  - destruct Hinv as (Hall & Hq).
    assert (Hok : caller_loading key c) by (eapply Forall_lookup_1; eassumption).
    destruct Hok as [ -> | [ -> | [ -> | -> ] ] ]; [ | | | discriminate ].
    + exists (Start i). cbn [step]. unfold start. rewrite Hi.
      destruct (encryptionKey s); [eauto|]. destruct (keyPromise s); eauto.
    + destruct q as [|keyData| |k|b|k|]; try contradiction.
      * exists (Resume 0). cbn [step]. unfold resume. rewrite Ec.
        cbn [lookup list_lookup]. eauto.
      * exists (Resume 0). cbn [step]. unfold resume. rewrite Ec.
        cbn [lookup list_lookup]. destruct (aes_key_length keyData); eauto.
      * exists (Finish i). cbn [step]. unfold finish. rewrite Hi, Ec.
        cbn [lookup list_lookup]. eauto.
    + destruct q as [|keyData| |k|b|k|]; try contradiction.
      * exists (Resume 0). cbn [step]. unfold resume. rewrite Ec.
        cbn [lookup list_lookup]. eauto.
      * exists (Resume 0). cbn [step]. unfold resume. rewrite Ec.
        cbn [lookup list_lookup]. destruct (aes_key_length keyData); eauto.
      * exists (Finish i). cbn [step]. unfold finish. rewrite Hi, Ec.
        cbn [lookup list_lookup]. eauto.
Qed.

End Load.

Section Fail.
Context (fresh : nat -> list byte) (stored : string).
Hypothesis Hunusable : unusable stored.

Lemma inv_fail_initial n : inv_fail stored (initial n stored).
Proof.
  cbn. repeat split. apply Forall_forall. intros c Hc.
  now apply elem_of_replicate in Hc.
Qed.

Lemma caller_failing_weaken (l : list Caller) :
  Forall (fun c => c = NotStarted) l -> Forall caller_failing l.
Proof. intros H. eapply Forall_impl; [exact H|]. intros c ->. now left. Qed.

Lemma start_inv_fail i s s' :
  inv_fail stored s -> start i s = Some s' -> inv_fail stored s'.
Proof.
  unfold inv_fail, start. intros (Hm & Hg & Hk & Hinv).
  destruct (callers s !! i) as [[| | | |]|] eqn:Ei; try discriminate.
  rewrite Hk.
  destruct (creations s) as [|q [|q' rest]] eqn:Ec; [| |contradiction].
  - destruct Hinv as (Hp & Hall).
    rewrite Hp. intros [= <-]. cbn.
    repeat (split; [assumption || reflexivity|]).
    split; [|exact I].
    apply Forall_insert; [now apply caller_failing_weaken|]. right. now left.
  - destruct Hinv as (Hp & Hall & Hq). rewrite Hp. intros [= <-]. cbn.
    repeat (split; [assumption || reflexivity|]).
    split; [|exact Hq].
    apply Forall_insert; [exact Hall|]. right. right. now left.
Qed.

Lemma resume_inv_fail p s s' :
  inv_fail stored s -> resume fresh p s = Some s' -> inv_fail stored s'.
Proof.
  destruct Hunusable as (Hne & Hbad).
  unfold inv_fail, resume. intros (Hm & Hg & Hk & Hinv).
  destruct (creations s) as [|q [|q' rest]] eqn:Ec; [| |contradiction].
  - now rewrite lookup_nil.
  - destruct (([q] : list Creation) !! p) as [x|] eqn:Ep; [|discriminate].
    apply SingleFlightFacts.lookup_one in Ep. destruct Ep as [-> ->].
    destruct Hinv as (Hp & Hall & Hq).
    destruct q as [|keyData| |k|b|k|]; try contradiction.
    + rewrite Hm. destruct stored as [|c r]; [contradiction|].
      destruct (base64ToArrayBuffer (String c r)) as [keyData|];
        intros [= <-]; cbn; now repeat split.
    + rewrite Hq. intros [= <-]. cbn. now repeat split.
    + discriminate.
Qed.

Lemma finish_inv_fail i s s' :
  inv_fail stored s -> finish i s = Some s' -> inv_fail stored s'.
Proof.
  unfold inv_fail, finish. intros (Hm & Hg & Hk & Hinv).
  destruct (callers s !! i) as [c|] eqn:Ei; [|discriminate].
  destruct (creations s) as [|q [|q' rest]] eqn:Ec; [| |contradiction].
  - destruct c; try discriminate; now rewrite lookup_nil.
  - destruct Hinv as (Hp & Hall & Hq).
    assert (Hc : caller_failing c) by (eapply Forall_lookup_1; eassumption).
    destruct c as [|p0|p0| |]; try discriminate;
      destruct Hc as [Hc|[Hc|[Hc|Hc]]]; try discriminate;
      injection Hc as ->; cbn [lookup list_lookup];
      destruct q as [|keyData| |k|b|k|]; try discriminate; try contradiction;
      intros [= <-]; cbn;
      repeat (split; [assumption || reflexivity|]);
      (split; [|exact I]);
      (apply Forall_insert; [exact Hall|now repeat right]).
Qed.

Lemma step_inv_fail a s s' :
  inv_fail stored s -> step fresh s a = Some s' -> inv_fail stored s'.
Proof.
  destruct a; cbn [step];
    eauto using start_inv_fail, resume_inv_fail, finish_inv_fail.
Qed.

Lemma run_inv_fail schedule : forall s s',
  inv_fail stored s -> run fresh s schedule = Some s' -> inv_fail stored s'.
Proof.
  induction schedule as [|a rest IH]; intros s s' Hinv; cbn [run].
  - now intros [= <-].
  - destruct (step fresh s a) as [s1|] eqn:E; [|discriminate].
    apply IH. eapply step_inv_fail; eassumption.
Qed.

Lemma all_failed_or_not (l : list Caller) :
  Forall (fun c => has_failed c = true) l \/
  exists i c, l !! i = Some c /\ has_failed c = false.
Proof.
  induction l as [|c l [IH|(i & c' & Hi & Hc)]].
  - left. constructor.
  - destruct (has_failed c) eqn:E.
    + left. now constructor.
    + right. now exists 0%nat, c.
  - right. now exists (S i), c'.
Qed.

Lemma inv_fail_progress s :
  inv_fail stored s ->
  Forall (fun c => has_failed c = true) (callers s) \/
  exists a s', step fresh s a = Some s'.
Proof.
  intros (Hm & Hg & Hk & Hinv).
  destruct (all_failed_or_not (callers s)) as [H|(i & c & Hi & Hc)];
    [now left|right].
  destruct (creations s) as [|q [|q' rest]] eqn:Ec; [| |contradiction].
  - destruct Hinv as (Hp & Hall).
    assert (c = NotStarted) by (eapply Forall_lookup_1 in Hall; eauto). subst c.
    exists (Start i). cbn [step]. unfold start. rewrite Hi, Hk, Hp. eauto.
  - destruct Hinv as (Hp & Hall & Hq).
    assert (Hok : caller_failing c) by (eapply Forall_lookup_1; eassumption).
    destruct Hok as [ -> | [ -> | [ -> | -> ] ] ]; [ | | | discriminate ].
    + exists (Start i). cbn [step]. unfold start. rewrite Hi, Hk, Hp. eauto.
    + destruct q as [|keyData| |k|b|k|]; try contradiction.
      * exists (Resume 0). cbn [step]. unfold resume. rewrite Ec.
        cbn [lookup list_lookup]. eauto.
      * exists (Resume 0). cbn [step]. unfold resume. rewrite Ec.
        cbn [lookup list_lookup]. destruct (aes_key_length keyData); eauto.
      * exists (Finish i). cbn [step]. unfold finish. rewrite Hi, Ec.
        cbn [lookup list_lookup]. eauto.
    + destruct q as [|keyData| |k|b|k|]; try contradiction.
      * exists (Resume 0). cbn [step]. unfold resume. rewrite Ec.
        cbn [lookup list_lookup]. eauto.
      * exists (Resume 0). cbn [step]. unfold resume. rewrite Ec.
        cbn [lookup list_lookup]. destruct (aes_key_length keyData); eauto.
      * exists (Finish i). cbn [step]. unfold finish. rewrite Hi, Ec.
        cbn [lookup list_lookup]. eauto.
Qed.

End Fail.

Lemma weight_initial_stored n stored : weight (initial n stored) = (7 * n)%nat.
Proof.
  unfold weight, initial. cbn [callers creations total].
  induction n as [|n IH]; cbn in *; lia.
Qed.

End StoredKeyFacts.

(** * Further properties of the code *)

(** ** [CryptoUtils] *)

(** X1. [base64ToArrayBuffer] undoes [arrayBufferToBase64] on every
    buffer; the base64 text of [n] bytes has [4 * ceil(n / 3)]
    characters, and two buffers with the same text are equal. *)
Theorem base64_buffer_roundtrip (buffer : list byte) :
  base64ToArrayBuffer (arrayBufferToBase64 buffer) = Some buffer /\
  String.length (arrayBufferToBase64 buffer) =
    (4 * ((length buffer + 2) / 3))%nat /\
  (forall other,
      arrayBufferToBase64 other = arrayBufferToBase64 buffer -> other = buffer).
Proof.
  split; [apply base64_roundtrip|].
  split; [apply arrayBufferToBase64_length|].
  intros other. apply arrayBufferToBase64_inj.
Qed.

(** X2. On an installation with no key (none cached, none in flight,
    none stored), [getOrCreateMasterKey] takes the next 32 bytes of the
    random source as the key, caches it and stores its base64 export
    under [_masterKey]. Once the cached key is cleared, the next call
    imports the stored export: it returns the same key, draws no
    randomness and leaves the state as it was before the key was
    cleared. *)
Theorem masterKey_survives_clearKey (P : Platform) (w : World) :
  _encryptionKey (crypto w) = None ->
  _keyPromise (crypto w) = None ->
  _masterKey (storage w) = None ->
  let key := map (entropy w) (seq (drawn w) 32) in
  exists w1,
    getOrCreateMasterKey P w = (Ok key, w1) /\
    drawn w1 = (drawn w + 32)%nat /\
    _masterKey (storage w1) = Some (arrayBufferToBase64 key) /\
    hasKey w1 = (Ok true, w1) /\
    fst (hasKey (snd (clearKey w1))) = Ok false /\
    getOrCreateMasterKey P (snd (clearKey w1)) = (Ok key, w1).
Proof.
  intros Hk Hp Hm key.
  rewrite (getOrCreateMasterKey_generates P w Hk Hp (or_introl Hm)).
  fold key. eexists. split; [reflexivity|].
  split; [reflexivity|]. split; [reflexivity|]. split; [reflexivity|].
  split; [reflexivity|].
  destruct (arrayBufferToBase64_nonempty key) as (c & rest & Hb);
    [apply seq_32_nonempty|].
  erewrite getOrCreateMasterKey_loads; [reflexivity|reflexivity|reflexivity|].
  exists c, rest. cbn [storage with_storage with_crypto write_key _masterKey].
  rewrite <- Hb. split; [reflexivity|].
  split; [apply base64_roundtrip|]. apply aes_key_length_32.
Qed.

Lemma masterKey_survives_clearKey_witness :
  let w := Toy.installed Toy.silent in
  let key := map (entropy w) (seq 0 32) in
  exists w1,
    getOrCreateMasterKey Toy.platform w = (Ok key, w1) /\
    drawn w1 = 32%nat /\
    _masterKey (storage w1) = Some (arrayBufferToBase64 key) /\
    hasKey w1 = (Ok true, w1) /\
    fst (hasKey (snd (clearKey w1))) = Ok false /\
    getOrCreateMasterKey Toy.platform (snd (clearKey w1)) = (Ok key, w1).
Proof.
  cbv zeta.
  apply (masterKey_survives_clearKey Toy.platform (Toy.installed Toy.silent));
    reflexivity.
Defined.

(** X3. When the stored [_masterKey] is a non-empty string that is not
    base64, or decodes to material that is not an AES key, the first
    [getOrCreateMasterKey] throws and leaves its rejected promise in
    [_keyPromise]. From then on, whatever is done to storage, every call
    throws the same error, and so do [encrypt], [decrypt] and
    [setEncrypted], while [getEncrypted] returns [null] for every
    name. *)
Theorem masterKey_failure_sticks (P : Platform) (w : World) (stored : string) :
  _encryptionKey (crypto w) = None ->
  _keyPromise (crypto w) = None ->
  _masterKey (storage w) = Some stored ->
  stored <> EmptyString ->
  match base64ToArrayBuffer stored with
  | Some keyData => aes_key_length keyData = false
  | None => True
  end ->
  let e := match base64ToArrayBuffer stored with
           | Some _ => builtin P "DataError"
           | None => builtin P "InvalidCharacterError"
           end in
  exists w1,
    getOrCreateMasterKey P w = (Throw e, w1) /\
    storage w1 = storage w /\
    forall w2, crypto w2 = crypto w1 ->
      getOrCreateMasterKey P w2 = (Throw e, w2) /\
      (forall v, encrypt P v w2 = (Throw e, w2)) /\
      (forall blob, decrypt P blob w2 = (Throw e, w2)) /\
      (forall key v, setEncrypted P key v w2 = (Throw e, w2)) /\
      (forall key, getEncrypted P key w2 = (Ok JNull, w2)).
Proof.
  intros Hk Hp Hm Hne Hbad e.
  rewrite (getOrCreateMasterKey_fails P w stored Hk Hp Hm Hne Hbad). fold e.
  eexists. split; [reflexivity|]. split; [reflexivity|].
  intros w2 Hc.
  assert (H2 : getOrCreateMasterKey P w2 = (Throw e, w2)).
  { apply getOrCreateMasterKey_settled; rewrite Hc; reflexivity. }
  split; [exact H2|]. now apply key_failure_spreads.
Qed.

(** The stored key is the one character [!]; after the failure the
    stored key is replaced by the export of a valid key, and the call
    still throws. *)
Lemma masterKey_failure_sticks_witness :
  let w := with_storage (write_key K_masterKey "!") (Toy.installed Toy.silent) in
  let e := Exception "InvalidCharacterError" (js "InvalidCharacterError") in
  exists w1,
    getOrCreateMasterKey Toy.platform w = (Throw e, w1) /\
    storage w1 = storage w /\
    let w2 := with_storage
                (write_key K_masterKey
                   (arrayBufferToBase64 (map (entropy w) (seq 0 32)))) w1 in
    getOrCreateMasterKey Toy.platform w2 = (Throw e, w2) /\
    getEncrypted Toy.platform "groqApiKey" w2 = (Ok JNull, w2).
Proof.
  cbv zeta.
  destruct (masterKey_failure_sticks Toy.platform
              (with_storage (write_key K_masterKey "!") (Toy.installed Toy.silent))
              "!" eq_refl eq_refl eq_refl)
    as (w1 & H1 & Hs & Hlater); [discriminate|exact I|].
  exists w1. split; [exact H1|]. split; [exact Hs|].
  destruct (Hlater (with_storage
                      (write_key K_masterKey
                         (arrayBufferToBase64
                            (map (entropy (Toy.installed Toy.silent)) (seq 0 32))))
                      w1) eq_refl) as (H2 & _ & _ & _ & H3).
  split; [exact H2|]. exact (H3 "groqApiKey").
Defined.

(** X4. A value encrypted from a state with no cached key can be read
    back after the cached key is cleared, with no password involved:
    [decrypt] reloads the key from storage and returns the value, and
    [deriveKey] returns that same key for every password it is given. *)
Theorem secrets_readable_after_clearKey (P : Platform) (w : World) (v : JSON) :
  PlatformLaws P ->
  _encryptionKey (crypto w) = None ->
  key_usable w = true ->
  JSON_serializable P v ->
  exists blob w1 key,
    encrypt P v w = (Ok blob, w1) /\
    _encryptionKey (crypto w1) = Some key /\
    fst (hasKey (snd (clearKey w1))) = Ok false /\
    decrypt P blob (snd (clearKey w1)) = (Ok v, w1) /\
    forall password,
      deriveKey P password (snd (clearKey w1)) = (Ok (Some key), w1).
Proof.
  intros HP Hk Hu Hv.
  destruct (getOrCreateMasterKey_stored P w Hk Hu)
    as (key & w' & Hget & Hlen & Hc & Hs & Hent).
  set (w1 := with_drawn (drawn w' + 12) w').
  assert (Hc1 : crypto w1 = {| _encryptionKey := Some key; _keyPromise := None |})
    by exact Hc.
  assert (Hs1 : key_stored w1 key) by exact Hs.
  assert (Hk1 : _encryptionKey (crypto w1) = Some key) by now rewrite Hc1.
  pose proof (reload_after_clearKey P w1 key Hc1 Hs1) as Hre.
  eexists _, w1, key. split.
  { unfold encrypt, bind. rewrite Hget. reflexivity. }
  split; [exact Hk1|]. split; [reflexivity|]. split.
  - rewrite (decrypt_after_key P _ _ key w1 Hre Hk1).
    apply (decrypt_run P w1 key _ _ (UTF8.encode (JSON_stringify P v)) v Hk1).
    + now apply (aes_gcm_correct P HP).
    + destruct (stringify_well_formed P HP v) as [Hwf Hb].
      rewrite UTF8Facts.decode_encode by assumption. exact Hv.
  - intros password. unfold deriveKey, bind. rewrite Hre. now rewrite Hk1.
Qed.

Lemma secrets_readable_after_clearKey_witness :
  exists blob w1 key,
    encrypt Toy.platform (JBool true) (Toy.installed Toy.silent) = (Ok blob, w1) /\
    _encryptionKey (crypto w1) = Some key /\
    fst (hasKey (snd (clearKey w1))) = Ok false /\
    decrypt Toy.platform blob (snd (clearKey w1)) = (Ok (JBool true), w1) /\
    forall password,
      deriveKey Toy.platform password (snd (clearKey w1)) = (Ok (Some key), w1).
Proof.
  apply (secrets_readable_after_clearKey Toy.platform
           (Toy.installed Toy.silent) (JBool true)).
  - exact ToyFacts.laws.
  - reflexivity.
  - reflexivity.
  - reflexivity.
Defined.

(** X5. [clearAll] empties storage but leaves the cached key in memory.
    A value encrypted afterwards is encrypted under that cached key,
    whose export is no longer stored anywhere; once the cached key is
    cleared, the next key request does not recover it but takes 32 new
    bytes from the random source as the key. *)
Theorem clearAll_keeps_cached_key (P : Platform) (w : World) (key : list byte)
    (v : JSON) :
  _encryptionKey (crypto w) = Some key ->
  _keyPromise (crypto w) = None ->
  let iv := map (entropy w) (seq (drawn w) 12) in
  exists blob w1,
    (clearAll;; encrypt P v) w = (Ok blob, w1) /\
    storage w1 = empty_storage /\
    _encryptionKey (crypto w1) = Some key /\
    base64ToArrayBuffer (data blob) =
      Some (aes_gcm_encrypt P key iv (UTF8.encode (JSON_stringify P v))) /\
    fst (getOrCreateMasterKey P (snd (clearKey w1))) =
      Ok (map (entropy w) (seq (drawn w + 12) 32)).
Proof.
  intros Hk Hp iv. unfold bind, clearAll, modify, encrypt, bind.
  rewrite (getOrCreateMasterKey_cached P _ key) by exact Hk.
  cbn [getRandomValues]. eexists _, _. split; [reflexivity|].
  split; [reflexivity|]. split; [exact Hk|].
  split; [apply base64_roundtrip|].
  rewrite getOrCreateMasterKey_generates.
  - reflexivity.
  - reflexivity.
  - exact Hp.
  - now left.
Qed.

Lemma clearAll_keeps_cached_key_witness :
  let w := Scenario.ready Toy.silent in
  exists key blob w1,
    _encryptionKey (crypto w) = Some key /\
    (clearAll;; encrypt Toy.platform (JBool true)) w = (Ok blob, w1) /\
    storage w1 = empty_storage /\
    _encryptionKey (crypto w1) = Some key /\
    base64ToArrayBuffer (data blob) =
      Some (aes_gcm_encrypt Toy.platform key
              (map (entropy w) (seq (drawn w) 12))
              (UTF8.encode (JSON_stringify Toy.platform (JBool true)))) /\
    fst (getOrCreateMasterKey Toy.platform (snd (clearKey w1))) =
      Ok (map (entropy w) (seq (drawn w + 12) 32)).
Proof.
  cbv zeta.
  exists (map (entropy (Toy.installed Toy.silent)) (seq 0 32)).
  assert (Hk : _encryptionKey (crypto (Scenario.ready Toy.silent)) =
               Some (map (entropy (Toy.installed Toy.silent)) (seq 0 32)))
    by (vm_compute; reflexivity).
  assert (Hp : _keyPromise (crypto (Scenario.ready Toy.silent)) = None)
    by (vm_compute; reflexivity).
  destruct (clearAll_keeps_cached_key Toy.platform (Scenario.ready Toy.silent)
              _ (JBool true) Hk Hp) as (blob & w1 & H).
  exists blob, w1. split; [exact Hk|]. exact H.
Defined.

(** X6. [generateId] returns the clock reading in base 36, a hyphen, and
    exactly eight base-36 digits made from the next eight bytes of the
    random source. The part before the hyphen is non-empty, holds digits
    only and writes the clock reading; the call takes one clock reading
    and eight random bytes and leaves storage alone. *)
Theorem generateId_format (w : World) :
  let now := clock w (ticks w) in
  exists random w',
    generateId w = (Ok (toString36 now ++ js "-" ++ random), w') /\
    length random = 8%nat /\
    forallb is_digit36 random = true /\
    toString36 now <> [] /\
    forallb is_digit36 (toString36 now) = true /\
    value36 (toString36 now) = now /\
    ticks w' = S (ticks w) /\ drawn w' = (drawn w + 8)%nat /\
    storage w' = storage w.
Proof.
  intros now. destruct (generateId_run w) as (Hrun & Hlen & Hdigits).
  eexists _, _. split; [exact Hrun|]. split; [exact Hlen|].
  split; [exact Hdigits|].
  destruct (toString36_spec now) as (Hne & Hall & Hv).
  repeat split; assumption.
Qed.

(** X7. Two identifiers that [generateId] makes at different clock
    readings are different, whatever the random bytes are. *)
Theorem generateId_distinct_times (w1 w2 : World) :
  clock w1 (ticks w1) <> clock w2 (ticks w2) ->
  forall id1 id2 w1' w2',
    generateId w1 = (Ok id1, w1') -> generateId w2 = (Ok id2, w2') ->
    id1 <> id2.
Proof.
  intros Hclock id1 id2 w1' w2' H1 H2 E.
  rewrite (proj1 (generateId_run w1)) in H1.
  rewrite (proj1 (generateId_run w2)) in H2.
  injection H1 as <- _. injection H2 as <- _.
  apply Hclock, toString36_inj.
  apply (digits_before_hyphen _ _ _ _
           (proj1 (proj2 (toString36_spec _)))
           (proj1 (proj2 (toString36_spec _))) E).
Qed.

(** Two identifiers made one after the other, one millisecond apart,
    from the same eight random bytes. *)
Lemma generateId_distinct_times_witness :
  let w1 := Toy.installed Toy.silent in
  let w2 := with_drawn 0 (snd (generateId w1)) in
  map (entropy w1) (seq (drawn w1) 8) = map (entropy w2) (seq (drawn w2) 8) /\
  forall id1 id2 w1' w2',
    generateId w1 = (Ok id1, w1') -> generateId w2 = (Ok id2, w2') ->
    id1 <> id2.
Proof.
  cbv zeta. split; [reflexivity|].
  apply generateId_distinct_times. vm_compute. discriminate.
Defined.

(** X8. [hashPassword] reads 16 bytes of the random source for the salt
    and nothing else: storage and the key state are untouched. Hashing
    the same password twice uses two successive draws; when they differ
    the two records differ, and the password verifies against both. *)
Theorem hashPassword_salts (P : Platform) (password : jsstring) (w : World) :
  let salt1 := map (entropy w) (seq (drawn w) 16) in
  let salt2 := map (entropy w) (seq (drawn w + 16) 16) in
  exists r1 w1 r2 w2,
    hashPassword P password w = (Ok r1, w1) /\
    hashPassword P password w1 = (Ok r2, w2) /\
    base64ToArrayBuffer (salt r1) = Some salt1 /\
    base64ToArrayBuffer (salt r2) = Some salt2 /\
    storage w2 = storage w /\ crypto w2 = crypto w /\
    (salt1 <> salt2 -> salt r1 <> salt r2) /\
    verifyPassword P password r1 w2 = (Ok true, w2) /\
    verifyPassword P password r2 w2 = (Ok true, w2).
Proof.
  intros salt1 salt2. rewrite hashPassword_run.
  eexists _, _, _, _. split; [reflexivity|].
  rewrite hashPassword_run. split; [reflexivity|].
  cbn [salt hash with_drawn storage crypto entropy drawn].
  fold salt1. fold salt2.
  split; [apply base64_roundtrip|]. split; [apply base64_roundtrip|].
  split; [reflexivity|]. split; [reflexivity|]. split.
  - intros Hne E. apply arrayBufferToBase64_inj in E. contradiction.
  - split; rewrite verifyPassword_run, String.eqb_refl; reflexivity.
Qed.

Lemma hashPassword_salts_witness :
  let w := Toy.installed Toy.silent in
  exists r1 w1 r2 w2,
    hashPassword Toy.platform (js "hunter2") w = (Ok r1, w1) /\
    hashPassword Toy.platform (js "hunter2") w1 = (Ok r2, w2) /\
    salt r1 <> salt r2 /\
    verifyPassword Toy.platform (js "hunter2") r1 w2 = (Ok true, w2) /\
    verifyPassword Toy.platform (js "hunter2") r2 w2 = (Ok true, w2).
Proof.
  cbv zeta.
  destruct (hashPassword_salts Toy.platform (js "hunter2")
              (Toy.installed Toy.silent))
    as (r1 & w1 & r2 & w2 & H1 & H2 & _ & _ & _ & _ & Hne & Hv1 & Hv2).
  exists r1, w1, r2, w2. split; [exact H1|]. split; [exact H2|].
  split; [|split; assumption].
  apply Hne. vm_compute. discriminate.
Defined.

(** ** [StorageManager] *)

(** X9. A value stored with [setEncrypted] is what [getEncrypted]
    returns for the same name; the entries under other names, and the
    plain keys, are as before. *)
Theorem setEncrypted_getEncrypted (P : Platform) (w : World) (key : string)
    (v : JSON) :
  PlatformLaws P ->
  key_usable w = true ->
  JSON_serializable P v ->
  exists w1,
    setEncrypted P key v w = (Ok tt, w1) /\
    getEncrypted P key w1 = (Ok v, w1) /\
    (forall other, other <> key ->
       lookup_key (K_named (encrypted_name other)) (storage w1) =
       lookup_key (K_named (encrypted_name other)) (storage w)) /\
    setupComplete (storage w1) = setupComplete (storage w) /\
    isLocked (storage w1) = isLocked (storage w) /\
    activeSessionId (storage w1) = activeSessionId (storage w) /\
    sessions (storage w1) = sessions (storage w) /\
    totalNotes (storage w1) = totalNotes (storage w).
Proof.
  intros HP Hu Hv.
  destruct (encrypt_run P w v Hu) as (k & w' & Hk & Hlen & Hc & _ & He).
  pose proof (getOrCreateMasterKey_keeps P w _ _ Hk) as K.
  eexists. split.
  { unfold setEncrypted, try_catch, bind. rewrite He. reflexivity. }
  split.
  - pose proof (getEncrypted_run P key
                  (snd (StorageManager_set (K_named (encrypted_name key))
                          {| iv := arrayBufferToBase64
                                     (map (entropy w') (seq (drawn w') 12));
                             data := arrayBufferToBase64
                                       (aes_gcm_encrypt P k
                                          (map (entropy w') (seq (drawn w') 12))
                                          (UTF8.encode (JSON_stringify P v))) |}
                          (with_drawn (drawn w' + 12) w')))) as R.
    cbn [StorageManager_set modify snd storage with_storage with_drawn
         write_key lookup_key encrypted] in R.
    rewrite lookup_insert_eq in R. cbv beta iota in R.
    erewrite decrypt_run in R; [exact R|exact Hc| |].
    + now apply (aes_gcm_correct P HP).
    + destruct (stringify_well_formed P HP v) as [Hwf Hb].
      rewrite UTF8Facts.decode_encode by assumption. exact Hv.
  - destruct K as [Ka Kb Kc Kd Ke Kf _ _ _ _ _ _].
    cbn [StorageManager_set modify snd storage with_storage with_drawn
         write_key lookup_key encrypted setupComplete isLocked
         activeSessionId sessions totalNotes].
    split; [|auto].
    intros other Hne. rewrite lookup_insert_ne.
    + now rewrite Kf.
    + intros E. apply encrypted_name_inj in E. congruence.
Qed.

Lemma setEncrypted_getEncrypted_witness :
  let w := Toy.installed Toy.silent in
  exists w1,
    setEncrypted Toy.platform "groqApiKey" (JBool true) w = (Ok tt, w1) /\
    getEncrypted Toy.platform "groqApiKey" w1 = (Ok (JBool true), w1) /\
    getEncrypted Toy.platform "notionCredentials" w1 = (Ok JNull, w1).
Proof.
  cbv zeta.
  destruct (setEncrypted_getEncrypted Toy.platform (Toy.installed Toy.silent)
              "groqApiKey" (JBool true) ToyFacts.laws eq_refl eq_refl)
    as (w1 & H1 & H2 & Hother & _).
  exists w1. split; [exact H1|]. split; [exact H2|].
  pose proof (getEncrypted_run Toy.platform "notionCredentials" w1) as R.
  rewrite (Hother "notionCredentials") in R by discriminate. exact R.
Defined.


(** ** [SessionManager] *)

(** X11. [createSession] puts the new session in front of the stored
    ones, which are kept in their order, and makes it the active one:
    [getActiveSession] returns it right after. The session carries the
    name it was given, an identifier from [generateId], no page, no
    contents and a count of zero; [totalNotes] is untouched. *)
Theorem createSession_puts_first (P : Platform) (name0 : jsstring) (w : World) :
  exists s w',
    createSession P name0 w = (Ok s, w') /\
    stored_sessions w' = s :: stored_sessions w /\
    activeSessionId (storage w') = Some (id s) /\
    getActiveSession w' = (Ok (Some s), w') /\
    Ok (id s) = fst (generateId w) /\
    name s = name0 /\
    notionPageId s = None /\ contents s = Some [] /\
    contentCount s = Some 0%Z /\
    totalNotes (storage w') = totalNotes (storage w).
Proof.
  cbv [createSession bind getSessions StorageManager_get ret lookup_key
       generateId Date_now getRandomValues Date_toISOString
       StorageManager_set setActiveSession modify].
  eexists _, _. split; [reflexivity|].
  split; [reflexivity|]. split; [reflexivity|]. split.
  - rewrite getActiveSession_run. unfold stored_sessions.
    cbn [storage with_storage with_drawn with_ticks write_key sessions
         activeSessionId List.find has_id id].
    now rewrite jseqb_refl.
  - repeat split.
Qed.

(** X12. [setSessionPageId(id, page)] does what [updateSession(id,
    { notionPageId: page })] does. For an id no stored session has, it
    returns [null] and changes nothing. Otherwise the first session with
    that id gets the page and keeps its other fields; what [find]
    returns for any other id, the ids of the list in their order, the
    active id and [totalNotes] stay as they were. *)
Theorem setSessionPageId_spec (sessionId pageId : jsstring) (w : World) :
  setSessionPageId sessionId pageId w =
    updateSession sessionId
      {| set_name := None; set_notionPageId := Some (Some pageId) |} w /\
  match session_of sessionId w with
  | None => setSessionPageId sessionId pageId w = (Ok None, w)
  | Some s =>
      exists s' w',
        setSessionPageId sessionId pageId w = (Ok (Some s'), w') /\
        session_of sessionId w' = Some s' /\
        notionPageId s' = Some pageId /\
        id s' = id s /\ name s' = name s /\ createdAt s' = createdAt s /\
        contents s' = contents s /\ contentCount s' = contentCount s /\
        (forall other, other <> sessionId ->
           session_of other w' = session_of other w) /\
        map id (stored_sessions w') = map id (stored_sessions w) /\
        activeSessionId (storage w') = activeSessionId (storage w) /\
        totalNotes (storage w') = totalNotes (storage w)
  end.
Proof.
  split.
  - cbv [setSessionPageId updateSession bind getSessions StorageManager_get
         ret lookup_key].
    destruct (List.find _ _); reflexivity.
  - unfold session_of, stored_sessions.
    cbv [setSessionPageId bind getSessions StorageManager_get ret lookup_key].
    destruct (List.find (has_id (Some sessionId))
                match sessions (storage w) with Some l => l | None => [] end)
      as [s|] eqn:Hf; [|reflexivity].
    assert (Hid : id s = sessionId).
    { apply find_some in Hf. now apply has_id_true. }
    eexists _, _. split; [reflexivity|].
    cbn [StorageManager_set modify snd storage with_storage write_key sessions
         activeSessionId totalNotes].
    split.
    { apply (find_replace_first _ s); [exact Hf|]. now apply has_id_true. }
    split; [reflexivity|]. split; [reflexivity|]. split; [reflexivity|].
    split; [reflexivity|]. split; [reflexivity|]. split; [reflexivity|].
    split.
    { intros other Hne. now apply find_replace_first_other. }
    split; [now apply map_id_replace_first|]. split; reflexivity.
Qed.

(** X13. [deleteSession(id)] removes every stored session with that id
    and keeps the others in their order; [totalNotes] is not changed.
    When the deleted id was the active one, the first remaining session
    becomes active (none when no session remains or its id is empty), and
    [getActiveSession] returns it; otherwise the active id is kept. *)
Theorem deleteSession_spec (sessionId : jsstring) (w : World) :
  exists w',
    deleteSession sessionId w = (Ok tt, w') /\
    stored_sessions w' =
      List.filter (fun s => negb (jseqb (id s) sessionId)) (stored_sessions w) /\
    session_of sessionId w' = None /\
    (forall other, other <> sessionId ->
       session_of other w' = session_of other w) /\
    totalNotes (storage w') = totalNotes (storage w) /\
    (activeSessionId (storage w) <> Some sessionId ->
     activeSessionId (storage w') = activeSessionId (storage w)) /\
    (activeSessionId (storage w) = Some sessionId ->
     let next := match stored_sessions w' with
                 | first :: _ => if nonempty (id first) then Some first else None
                 | [] => None
                 end in
     activeSessionId (storage w') = option_map id next /\
     getActiveSession w' = (Ok next, w')).
Proof.
  cbv [deleteSession bind getSessions StorageManager_get ret lookup_key
       StorageManager_set modify].
  cbn [storage with_storage write_key activeSessionId].
  fold (stored_sessions w).
  set (filtered := List.filter _ (stored_sessions w)).
  destruct (has_active (activeSessionId (storage w)) sessionId) eqn:Ha.
  - assert (Hact : activeSessionId (storage w) = Some sessionId).
    { unfold has_active in Ha.
      destruct (activeSessionId (storage w)) as [a|]; [|discriminate].
      now apply jseqb_eq in Ha as ->. }
    destruct filtered as [|first rest] eqn:Ef.
    + eexists. split; [reflexivity|]. unfold session_of, stored_sessions.
      cbn [StorageManager_set_null modify snd storage with_storage erase_key
           sessions totalNotes activeSessionId write_key].
      split; [reflexivity|]. split; [reflexivity|]. split.
      { intros other Hne. fold (stored_sessions w). rewrite <- Ef.
        now apply find_filter_other. }
      split; [reflexivity|]. split; [congruence|].
      intros _. cbv zeta. split; [reflexivity|].
      rewrite getActiveSession_run. reflexivity.
    + destruct (nonempty (id first)) eqn:En.
      * eexists. split; [reflexivity|]. unfold session_of, stored_sessions.
        cbn [StorageManager_set modify snd storage with_storage
             sessions totalNotes activeSessionId write_key].
        split; [reflexivity|]. split.
        { rewrite <- Ef. apply find_filter_same. }
        split.
        { intros other Hne. fold (stored_sessions w). rewrite <- Ef.
          now apply find_filter_other. }
        split; [reflexivity|]. split; [congruence|].
        intros _. cbv zeta. rewrite En. split; [reflexivity|].
        rewrite getActiveSession_run. unfold stored_sessions.
        cbn [storage with_storage write_key sessions activeSessionId
             List.find has_id].
        now rewrite jseqb_refl.
      * eexists. split; [reflexivity|]. unfold session_of, stored_sessions.
        cbn [StorageManager_set_null modify snd storage with_storage erase_key
             sessions totalNotes activeSessionId write_key].
        split; [reflexivity|]. split.
        { rewrite <- Ef. apply find_filter_same. }
        split.
        { intros other Hne. fold (stored_sessions w). rewrite <- Ef.
          now apply find_filter_other. }
        split; [reflexivity|]. split; [congruence|].
        intros _. cbv zeta. rewrite En. split; [reflexivity|].
        rewrite getActiveSession_run.
        cbn [storage with_storage activeSessionId]. now rewrite find_has_id_None.
  - eexists. split; [reflexivity|]. unfold session_of, stored_sessions.
    cbn [snd storage with_storage sessions totalNotes activeSessionId write_key].
    split; [reflexivity|]. split; [apply find_filter_same|]. split.
    { intros other Hne. now apply find_filter_other. }
    split; [reflexivity|]. split; [reflexivity|].
    intros Hact. rewrite Hact in Ha. cbn in Ha. now rewrite jseqb_refl in Ha.
Qed.



(** ** The capture flow *)

(** X15. [handleMapping] never throws. Every capture ends in exactly
    one of three ways: refused by a check with one of five reasons,
    failed with an exception that was caught, or mapped. The tab gets the
    matching notification last (after ['Processing...'] unless one of
    the first three checks refused), the popup gets [MAPPING_ERROR] or
    [MAPPING_COMPLETE] accordingly and nothing on a refusal. At most
    three requests are sent: none on a refusal, at least two when
    mapped. *)
Theorem handleMapping_always_reports (P : Platform) (selectedText : jsstring)
    (sourceUrl : option jsstring) (tabId : N) (w : World) :
  exists w' ending sent,
    handleMapping P selectedText sourceUrl tabId w = (Ok tt, w') /\
    notifications w' = notifications w ++ notified ending /\
    runtime_messages w' = runtime_messages w ++ told ending /\
    netlog w' = netlog w ++ sent /\
    (length sent <= 3)%nat /\
    match ending with
    | Refused reason => In reason refusals /\ sent = []
    | Failed e => (1 <= length sent)%nat
    | Mapped => (2 <= length sent)%nat
    end.
Proof.
  destruct (handleMapping_outcome P selectedText sourceUrl tabId w)
    as (w' & ending & sent & Hrun & Hn & Hr & Hl & He).
  exists w', ending, sent. repeat (split; [assumption|]).
  destruct ending as [reason|e|].
  - destruct He as (Hin & -> & _). cbn. split; [lia|auto].
  - destruct He as (Hlen & _). split; lia.
  - destruct He as (Hlen & _). split; lia.
Qed.

(** X16. A capture that does not end with [MAPPING_COMPLETE] leaves the
    stored data as it was: the sessions, [totalNotes], the active id,
    the setup and lock flags and the encrypted entries. *)
Theorem unmapped_capture_stores_nothing (P : Platform) (selectedText : jsstring)
    (sourceUrl : option jsstring) (tabId : N) (w : World)
    (result : Result unit) (w' : World) :
  handleMapping P selectedText sourceUrl tabId w = (result, w') ->
  runtime_messages w' <> runtime_messages w ++ [MAPPING_COMPLETE] ->
  same_stored_data w w'.
Proof.
  intros Hrun Hnot.
  destruct (handleMapping_outcome P selectedText sourceUrl tabId w)
    as (w1 & ending & sent & Hrun1 & _ & Hr & _ & He).
  rewrite Hrun in Hrun1. injection Hrun1 as -> <-.
  destruct ending as [reason|e|].
  - apply He.
  - apply He.
  - contradiction.
Qed.

(** The structuring service and the document store cannot be reached:
    the capture fails and the session store is as before. *)
Lemma unmapped_capture_stores_nothing_witness :
  let w := Scenario.ready Toy.silent in
  let w' := snd (handleMapping Toy.platform Scenario.sentence
                   (Some Scenario.url) 1 w) in
  runtime_messages w' = [MAPPING_ERROR (js "Failed to fetch")] /\
  same_stored_data w w'.
Proof.
  cbv zeta. split; [vm_compute; reflexivity|].
  apply (unmapped_capture_stores_nothing Toy.platform Scenario.sentence
           (Some Scenario.url) 1 (Scenario.ready Toy.silent)
           (fst (handleMapping Toy.platform Scenario.sentence
                   (Some Scenario.url) 1 (Scenario.ready Toy.silent)))).
  - vm_compute; reflexivity.
  - vm_compute; discriminate.
Defined.



(** X18. When the active id is the id of no stored session, a capture
    that passes the checks still creates a page, named ['Default'], and
    reports success, but records nothing: the sessions, [totalNotes] and
    the active id are as before, so the next capture creates another
    page. *)
Theorem capture_without_session_is_lost (P : Platform) (selectedText : jsstring)
    (sourceUrl : option jsstring) (tabId : N) (w w' : World)
    (sessionId : jsstring) :
  handleMapping P selectedText sourceUrl tabId w = (Ok tt, w') ->
  runtime_messages w' = runtime_messages w ++ [MAPPING_COMPLETE] ->
  activeSessionId (storage w) = Some sessionId ->
  session_of sessionId w = None ->
  same_stored_data w w' /\
  exists credentials property children,
    List.last (netlog w') (NotionGetDatabase JNull) =
      NotionCreatePage credentials property (js "Default") children.
Proof.
  intros Hrun Hmsg Hact Hs.
  destruct (mapped_capture_outcome P _ _ _ _ _ Hrun Hmsg)
    as (sid & apiKey & credentials & sent & Hact' & Hlog & _ & Hrec).
  assert (sid = sessionId) by congruence. subst sid.
  rewrite Hs in Hrec. destruct Hrec as (Hsame & property & children & ->).
  split; [exact Hsame|]. exists credentials, property, children.
  rewrite Hlog.
  replace (netlog w ++
           groq_request apiKey selectedText (context_of sessionId w)
           :: [NotionGetDatabase credentials;
               NotionCreatePage credentials property (js "Default") children])
    with ((netlog w ++
           [groq_request apiKey selectedText (context_of sessionId w);
            NotionGetDatabase credentials])
          ++ [NotionCreatePage credentials property (js "Default") children])
    by (now rewrite <- app_assoc).
  apply last_last.
Qed.

(** The configured installation, with the active id set to an id that no
    session has. *)
Lemma capture_without_session_is_lost_witness :
  let w := with_storage (write_key K_activeSessionId (js "ghost"))
             (Scenario.ready Scenario.answering) in
  let w' := snd (handleMapping Toy.platform Scenario.sentence
                   (Some Scenario.url) 1 w) in
  List.last (notifications w') processing_notification = success_notification /\
  same_stored_data w w' /\
  exists credentials property children,
    List.last (netlog w') (NotionGetDatabase JNull) =
      NotionCreatePage credentials property (js "Default") children.
Proof.
  cbv zeta. split; [vm_compute; reflexivity|].
  apply (capture_without_session_is_lost Toy.platform Scenario.sentence
           (Some Scenario.url) 1
           (with_storage (write_key K_activeSessionId (js "ghost"))
              (Scenario.ready Scenario.answering))
           _ (js "ghost")).
  - vm_compute; reflexivity.
  - vm_compute; reflexivity.
  - vm_compute; reflexivity.
  - vm_compute; reflexivity.
Defined.

(** X19. Every paragraph block the page builders make from a text is
    non-empty, begins with a character that is not whitespace and holds
    at most 2000 code units; there are no more blocks than pieces
    between the blank lines, and a text of whitespace alone gives no
    paragraph at all. *)
Theorem paragraph_blocks_wellformed (content : jsstring) :
  Forall (fun b => exists c rest,
            b = Paragraph (c :: rest) /\
            is_js_whitespace c = false /\
            (length (c :: rest) <= 2000)%nat)
         (paragraph_blocks content) /\
  (length (paragraph_blocks content) <= length (split_blank_lines content))%nat /\
  (forallb is_js_whitespace content = true -> paragraph_blocks content = []).
Proof.
  unfold paragraph_blocks. split; [|split].
  - apply List.Forall_forall. intros b Hb.
    apply in_map_iff in Hb as (p & <- & Hp).
    apply filter_In in Hp as [_ Hp].
    pose proof (trim_head p) as Hh.
    destruct (trim p) as [|c rest]; [discriminate|].
    exists c, (firstn 1999 rest). split; [reflexivity|]. split; [exact Hh|].
    cbn [length]. pose proof (firstn_le_length 1999 rest). lia.
  - rewrite length_map. apply filter_length_le.
  - intros Hw.
    pose proof (split_blank_lines_whitespace content false [] eq_refl Hw) as Hall.
    fold (split_blank_lines content) in Hall.
    induction Hall as [|p l Hp Hl IH]; [reflexivity|].
    cbn [List.filter]. rewrite (trim_whitespace p Hp). exact IH.
Qed.


(** X21. [createNotionPage] asks for the database schema first. It sends
    the request that creates the page only when the schema came back and
    the source URL could be parsed, and then under the first property of
    type ['title'] of the schema, or under ['Name'] when the schema has
    none; in every other case it throws after the schema request alone.
    It changes nothing but the request log. *)
Theorem createNotionPage_asks_schema_first (P : Platform) (credentials : JSON)
    (sessionName0 content : jsstring) (sourceUrl : option jsstring)
    (sectionTitle0 : jsstring) (w : World) :
  let log1 := netlog w ++ [NotionGetDatabase credentials] in
  exists r w' sent,
    createNotionPage P credentials sessionName0 content sourceUrl
      sectionTitle0 w = (r, w') /\
    netlog w' = log1 ++ sent /\
    storage w' = storage w /\ notifications w' = notifications w /\
    ((sent = [] /\ exists e, r = Throw e) \/
     (exists properties source,
        notion_schema_reply (remote w) log1 = Body properties /\
        source_line P sourceUrl = Some source /\
        sent = [NotionCreatePage credentials (titlePropertyName properties)
                  sessionName0 (page_children sectionTitle0 content source)] /\
        (In (titlePropertyName properties, js "title") properties \/
         (titlePropertyName properties = js "Name" /\
          forall p, In p properties -> snd p <> js "title")) /\
        r = notion_result (notion_create_reply (remote w) (log1 ++ sent)))).
Proof.
  intros log1. rewrite createNotionPage_run. cbv zeta. fold log1.
  destruct (notion_schema_reply (remote w) log1) as [e|m st|e|properties] eqn:Hs.
  1-3: eexists _, _, []; (split; [reflexivity|]);
    (split; [now rewrite app_nil_r|]); (split; [reflexivity|]);
    (split; [reflexivity|]); left; eauto.
  destruct (source_line P sourceUrl) as [source|] eqn:Hsrc.
  - eexists _, _, [_]. split; [reflexivity|]. split; [reflexivity|].
    split; [reflexivity|]. split; [reflexivity|]. right.
    exists properties, source. split; [reflexivity|]. split; [reflexivity|].
    split; [reflexivity|]. split; [apply titlePropertyName_spec|reflexivity].
  - eexists _, _, []. split; [reflexivity|]. split; [now rewrite app_nil_r|].
    split; [reflexivity|]. split; [reflexivity|]. left. eauto.
Qed.

(** X22. While setup is not complete, or the extension is locked, every
    capture is refused and nothing else happens: the world after the
    capture is the world before with one error notification added, so
    no request was sent, no key was loaded and no secret was read. The
    reason is the setup's when setup is not complete, the lock's
    otherwise. *)
Theorem locked_capture_is_refused (P : Platform) (selectedText : jsstring)
    (sourceUrl : option jsstring) (tabId : N) (w : World) :
  setupComplete (storage w) <> Some true \/ isLocked (storage w) = Some true ->
  let reason :=
    match setupComplete (storage w) with
    | Some true => js "Extension is locked. Please unlock first."
    | _ => js "Please complete setup first"
    end in
  handleMapping P selectedText sourceUrl tabId w =
    (Ok tt,
     with_notifications (notifications w ++ [refusal_notification reason]) w).
Proof.
  intros H reason. unfold reason.
  cbv [handleMapping try_catch bind StorageManager_get lookup_key].
  destruct (setupComplete (storage w)) as [[|]|]; try reflexivity.
  destruct H as [H|H]; [congruence|]. now rewrite H.
Qed.

(** The configured installation, locked. *)
Lemma locked_capture_is_refused_witness :
  let w := with_storage (write_key K_isLocked true)
             (Scenario.ready Scenario.answering) in
  handleMapping Toy.platform Scenario.sentence (Some Scenario.url) 1 w =
    (Ok tt,
     with_notifications
       (notifications w ++
        [refusal_notification (js "Extension is locked. Please unlock first.")])
       w).
Proof.
  cbv zeta.
  apply (locked_capture_is_refused Toy.platform Scenario.sentence
           (Some Scenario.url) 1
           (with_storage (write_key K_isLocked true)
              (Scenario.ready Scenario.answering))).
  right. reflexivity.
Defined.

(** ** The service helpers *)

(** X23. [truncateText] returns the empty string for a missing or empty
    text and the text itself when it fits. A longer text is cut to its
    first [maxLength - 3] code units followed by three dots: that is
    [maxLength] code units when [maxLength] is at least 3, and the three
    dots alone, more than [maxLength], when it is less. *)
Theorem truncateText_bounds (text : option jsstring) (maxLength : Z) :
  (Z.of_nat (length (truncateText text maxLength)) <= Z.max maxLength 3)%Z /\
  (text = None \/ text = Some [] -> truncateText text maxLength = []) /\
  (forall t, text = Some t -> (Z.of_nat (length t) <= maxLength)%Z ->
     truncateText text maxLength = t) /\
  (forall t, text = Some t -> t <> [] ->
     (maxLength < Z.of_nat (length t))%Z ->
     truncateText text maxLength =
       firstn (Z.to_nat (maxLength - 3)) t ++ js "..." /\
     (3 <= maxLength ->
      Z.of_nat (length (truncateText text maxLength)) = maxLength)%Z /\
     (maxLength < 3 -> truncateText text maxLength = js "...")%Z).
Proof.
  assert (Hlong : forall t, t <> [] -> (maxLength < Z.of_nat (length t))%Z ->
            truncateText (Some t) maxLength =
              firstn (Z.to_nat (maxLength - 3)) t ++ js "...").
  { intros [|c t] Hne Hl; [contradiction|]. cbn [truncateText].
    destruct (Z.leb_spec (Z.of_nat (length (c :: t))) maxLength); [lia|].
    reflexivity. }
  assert (Hfit : forall t, (Z.of_nat (length t) <= maxLength)%Z ->
            truncateText (Some t) maxLength = t).
  { intros [|c t] Hl; cbn [truncateText]; [reflexivity|].
    destruct (Z.leb_spec (Z.of_nat (length (c :: t))) maxLength); [reflexivity|lia]. }
  split; [|split; [|split]].
  - destruct text as [t|]; [|cbn; lia].
    destruct t as [|c t]; [cbn; lia|].
    destruct (Z.le_gt_cases (Z.of_nat (length (c :: t))) maxLength) as [H|H].
    + rewrite Hfit by exact H. lia.
    + rewrite Hlong by (try discriminate; lia).
      rewrite length_app, length_firstn.
      change (length (js "...")) with 3%nat. lia.
  - intros [->| ->]; reflexivity.
  - intros t -> Hl. now apply Hfit.
  - intros t -> Hne Hl. split; [now apply Hlong|]. rewrite Hlong by assumption.
    split.
    + intros H3. rewrite length_app, length_firstn.
      change (length (js "...")) with 3%nat. lia.
    + intros H3. replace (Z.to_nat (maxLength - 3)) with 0%nat by lia.
      reflexivity.
Qed.

(** X24. [sanitizeTags] returns at most five tags, each of them
    non-empty, starting with a character that is not whitespace and at
    most 50 code units long; each comes from a string of the array,
    trimmed and cut. For anything that is not an array it returns the
    one tag ['uncategorized']. [sanitizeLinkedNotes] does the same with
    at most 100 code units, and returns no note for anything that is not
    an array. *)
Theorem sanitizeTags_bounds (tags : option JSON) :
  (length (sanitizeTags tags) <= 5)%nat /\
  Forall (fun tag => exists c rest,
            tag = c :: rest /\ is_js_whitespace c = false /\
            (length tag <= 50)%nat)
         (sanitizeTags tags) /\
  (forall items, tags = Some (JArray items) ->
     forall tag, In tag (sanitizeTags tags) ->
       exists s, In (JString s) items /\ tag = substring0 50 (trim s)) /\
  ((forall items, tags <> Some (JArray items)) ->
   sanitizeTags tags = [js "uncategorized"]) /\
  (length (sanitizeLinkedNotes tags) <= 5)%nat /\
  Forall (fun note => exists c rest,
            note = c :: rest /\ is_js_whitespace c = false /\
            (length note <= 100)%nat)
         (sanitizeLinkedNotes tags) /\
  ((forall items, tags <> Some (JArray items)) -> sanitizeLinkedNotes tags = []).
Proof.
  assert (Hdefault :
    Forall (fun tag => exists c rest,
              tag = c :: rest /\ is_js_whitespace c = false /\
              (length tag <= 50)%nat) [js "uncategorized"]).
  { constructor; [|constructor]. eexists _, _. split; [reflexivity|].
    split; [reflexivity|]. cbn. lia. }
  split; [|split; [|split; [|split; [|split; [|split]]]]].
  - destruct tags as [[]|]; cbn [sanitizeTags length]; try lia.
    rewrite length_firstn. lia.
  - destruct tags as [[| | | |items|]|]; cbn [sanitizeTags]; try exact Hdefault.
    apply List.Forall_forall. intros tag Hin. apply In_firstn in Hin.
    apply in_map_iff in Hin as (s & <- & Hs).
    apply nonblank_strings_spec in Hs as [_ Hs].
    destruct (cut_trimmed 49 s Hs) as (c & rest & E & Hc & Hl).
    exists c, rest. rewrite E. auto.
  - intros items -> tag Hin. cbn [sanitizeTags] in Hin.
    apply In_firstn in Hin. apply in_map_iff in Hin as (s & <- & Hs).
    apply nonblank_strings_spec in Hs as [Hs _]. eauto.
  - intros Hna. destruct tags as [[| | | |items|]|]; try reflexivity.
    now destruct (Hna items).
  - destruct tags as [[]|]; cbn [sanitizeLinkedNotes length]; try lia.
    rewrite length_firstn. lia.
  - destruct tags as [[| | | |items|]|]; cbn [sanitizeLinkedNotes];
      try constructor.
    apply List.Forall_forall. intros tag Hin. apply In_firstn in Hin.
    apply in_map_iff in Hin as (s & <- & Hs).
    apply nonblank_strings_spec in Hs as [_ Hs].
    destruct (cut_trimmed 99 s Hs) as (c & rest & E & Hc & Hl).
    exists c, rest. rewrite E. auto.
  - intros Hna. destruct tags as [[| | | |items|]|]; try reflexivity.
    now destruct (Hna items).
Qed.

(** X25. When [extractDatabaseIdFromUrl] finds an identifier, it is the
    leftmost run of 32 hexadecimal digits of the URL, and
    [isValidDatabaseId] accepts it; it finds none exactly when the URL
    has no such run. An identifier of 32 hexadecimal digits is what is
    extracted from itself; written with hyphens it is still valid for
    [isValidDatabaseId]. *)
Theorem databaseId_extraction (url : jsstring) :
  match extractDatabaseIdFromUrl (Some url) with
  | Some found =>
      length found = 32%nat /\ forallb is_hex found = true /\
      isValidDatabaseId (Some found) = true /\
      exists before after,
        url = before ++ found ++ after /\
        forall k, (k < length before)%nat ->
          ~ (length (firstn 32 (skipn k url)) = 32%nat /\
             forallb is_hex (firstn 32 (skipn k url)) = true)
  | None =>
      forall k,
        ~ (length (firstn 32 (skipn k url)) = 32%nat /\
           forallb is_hex (firstn 32 (skipn k url)) = true)
  end /\
  (length url = 32%nat -> forallb is_hex url = true ->
   extractDatabaseIdFromUrl (Some url) = Some url) /\
  (isValidDatabaseId (Some url) =
   isValidDatabaseId (Some (List.filter (fun c => negb (c =? 45)) url))).
Proof.
  cbn [extractDatabaseIdFromUrl]. split; [|split].
  - pose proof (match_hex32_spec url) as H.
    destruct (match_hex32 url) as [found|]; [|exact H].
    destruct H as (Hl & Hh & Hrest). split; [exact Hl|]. split; [exact Hh|].
    split; [|exact Hrest].
    unfold isValidDatabaseId. rewrite filter_no_hyphen by exact Hh.
    now rewrite Hl, Hh.
  - intros Hl Hh. destruct url as [|c url]; [discriminate|].
    cbn [match_hex32].
    rewrite firstn_all2 by lia. rewrite Hl, Hh. reflexivity.
  - unfold isValidDatabaseId. now rewrite filter_idem.
Qed.

(** ** The popup *)

(** X26. [lockExtension] stores the lock flag and clears the cached key,
    but when user data is stored it reads it right away, and reading it
    loads the key from storage again: after [lockExtension] the key is
    cached as before. Only when no user data is stored does the key stay
    cleared. *)
Theorem lockExtension_reloads_key (P : Platform) (w : World) (key : list byte) :
  _keyPromise (crypto w) = None ->
  key_stored w key ->
  exists w',
    lockExtension P w = (Ok tt, w') /\
    isLocked (storage w') = Some true /\
    match lookup_key (K_named (encrypted_name "userData")) (storage w) with
    | Some _ =>
        _encryptionKey (crypto w') = Some key /\ fst (hasKey w') = Ok true
    | None =>
        _encryptionKey (crypto w') = None /\ fst (hasKey w') = Ok false
    end.
Proof.
  intros Hp Hs. unfold lockExtension.
  unfold bind at 1. cbn [StorageManager_set modify].
  unfold bind at 1. cbn [clearKey set_encryptionKey modify].
  set (w2 := with_crypto _ (with_storage _ w)).
  pose proof (getEncrypted_run P "userData" w2) as R.
  change (lookup_key (K_named (encrypted_name "userData")) (storage w2))
    with (lookup_key (K_named (encrypted_name "userData")) (storage w)) in R.
  unfold bind.
  destruct (lookup_key (K_named (encrypted_name "userData")) (storage w))
    as [blob|].
  - assert (Hload : getOrCreateMasterKey P w2 =
                    (Ok key,
                     with_crypto (fun _ => {| _encryptionKey := Some key;
                                              _keyPromise := None |}) w2)).
    { apply getOrCreateMasterKey_loads; [reflexivity|exact Hp|exact Hs]. }
    destruct (decrypt_loads P blob w2 key _ Hload) as (r & Hd).
    rewrite Hd in R. destruct r as [v|e]; rewrite R;
      (eexists; split; [reflexivity|]); repeat split.
  - rewrite R. eexists. split; [reflexivity|]. repeat split.
Qed.

(** The configured installation with user data stored. *)
Lemma lockExtension_reloads_key_witness :
  let w := snd (setEncrypted Toy.platform "userData" (JBool true)
                  (Scenario.ready Toy.silent)) in
  exists key w',
    _encryptionKey (crypto w) = Some key /\
    lockExtension Toy.platform w = (Ok tt, w') /\
    isLocked (storage w') = Some true /\
    _encryptionKey (crypto w') = Some key /\ fst (hasKey w') = Ok true.
Proof.
  cbv zeta.
  exists (map (entropy (Toy.installed Toy.silent)) (seq 0 32)).
  assert (Hp : _keyPromise
                 (crypto (snd (setEncrypted Toy.platform "userData" (JBool true)
                                 (Scenario.ready Toy.silent)))) = None)
    by (vm_compute; reflexivity).
  assert (Hs : key_stored
                 (snd (setEncrypted Toy.platform "userData" (JBool true)
                         (Scenario.ready Toy.silent)))
                 (map (entropy (Toy.installed Toy.silent)) (seq 0 32))).
  { eexists _, _. split; [vm_compute; reflexivity|].
    split; vm_compute; reflexivity. }
  destruct (lockExtension_reloads_key Toy.platform _ _ Hp Hs)
    as (w' & Hrun & Hl & Hk).
  exists w'. split; [vm_compute; reflexivity|]. split; [exact Hrun|].
  split; [exact Hl|].
  destruct (lookup_key (K_named (encrypted_name "userData"))
              (storage (snd (setEncrypted Toy.platform "userData" (JBool true)
                               (Scenario.ready Toy.silent)))))
    as [blob|] eqn:E; [exact Hk|].
  vm_compute in E. discriminate.
Defined.

(** ** Overlapping calls of [getOrCreateMasterKey] with a stored export *)

(** X27. [n] calls of [getOrCreateMasterKey] are made while a usable key
    export is stored and no key is cached, and interleave at their
    [await]s in any order. At every point of every interleaving at most
    one promise was created, no key was generated, the stored export is
    untouched, no call has failed and every call that has returned holds
    the imported key. An interleaving has at most [7 * n] steps and can
    be continued until all [n] callers hold the imported key. *)
Theorem stored_key_single_flight (fresh : nat -> list byte) (stored : string)
    (key : list byte) (n : nat) (schedule : list SingleFlight.Action)
    (s : SingleFlight.State) :
  StoredKey.imports stored key ->
  SingleFlight.run fresh (StoredKey.initial n stored) schedule = Some s ->
  (length schedule <= 7 * n)%nat /\
  (length (SingleFlight.creations s) <= 1)%nat /\
  SingleFlight.generated s = 0%nat /\
  SingleFlight.masterKey s = Some stored /\
  (forall i c,
      SingleFlight.callers s !! i = Some c ->
      c <> SingleFlight.Failed /\
      forall k, c = SingleFlight.Returned k -> k = Some key) /\
  ((forall i, (i < n)%nat ->
      SingleFlight.callers s !! i = Some (SingleFlight.Returned (Some key))) \/
   exists a s', SingleFlight.step fresh s a = Some s').
Proof.
  intros Himp Hrun.
  pose proof (StoredKeyFacts.run_inv_load fresh stored key Himp schedule _ _
                (StoredKeyFacts.inv_load_initial stored key n) Hrun) as Hinv.
  pose proof (SingleFlightFacts.run_weight fresh schedule _ _ Hrun) as Hw.
  rewrite StoredKeyFacts.weight_initial_stored in Hw.
  pose proof (SingleFlightFacts.run_callers_length fresh schedule _ _ Hrun) as Hlen.
  cbn [StoredKey.initial SingleFlight.callers] in Hlen.
  rewrite length_replicate in Hlen.
  pose proof (StoredKeyFacts.inv_load_progress fresh stored key s Hinv) as Hprog.
  destruct Hinv as (Hm & Hg & Hinv).
  split; [lia|].
  assert (Hcallers : forall i c,
             SingleFlight.callers s !! i = Some c ->
             c <> SingleFlight.Failed /\
             forall k, c = SingleFlight.Returned k -> k = Some key).
  { intros i c Hi.
    destruct (SingleFlight.creations s) as [|q [|q' rest]]; [| |contradiction].
    - destruct Hinv as (_ & _ & Hall).
      pose proof (Forall_lookup_1 _ _ _ _ Hall Hi) as Hc. cbv beta in Hc.
      subst c. split; [discriminate|]. intros k [=].
    - destruct Hinv as (Hall & _).
      pose proof (Forall_lookup_1 _ _ _ _ Hall Hi) as Hc.
      destruct Hc as [ -> | [ -> | [ -> | -> ] ] ];
        (split; [discriminate|]); intros k [=]; congruence. }
  split.
  { destruct (SingleFlight.creations s) as [|q [|q' rest]];
      [cbn; lia|cbn; lia|contradiction]. }
  split; [exact Hg|]. split; [exact Hm|]. split; [exact Hcallers|].
  destruct Hprog as [Hall|Hstep]; [left|now right].
  intros i Hi. destruct (SingleFlight.callers s !! i) as [c|] eqn:Ei.
  - pose proof (Forall_lookup_1 _ _ _ _ Hall Ei) as Hr.
    destruct c; try discriminate.
    now rewrite (proj2 (Hcallers i _ Ei) _ eq_refl).
  - apply lookup_ge_None in Ei. lia.
Qed.

Lemma stored_key_single_flight_witness :
  let s := StoredKey.end_of StoredKey.sample_export 3 StoredKey.three_calls in
  SingleFlight.run (fun _ => []) (StoredKey.initial 3 StoredKey.sample_export)
    StoredKey.three_calls = Some s /\
  SingleFlight.callers s =
    replicate 3 (SingleFlight.Returned (Some StoredKey.sample_key)) /\
  (length StoredKey.three_calls <= 7 * 3)%nat /\
  (length (SingleFlight.creations s) <= 1)%nat /\
  SingleFlight.generated s = 0%nat /\
  SingleFlight.masterKey s = Some StoredKey.sample_export /\
  (forall i c,
      SingleFlight.callers s !! i = Some c ->
      c <> SingleFlight.Failed /\
      forall k, c = SingleFlight.Returned k -> k = Some StoredKey.sample_key) /\
  ((forall i, (i < 3)%nat ->
      SingleFlight.callers s !! i =
        Some (SingleFlight.Returned (Some StoredKey.sample_key))) \/
   exists a s', SingleFlight.step (fun _ => []) s a = Some s').
Proof.
  cbv zeta. split; [vm_compute; reflexivity|]. split; [vm_compute; reflexivity|].
  apply (stored_key_single_flight (fun _ => []) StoredKey.sample_export
           StoredKey.sample_key 3 StoredKey.three_calls).
  - split; [discriminate|]. split; vm_compute; reflexivity.
  - vm_compute; reflexivity.
Defined.

(** X28. [n] calls of [getOrCreateMasterKey] are made while the stored
    export is unusable (a non-empty string that is not base64, or not
    the material of an AES key) and no key is cached. In every
    interleaving at most one promise is created, no key is ever assigned
    or generated, the stored string is untouched, no call returns a key,
    and once the promise exists [_keyPromise] keeps pointing to it. An
    interleaving has at most [7 * n] steps and can be continued until
    all [n] callers have failed. *)
Theorem unusable_key_fails_all (fresh : nat -> list byte) (stored : string)
    (n : nat) (schedule : list SingleFlight.Action) (s : SingleFlight.State) :
  StoredKey.unusable stored ->
  SingleFlight.run fresh (StoredKey.initial n stored) schedule = Some s ->
  (length schedule <= 7 * n)%nat /\
  (length (SingleFlight.creations s) <= 1)%nat /\
  SingleFlight.generated s = 0%nat /\
  SingleFlight.encryptionKey s = None /\
  SingleFlight.masterKey s = Some stored /\
  (SingleFlight.creations s <> [] -> SingleFlight.keyPromise s = Some 0%nat) /\
  (forall i c k,
      SingleFlight.callers s !! i = Some c -> c <> SingleFlight.Returned k) /\
  ((forall i, (i < n)%nat ->
      SingleFlight.callers s !! i = Some SingleFlight.Failed) \/
   exists a s', SingleFlight.step fresh s a = Some s').
Proof.
  intros Hun Hrun.
  pose proof (StoredKeyFacts.run_inv_fail fresh stored Hun schedule _ _
                (StoredKeyFacts.inv_fail_initial stored n) Hrun) as Hinv.
  pose proof (SingleFlightFacts.run_weight fresh schedule _ _ Hrun) as Hw.
  rewrite StoredKeyFacts.weight_initial_stored in Hw.
  pose proof (SingleFlightFacts.run_callers_length fresh schedule _ _ Hrun) as Hlen.
  cbn [StoredKey.initial SingleFlight.callers] in Hlen.
  rewrite length_replicate in Hlen.
  pose proof (StoredKeyFacts.inv_fail_progress fresh stored s Hinv) as Hprog.
  destruct Hinv as (Hm & Hg & Hk & Hinv).
  split; [lia|].
  split.
  { destruct (SingleFlight.creations s) as [|q [|q' rest]];
      [cbn; lia|cbn; lia|contradiction]. }
  split; [exact Hg|]. split; [exact Hk|]. split; [exact Hm|].
  split.
  { intros Hne.
    destruct (SingleFlight.creations s) as [|q [|q' rest]];
      [contradiction|apply Hinv|contradiction]. }
  split.
  { intros i c k Hi.
    destruct (SingleFlight.creations s) as [|q [|q' rest]]; [| |contradiction].
    - destruct Hinv as (_ & Hall).
      pose proof (Forall_lookup_1 _ _ _ _ Hall Hi) as Hc. cbv beta in Hc.
      subst c. discriminate.
    - destruct Hinv as (_ & Hall & _).
      pose proof (Forall_lookup_1 _ _ _ _ Hall Hi) as Hc.
      destruct Hc as [ -> | [ -> | [ -> | -> ] ] ]; discriminate. }
  destruct Hprog as [Hall|Hstep]; [left|now right].
  intros i Hi. destruct (SingleFlight.callers s !! i) as [c|] eqn:Ei.
  - pose proof (Forall_lookup_1 _ _ _ _ Hall Ei) as Hr.
    destruct c; try discriminate. reflexivity.
  - apply lookup_ge_None in Ei. lia.
Qed.

Lemma unusable_key_fails_all_witness :
  let s := StoredKey.end_of "!" 3 StoredKey.three_failing_calls in
  SingleFlight.run (fun _ => []) (StoredKey.initial 3 "!")
    StoredKey.three_failing_calls = Some s /\
  SingleFlight.callers s = replicate 3 SingleFlight.Failed /\
  (length StoredKey.three_failing_calls <= 7 * 3)%nat /\
  (length (SingleFlight.creations s) <= 1)%nat /\
  SingleFlight.generated s = 0%nat /\
  SingleFlight.encryptionKey s = None /\
  SingleFlight.masterKey s = Some "!"%string /\
  (SingleFlight.creations s <> [] -> SingleFlight.keyPromise s = Some 0%nat) /\
  (forall i c k,
      SingleFlight.callers s !! i = Some c -> c <> SingleFlight.Returned k) /\
  ((forall i, (i < 3)%nat ->
      SingleFlight.callers s !! i = Some SingleFlight.Failed) \/
   exists a s', SingleFlight.step (fun _ => []) s a = Some s').
Proof.
  cbv zeta. split; [vm_compute; reflexivity|]. split; [vm_compute; reflexivity|].
  apply (unusable_key_fails_all (fun _ => []) "!" 3 StoredKey.three_failing_calls).
  - split; [discriminate|]. exact I.
  - vm_compute; reflexivity.
Defined.
